(** * slippy contact sub-models: subsurface stress and rolling-surface shift

    A shallow embedding of
    - [slippy/contact/sub_models/sub_surface_stress.py] (class [SubsurfaceStress]),
    - [slippy/contact/sub_models/shift_surface.py] (class [UpdateShiftRollingSurface]).

    Python dictionaries with string keys are [gmap string _]; Python sets of
    strings are [gset string]; insertion-ordered dictionaries that the code
    iterates over are association lists.  An exception is a value of [PyExc]
    (class name and argument), and every operation that can raise returns a
    [Res].  numpy arrays are a shape together with a value at every index;
    float64 arithmetic is idealised as arithmetic on [R]: rounding and
    overflow are outside the model.  The operations of [R] are total, those
    of numpy give NaN where there is no real result; the closed-form solver
    of lines 160-168, the one place where this happens on finite inputs, is
    given a second time on values with NaN ([principal_floats]), and what is
    stated about its values on [R] is stated where the two agree. *)

From Stdlib Require Import Ascii Reals Lra Lia.
From stdpp Require Import gmap strings list fin_maps pretty.

Local Open Scope string_scope.

(** ** Python preliminaries *)

(** A raised exception: the class name and the (printed) argument. *)
Record PyExc := Raise { exc_class : string; exc_arg : string }.

#[global] Instance PyExc_eq_dec : EqDecision PyExc.
Proof. solve_decision. Defined.

(** The result of an operation that may raise. *)
Definition Res (A : Type) : Type := PyExc + A.

Definition KeyError (k : string) : PyExc := Raise "KeyError" k.
Definition ValueError (msg : string) : PyExc := Raise "ValueError" msg.
Definition TypeError (msg : string) : PyExc := Raise "TypeError" msg.
Definition IndexError (msg : string) : PyExc := Raise "IndexError" msg.
Definition RuntimeError (msg : string) : PyExc := Raise "RuntimeError" msg.
Definition AssertionError (msg : string) : PyExc := Raise "AssertionError" msg.
Definition AttributeError (msg : string) : PyExc := Raise "AttributeError" msg.

(** Iterating over a [str] yields its characters as one-character strings. *)
Fixpoint chars (s : string) : list string :=
  match s with
  | EmptyString => []
  | String a rest => String a EmptyString :: chars rest
  end.

(** [needle in hay] for two strings: substring test. *)
Definition str_in (needle hay : string) : bool :=
  match String.index 0 needle hay with Some _ => true | None => false end.

(** [x in t] for a tuple of strings. *)
Definition tuple_in (x : string) (t : list string) : bool := bool_decide (x ∈ t).

(** [set(iterable)]. *)
Definition py_set (l : list string) : gset string := list_to_set l.

(** [', '.join(l)]. *)
Fixpoint join_comma (l : list string) : string :=
  match l with
  | [] => ""
  | [x] => x
  | x :: rest => x ++ ", " ++ join_comma rest
  end.

(** [repr] of a tuple of at least two strings. *)
Definition repr_tuple (l : list string) : string :=
  "(" ++ join_comma (map (fun s => "'" ++ s ++ "'") l) ++ ")".

(** [Union[int, Sequence[int]]] and [Union[str, Sequence[str]]]. *)
Inductive int_or_seq := AnInt (n : Z) | IntSeq (l : list Z).
Inductive str_or_seq := AStr (s : string) | StrSeq (l : list string).

(** ** numpy arrays *)

(** An array: its shape and the value stored at each index. *)
Record ndarray := mk_ndarray { shape : list nat; data : list nat -> R }.

(** [xp.zeros(shape)]. *)
Definition zeros (sh : list nat) : ndarray := mk_ndarray sh (fun _ => 0%R).

(** An insertion-ordered dictionary with string keys. *)
Definition odict (V : Type) : Type := list (string * V).

Fixpoint od_lookup {V} (k : string) (d : odict V) : option V :=
  match d with
  | [] => None
  | (k', v) :: rest => if decide (k = k') then Some v else od_lookup k rest
  end.

(** [d[k] = v]: replace in place, or append a new key at the end. *)
Fixpoint od_set {V} (k : string) (v : V) (d : odict V) : odict V :=
  match d with
  | [] => [(k, v)]
  | (k', v') :: rest =>
      if decide (k = k') then (k', v) :: rest else (k', v') :: od_set k v rest
  end.

(** [del d[k]] for a key that is present. *)
Fixpoint od_del {V} (k : string) (d : odict V) : odict V :=
  match d with
  | [] => []
  | (k', v') :: rest =>
      if decide (k = k') then rest else (k', v') :: od_del k rest
  end.

Definition od_keys {V} (d : odict V) : list string := map fst d.

Module SubSurfaceStress.

(** *** Collaborators that live outside the two files

    [material.sss_influence_matrices_*] and [plan_multi_convolve] come from
    [slippy.core]; they are taken as opaque functions.  A material answers
    [(span, grid_spacing, components, z, cuda)] with a dictionary from
    component name to influence-matrix kernel. *)

Definition sss_function : Type :=
  list nat -> list R -> list string -> list R -> bool -> odict ndarray.

Record Material := {
  is_IMMaterial : bool;
  sss_influence_matrices_normal : sss_function;
  sss_influence_matrices_tangential_x : sss_function;
  sss_influence_matrices_tangential_y : sss_function
}.

Record Surface := { grid_spacing : R; material : Material }.

(** A planned convolution: a unary operator on load fields. *)
Definition conv_func : Type := ndarray -> ndarray.

(** *** The sub-model object

    The fields set by [__init__].  The base class [_SubModelABC] is part of
    [slippy.core]; its constructor is given the name and the declared
    [requires] and [provides] sets, which are kept as fields here. *)

Record SubsurfaceStress := {
  name : string;
  requires : gset string;
  provides : gset string;
  surfaces : list Z;
  load_components : string;
  stress_components : list string;
  keep_kernels : bool;
  cuda_convolutions : bool;
  _kernel_cache : gmap Z (gmap string (odict conv_func));
  _cache_span : list nat;
  z : option (list R);
  comps_to_find : list string;
  periodic_axes : bool * bool
}.

Definition valid_stresses : list string :=
  ["xx"; "yy"; "zz"; "xy"; "yz"; "xz"; "1"; "2"; "3"; "vm"].

Definition cauchy_components : list string :=
  ["xx"; "yy"; "zz"; "xy"; "yz"; "xz"].

(** [for lc in load_components: if lc not in 'xz': raise ValueError(...)] *)
Fixpoint check_load_components (lcs : list string) : Res unit :=
  match lcs with
  | [] => inr tt
  | lc :: rest =>
      if str_in lc "xz" then check_load_components rest
      else inl (ValueError ("Unrecognised load direction: " ++ lc ++
                            ", valid directions are: x, z"))
  end.

(** [for sc in stress_components: if sc not in valid_stresses: raise ...] *)
Fixpoint check_stress_components (scs : list string) : Res unit :=
  match scs with
  | [] => inr tt
  | sc :: rest =>
      if tuple_in sc valid_stresses then check_stress_components rest
      else inl (ValueError ("Unrecognised stress component: " ++ sc ++
                            ", valid components are: " ++
                            repr_tuple valid_stresses))
  end.

(** ['surface_' + str(s) + '_' + sc] *)
Definition state_key (s : Z) (sc : string) : string :=
  "surface_" ++ pretty s ++ "_" ++ sc.

(** [product(surface, stress_components)] mapped to the state keys. *)
Definition provided_keys (surface : list Z) (scs : list string) : list string :=
  s ← surface; sc ← scs; [state_key s sc].

(** [{s: {a: dict() for a in stress_components} for s in surface}] *)
Definition initial_cache (surface : list Z) (scs : list string)
  : gmap Z (gmap string (odict conv_func)) :=
  list_to_map (map (fun s => (s, list_to_map (map (fun a => (a, [])) scs))) surface).

(** [any(s in stress_components for s in ('1', '2', '3', 'vm'))] *)
Definition calc_all (stress_components : list string) : bool :=
  existsb (fun s => tuple_in s stress_components) ["1"; "2"; "3"; "vm"].

(** Lines 72 and 77-89 of [__init__]: the object built once both checks
    have passed. *)
Definition make (z : option (list R)) (surface : list Z) (name : string)
    (periodic_axes : bool * bool) (load_components : string)
    (stress_components : list string) (keep_kernels cuda_convolutions : bool)
  : SubsurfaceStress :=
  {| name := name;
     requires := py_set (map (fun c => "loads_" ++ c) (chars load_components));
     provides := py_set (provided_keys surface stress_components);
     surfaces := surface;
     load_components := load_components;
     stress_components := stress_components;
     keep_kernels := keep_kernels;
     cuda_convolutions := cuda_convolutions;
     _kernel_cache := initial_cache surface stress_components;
     _cache_span := [0; 0]%nat;
     z := z;
     comps_to_find :=
       if calc_all stress_components then cauchy_components
       else stress_components;
     periodic_axes := periodic_axes |}.

Definition surface_seq (surface : int_or_seq) : list Z :=
  match surface with AnInt n => [n] | IntSeq l => l end.

Definition component_seq (stress_components : str_or_seq) : list string :=
  match stress_components with AStr s => [s] | StrSeq l => l end.

(** [SubsurfaceStress.__init__] *)
Definition __init__ (z : option (list R)) (surface : int_or_seq) (name : string)
    (periodic_axes : bool * bool) (load_components : string)
    (stress_components : str_or_seq) (keep_kernels cuda_convolutions : bool)
  : Res SubsurfaceStress :=
  let surface := surface_seq surface in
  let stress_components := component_seq stress_components in
  match check_load_components (chars load_components) with
  | inl e => inl e
  | inr _ =>
    match check_stress_components stress_components with
    | inl e => inl e
    | inr _ =>
      inr (make z surface name periodic_axes load_components
             stress_components keep_kernels cuda_convolutions)
    end
  end.

(** The constructor called with every argument left at its default. *)
Definition init_default : Res SubsurfaceStress :=
  __init__ None (IntSeq [1; 2]%Z) "sub_surface_stress" (false, false) "z"
       (StrSeq ["all"]) true false.

(** *** Elementwise numerics

    Every numpy expression of [solve] acts elementwise on arrays of one
    shape; it is written once as a function of the values at one index and
    lifted to arrays. *)

Definition lift2 (f : R -> R -> R) (a b : ndarray) : ndarray :=
  mk_ndarray (shape a) (fun i => f (data a i) (data b i)).
Definition lift3 (f : R -> R -> R -> R) (a b c : ndarray) : ndarray :=
  mk_ndarray (shape a) (fun i => f (data a i) (data b i) (data c i)).
Definition lift6 (f : R -> R -> R -> R -> R -> R -> R)
    (a b c d e g : ndarray) : ndarray :=
  mk_ndarray (shape a)
    (fun i => f (data a i) (data b i) (data c i) (data d i) (data e i) (data g i)).

Section pointwise.
Local Open Scope R_scope.

(** Lines 134-139. *)
Definition von_mises (xx yy zz xy yz xz : R) : R :=
  sqrt (((xx - yy) ^ 2 + (yy - zz) ^ 2 + (zz - xx) ^ 2 +
         6 * (xy ^ 2 + yz ^ 2 + xz ^ 2)) / 2).

(** Lines 141-151. *)
Definition cubic_b (xx yy zz : R) : R := xx + yy + zz.

Definition cubic_c (xx yy zz xy yz xz : R) : R :=
  xx * yy + yy * zz + xx * zz - xy ^ 2 - xz ^ 2 - yz ^ 2.

Definition cubic_d (xx yy zz xy yz xz : R) : R :=
  xx * yy * zz + 2 * xy * xz * yz - xx * yz ^ 2 - yy * xz ^ 2 - zz * xy ^ 2.

(** Lines 153-154. *)
Definition cubic_p (b c : R) : R := c - (b ^ 2) / 3.
Definition cubic_q (b c d : R) : R := (2 / 27) * b ^ 3 - (1 / 3) * b * c + d.

(** Lines 162-163: [principals[i]], with the total [sqrt], [acos] and [/]
    of [R].  The value is the one numpy computes where [p < 0] and the
    argument of [arccos] is within [-1, 1]; elsewhere numpy gives NaN, see
    [principal_root_float]. *)
Definition principal_root (i : nat) (p q b : R) : R :=
  2 * sqrt ((-1 / 3) * p) *
  cos (1 / 3 * acos (3 * q / (2 * p) * sqrt (-3 / p)) - 2 * PI * INR i / 3)
  - b / 3.

(** [xp.max(principals, 0)] and [xp.min(principals, 0)] over the three rows. *)
Definition max3 (r0 r1 r2 : R) : R := Rmax (Rmax r0 r1) r2.
Definition min3 (r0 r1 r2 : R) : R := Rmin (Rmin r0 r1) r2.

(** Line 168. *)
Definition middle_by_trace (b s1 s3 : R) : R := b - s1 - s3.

(** The three values that lines 141-168 store under '1', '2' and '3', at
    one index, from the six tensor components at that index. *)
Definition principal_stresses (xx yy zz xy yz xz : R) : R * R * R :=
  let b := cubic_b xx yy zz in
  let c := cubic_c xx yy zz xy yz xz in
  let d := cubic_d xx yy zz xy yz xz in
  let p := cubic_p b c in
  let q := cubic_q b c d in
  let s1 := max3 (principal_root 0 p q b) (principal_root 1 p q b)
                 (principal_root 2 p q b) in
  let s3 := min3 (principal_root 0 p q b) (principal_root 1 p q b)
                 (principal_root 2 p q b) in
  (s1, middle_by_trace b s1 s3, s3).

End pointwise.

(** *** The closed-form solver on float64 values

    A float64 is a real number, an infinity or NaN: rounding and overflow
    stay outside the model, and the one zero takes the part of +0.0.  The
    operations are those of numpy on such values. *)

Inductive float64 := Finite (r : R) | PosInf | NegInf | NaN.


(** [a - b] *)
Definition fsub (a b : float64) : float64 :=
  match a, b with
  | NaN, _ | _, NaN => NaN
  | Finite x, Finite y => Finite (x - y)
  | PosInf, PosInf | NegInf, NegInf => NaN
  | PosInf, _ | _, NegInf => PosInf
  | NegInf, _ | _, PosInf => NegInf
  end.













(** [a += b] on arrays. *)
Definition iadd (a b : ndarray) : ndarray := lift2 Rplus a b.

(** [intermediate_results[k]] on the [defaultdict]: a missing key is
    created with [default_factory()]. *)
Definition dd_get (out_put_shape : list nat) (k : string) (d : odict ndarray)
  : ndarray * odict ndarray :=
  match od_lookup k d with
  | Some v => (v, d)
  | None => (zeros out_put_shape, od_set k (zeros out_put_shape) d)
  end.

(** Lines 157-159: [for key in intermediate_results: if key not in
    self.stress_components: del intermediate_results[key]].  The iterator
    of a dictionary compares, each time it is asked for the next key (the
    last time included), the size of the dictionary with the size it had
    when the loop started, and raises when they differ. *)
Fixpoint prune_loop (stress_components : list string) (size0 : nat)
    (keys : list string) (d : odict ndarray) : Res (odict ndarray) :=
  if negb (Nat.eqb (length d) size0)
  then inl (RuntimeError "dictionary changed size during iteration")
  else match keys with
       | [] => inr d
       | key :: rest =>
           prune_loop stress_components size0 rest
             (if tuple_in key stress_components then d else od_del key d)
       end.

(** Lines 133-139. *)
Definition von_mises_step (self : SubsurfaceStress) (out_put_shape : list nat)
    (ir : odict ndarray) : odict ndarray :=
  if tuple_in "vm" (stress_components self) then
    let '(xx, ir) := dd_get out_put_shape "xx" ir in
    let '(yy, ir) := dd_get out_put_shape "yy" ir in
    let '(zz, ir) := dd_get out_put_shape "zz" ir in
    let '(xy, ir) := dd_get out_put_shape "xy" ir in
    let '(yz, ir) := dd_get out_put_shape "yz" ir in
    let '(xz, ir) := dd_get out_put_shape "xz" ir in
    od_set "vm" (lift6 von_mises xx yy zz xy yz xz) ir
  else ir.

(** Lines 160-168: the three roots, their maximum and minimum, and the
    third value from the trace. *)
Definition store_principals (out_put_shape : list nat) (p q b : ndarray)
    (ir : odict ndarray) : odict ndarray :=
  let principals := fun i => lift3 (principal_root i) p q b in
  let ir := od_set "1" (lift3 max3 (principals 0%nat) (principals 1%nat)
                                   (principals 2%nat)) ir in
  let ir := od_set "3" (lift3 min3 (principals 0%nat) (principals 1%nat)
                                   (principals 2%nat)) ir in
  let '(v1, ir) := dd_get out_put_shape "1" ir in
  let '(v3, ir) := dd_get out_put_shape "3" ir in
  od_set "2" (lift3 middle_by_trace b v1 v3) ir.

(** Lines 140-168. *)
Definition principal_step (self : SubsurfaceStress) (out_put_shape : list nat)
    (ir : odict ndarray) : Res (odict ndarray) :=
  if tuple_in "1" (stress_components self) || tuple_in "2" (stress_components self)
     || tuple_in "3" (stress_components self) then
    let '(xx, ir) := dd_get out_put_shape "xx" ir in
    let '(yy, ir) := dd_get out_put_shape "yy" ir in
    let '(zz, ir) := dd_get out_put_shape "zz" ir in
    let b := lift3 cubic_b xx yy zz in
    let '(xy, ir) := dd_get out_put_shape "xy" ir in
    let '(xz, ir) := dd_get out_put_shape "xz" ir in
    let '(yz, ir) := dd_get out_put_shape "yz" ir in
    let c := lift6 cubic_c xx yy zz xy yz xz in
    let d := lift6 cubic_d xx yy zz xy yz xz in
    let p := lift2 cubic_p b c in
    let q := lift3 cubic_q b c d in
    match prune_loop (stress_components self) (length ir) (od_keys ir) ir with
    | inl e => inl e
    | inr ir => inr (store_principals out_put_shape p q b ir)
    end
  else inr ir.

(** Lines 170-171. *)
Fixpoint write_results (out_put_shape : list nat) (surface_num : Z)
    (keys : list string) (ir : odict ndarray)
    (current_state : gmap string ndarray) : gmap string ndarray :=
  match keys with
  | [] => current_state
  | key :: rest =>
      let '(v, ir) := dd_get out_put_shape key ir in
      write_results out_put_shape surface_num rest ir
        (<[state_key surface_num key := v]> current_state)
  end.

Definition set_cache_span (self : SubsurfaceStress) (span : list nat) :=
  {| name := name self; requires := requires self; provides := provides self;
     surfaces := surfaces self; load_components := load_components self;
     stress_components := stress_components self;
     keep_kernels := keep_kernels self;
     cuda_convolutions := cuda_convolutions self;
     _kernel_cache := _kernel_cache self;
     _cache_span := span;
     z := z self; comps_to_find := comps_to_find self;
     periodic_axes := periodic_axes self |}.

Definition set_kernel_cache (self : SubsurfaceStress)
    (cache : gmap Z (gmap string (odict conv_func))) :=
  {| name := name self; requires := requires self; provides := provides self;
     surfaces := surfaces self; load_components := load_components self;
     stress_components := stress_components self;
     keep_kernels := keep_kernels self;
     cuda_convolutions := cuda_convolutions self;
     _kernel_cache := cache;
     _cache_span := _cache_span self;
     z := z self; comps_to_find := comps_to_find self;
     periodic_axes := periodic_axes self |}.

(** What a call of [solve] leaves behind: the sub-model object and the state
    dictionary, both mutated in place, and the exception if one was raised
    ([None]: the call returned [current_state]). *)
Record Outcome := {
  out_self : SubsurfaceStress;
  out_state : gmap string ndarray;
  out_raised : option PyExc
}.

Section solve.

(** [self.model.surface_<n>]: the surfaces of the contact model the
    sub-model is attached to ([None]: the model has no such attribute). *)
Variable model_surface : Z -> option Surface.

(** [plan_multi_convolve(template, kernel, None, periodic_axes)]. *)
Variable plan_multi_convolve : ndarray -> ndarray -> bool * bool -> conv_func.

(** Lines 114-122: the influence matrices of one load direction. *)
Definition influence_matrices (self : SubsurfaceStress) (zs : list R)
    (span : list nat) (surface : Surface) (l_comp : string)
  : Res (odict ndarray) :=
  let grid_spacing := [grid_spacing surface; grid_spacing surface] in
  let args (f : sss_function) :=
    f span grid_spacing (comps_to_find self) zs (cuda_convolutions self) in
  if decide (l_comp = "z") then
    inr (args (sss_influence_matrices_normal (material surface)))
  else if decide (l_comp = "x") then
    inr (args (sss_influence_matrices_tangential_x (material surface)))
  else if decide (l_comp = "y") then
    inr (args (sss_influence_matrices_tangential_y (material surface)))
  else inl (ValueError ("Unrecognised load component requested: " ++ l_comp)).

(** Lines 126-127: record the span, then store the convolution functions. *)
Definition store_conv_funcs (self : SubsurfaceStress) (span : list nat)
    (surface_num : Z) (l_comp : string) (conv_funcs : odict conv_func)
  : SubsurfaceStress * Res (odict conv_func) :=
  let self := set_cache_span self span in
  match _kernel_cache self !! surface_num with
  | None => (self, inl (KeyError (pretty surface_num)))
  | Some by_load =>
      (set_kernel_cache self
         (<[surface_num := <[l_comp := conv_funcs]> by_load]>
            (_kernel_cache self)),
       inr conv_funcs)
  end.

(** Lines 111-127: the convolution functions of one surface and one load
    direction, from the cache or built anew. *)
Definition get_conv_funcs (self : SubsurfaceStress) (zs : list R)
    (example_loads : ndarray) (span : list nat) (surface_num : Z)
    (surface : Surface) (l_comp : string)
  : SubsurfaceStress * Res (odict conv_func) :=
  if keep_kernels self && bool_decide (span = _cache_span self) then
    match _kernel_cache self !! surface_num with
    | None => (self, inl (KeyError (pretty surface_num)))
    | Some by_load =>
        match by_load !! l_comp with
        | None => (self, inl (KeyError l_comp))
        | Some conv_funcs => (self, inr conv_funcs)
        end
    end
  else
    match influence_matrices self zs span surface l_comp with
    | inl e => (self, inl e)
    | inr im_comps =>
        let conv_funcs :=
          map (fun kv => (fst kv, plan_multi_convolve example_loads (snd kv)
                                    (periodic_axes self))) im_comps in
        if keep_kernels self then
          store_conv_funcs self span surface_num l_comp conv_funcs
        else (self, inr conv_funcs)
    end.

(** Lines 129-131. *)
Fixpoint accumulate (out_put_shape : list nat)
    (current_state : gmap string ndarray) (l_comp : string)
    (conv_funcs : odict conv_func) (ir : odict ndarray)
  : Res (odict ndarray) :=
  match conv_funcs with
  | [] => inr ir
  | (key, conv_func) :: rest =>
      match current_state !! ("loads_" ++ l_comp) with
      | None => inl (KeyError ("loads_" ++ l_comp))
      | Some loads =>
          let '(acc, ir) := dd_get out_put_shape key ir in
          accumulate out_put_shape current_state l_comp rest
            (od_set key (iadd acc (conv_func loads)) ir)
      end
  end.

(** Lines 110-131: the loop over the load components. *)
Fixpoint load_loop (self : SubsurfaceStress) (zs : list R)
    (example_loads : ndarray) (span out_put_shape : list nat)
    (current_state : gmap string ndarray) (surface_num : Z) (surface : Surface)
    (l_comps : list string) (ir : odict ndarray)
  : SubsurfaceStress * Res (odict ndarray) :=
  match l_comps with
  | [] => (self, inr ir)
  | l_comp :: rest =>
      match get_conv_funcs self zs example_loads span surface_num surface l_comp with
      | (self, inl e) => (self, inl e)
      | (self, inr conv_funcs) =>
          match accumulate out_put_shape current_state l_comp conv_funcs ir with
          | inl e => (self, inl e)
          | inr ir =>
              load_loop self zs example_loads span out_put_shape current_state
                surface_num surface rest ir
          end
      end
  end.

(** Lines 104-171: the body of the loop over the surfaces. *)
Definition solve_surface (self : SubsurfaceStress) (zs : list R)
    (example_loads : ndarray) (span out_put_shape : list nat)
    (current_state : gmap string ndarray) (surface_num : Z) : Outcome :=
  match model_surface surface_num with
  | None =>
      Build_Outcome self current_state
        (Some (AttributeError ("surface_" ++ pretty surface_num)))
  | Some surface =>
      if negb (is_IMMaterial (material surface)) then
        Build_Outcome self current_state
          (Some (AssertionError
             "Sub surface stress only valid for influence matrix based materials"))
      else
        match load_loop self zs example_loads span out_put_shape current_state
                surface_num surface (chars (load_components self)) [] with
        | (self, inl e) => Build_Outcome self current_state (Some e)
        | (self, inr ir) =>
            let ir := von_mises_step self out_put_shape ir in
            match principal_step self out_put_shape ir with
            | inl e => Build_Outcome self current_state (Some e)
            | inr ir =>
                Build_Outcome self
                  (write_results out_put_shape surface_num
                     (stress_components self) ir current_state)
                  None
            end
        end
  end.

(** Line 103: the loop over the surfaces. *)
Fixpoint solve_surfaces (self : SubsurfaceStress) (zs : list R)
    (example_loads : ndarray) (span out_put_shape : list nat)
    (current_state : gmap string ndarray) (surface_nums : list Z) : Outcome :=
  match surface_nums with
  | [] => Build_Outcome self current_state None
  | surface_num :: rest =>
      let o := solve_surface self zs example_loads span out_put_shape
                 current_state surface_num in
      match out_raised o with
      | Some e => o
      | None =>
          solve_surfaces (out_self o) zs example_loads span out_put_shape
            (out_state o) rest
      end
  end.

(** [SubsurfaceStress.solve] *)
Definition solve (self : SubsurfaceStress)
    (current_state : gmap string ndarray) : Outcome :=
  match chars (load_components self) with
  | [] => Build_Outcome self current_state
            (Some (IndexError "string index out of range"))
  | l0 :: _ =>
      match current_state !! ("loads_" ++ l0) with
      | None => Build_Outcome self current_state (Some (KeyError ("loads_" ++ l0)))
      | Some example_loads =>
          let span := shape example_loads in
          match z self with
          | None =>
              Build_Outcome self current_state
                (Some (TypeError "object of type 'NoneType' has no len()"))
          | Some zs =>
              let out_put_shape := length zs :: span in
              solve_surfaces self zs example_loads span out_put_shape
                current_state (surfaces self)
          end
      end
  end.

End solve.

(** *** Vocabulary of the statements *)

(** An influence-matrix function answers a non-empty request with at least
    one kernel. *)
Definition answers_requests (f : sss_function) : Prop :=
  forall span grid_spacing components zs cuda,
    components <> [] -> f span grid_spacing components zs cuda <> [].

Definition material_answers (m : Material) : Prop :=
  answers_requests (sss_influence_matrices_normal m) /\
  answers_requests (sss_influence_matrices_tangential_x m) /\
  answers_requests (sss_influence_matrices_tangential_y m).

Definition materials_answer (model_surface : Z -> option Surface) : Prop :=
  forall n surface, model_surface n = Some surface ->
    material_answers (material surface).

(** The invariant of the sub-model object: components are looked for
    whenever some are requested, and a cache entry stored under a load
    direction holds at least one convolution function. *)
Definition cache_filled (self : SubsurfaceStress) : Prop :=
  forall s by_load l conv_funcs,
    _kernel_cache self !! s = Some by_load ->
    by_load !! l = Some conv_funcs ->
    l ∈ chars (load_components self) ->
    comps_to_find self <> [] -> conv_funcs <> [].

Definition well_formed (self : SubsurfaceStress) : Prop :=
  (stress_components self <> [] -> comps_to_find self <> []) /\
  cache_filled self.

(** Two states of one sub-model object that differ at most in the kernel
    cache and the recorded span. *)
Definition same_configuration (self self' : SubsurfaceStress) : Prop :=
  load_components self' = load_components self /\
  stress_components self' = stress_components self /\
  comps_to_find self' = comps_to_find self /\
  surfaces self' = surfaces self /\
  z self' = z self /\
  keep_kernels self' = keep_kernels self.

(** The cache of surface [s] holds no entry under a load direction: its
    kernels have not been built. *)
Definition unbuilt (self : SubsurfaceStress) (s : Z) : Prop :=
  forall by_load l,
    _kernel_cache self !! s = Some by_load ->
    l ∈ chars (load_components self) -> by_load !! l = None.

(** The value read by [intermediate_results[k]]. *)
Definition dd_val (out_put_shape : list nat) (k : string) (d : odict ndarray)
  : ndarray :=
  fst (dd_get out_put_shape k d).

(** The array that holds, at every index, one of the three values of
    [principal_stresses] for the tensor at that index. *)
Definition principal_field (which : R * R * R -> R)
    (xx yy zz xy yz xz : ndarray) : ndarray :=
  mk_ndarray (shape xx)
    (fun i => which (principal_stresses (data xx i) (data yy i) (data zz i)
                                        (data xy i) (data yz i) (data xz i))).

(** No character of [s] is an underscore. *)
Definition underscore_free (s : string) : Prop := "_" ∉ chars s.


(** *** Collaborators used to run the sub-model on concrete inputs *)

(** Modelled from the spec: the influence-matrix functions of a material
    ([slippy.core], not among the sources) answer with one kernel per
    requested stress component; [kernel] gives the kernel array. *)
Definition keyed_sss
    (kernel : list nat -> list R -> string -> list R -> bool -> ndarray)
  : sss_function :=
  fun span grid_spacing components zs cuda =>
    map (fun c => (c, kernel span grid_spacing c zs cuda)) components.

(** An influence-matrix based material. *)
Definition im_material (normal tangential_x tangential_y : sss_function)
  : Material :=
  {| is_IMMaterial := true;
     sss_influence_matrices_normal := normal;
     sss_influence_matrices_tangential_x := tangential_x;
     sss_influence_matrices_tangential_y := tangential_y |}.

(** A contact model with [surface_1] and [surface_2]. *)
Definition two_surfaces (surface_1 surface_2 : Surface) (n : Z)
  : option Surface :=
  if decide (n = 1%Z) then Some surface_1
  else if decide (n = 2%Z) then Some surface_2
  else None.

(** A contact model whose two surfaces carry influence-matrix based
    materials; the same kernels answer all three load directions. *)
Definition example_model
    (kernel_1 kernel_2 : list nat -> list R -> string -> list R -> bool -> ndarray)
    (spacing_1 spacing_2 : R) : Z -> option Surface :=
  two_surfaces
    {| grid_spacing := spacing_1;
       material := im_material (keyed_sss kernel_1) (keyed_sss kernel_1)
                     (keyed_sss kernel_1) |}
    {| grid_spacing := spacing_2;
       material := im_material (keyed_sss kernel_2) (keyed_sss kernel_2)
                     (keyed_sss kernel_2) |}.

(** A state that holds only a 2 by 2 field of normal loads. *)
Definition loads_z_state (loads_z : list nat -> R) : gmap string ndarray :=
  {[ "loads_z" := mk_ndarray [2; 2]%nat loads_z ]}.

(** Every component that can be requested except the von Mises stress. *)
Definition tensor_and_principals : list string :=
  cauchy_components ++ ["1"; "2"; "3"].

(** An array holding the same value at every index. *)
Definition full (sh : list nat) (v : R) : ndarray := mk_ndarray sh (fun _ => v).

(** Kernels that are zero everywhere. *)
Definition zero_kernel (span : list nat) (grid_spacing : list R) (c : string)
    (zs : list R) (cuda : bool) : ndarray :=
  zeros (length zs :: span).

(** Kernels that are the same at every index: the kernel of a component
    holds the value given for that component. *)
Definition uniform_kernel (xx yy zz xy yz xz : R) (span : list nat)
    (grid_spacing : list R) (c : string) (zs : list R) (cuda : bool)
  : ndarray :=
  full (length zs :: span)
    (if decide (c = "xx") then xx else if decide (c = "yy") then yy
     else if decide (c = "zz") then zz else if decide (c = "xy") then xy
     else if decide (c = "yz") then yz else if decide (c = "xz") then xz
     else 0%R).

(** A planner whose convolution functions answer every load field with the
    kernel they were planned for: the response of the material is then the
    kernel itself. *)
Definition kernel_as_response (template kernel : ndarray)
    (periodic_axes : bool * bool) : conv_func :=
  fun _ => kernel.

(** A contact model whose two surfaces have kernels that are zero
    everywhere, and one whose kernels are uniform. *)
Definition zero_model : Z -> option Surface :=
  example_model zero_kernel zero_kernel 1 1.

Definition uniform_model : Z -> option Surface :=
  example_model (uniform_kernel 3 2 1 0 0 0) (uniform_kernel 3 2 1 0 0 0) 1 1.

(** A state that holds a unit normal load everywhere. *)
Definition unit_loads : gmap string ndarray := loads_z_state (fun _ => 1%R).

(** A sub-model for the component 'xx' of two surfaces under normal loads
    that keeps its kernels or not. *)
Definition xx_of_two_surfaces (keep_kernels : bool) : SubsurfaceStress :=
  make (Some [0%R]) [1; 2]%Z "sub_surface_stress" (false, false) "z" ["xx"]
    keep_kernels false.

(** The same for surface 1 alone. *)
Definition xx_of_one_surface (keep_kernels : bool) : SubsurfaceStress :=
  make (Some [0%R]) [1]%Z "sub_surface_stress" (false, false) "z" ["xx"]
    keep_kernels false.

(** A sub-model for the principal stress '1' of one surface. *)
Definition principal_only : SubsurfaceStress :=
  make (Some [0%R]) [1]%Z "sub_surface_stress" (false, false) "z" ["1"]
    true false.


(** A sub-model for the six tensor components and the von Mises stress of
    two surfaces. *)
Definition tensor_and_von_mises : SubsurfaceStress :=
  make (Some [0%R]) [1; 2]%Z "sub_surface_stress" (false, false) "z"
    (cauchy_components ++ ["vm"]) false false.

(** *** Vocabulary of the further properties *)


(** The declared [provides] set is the one [__init__] forms from the
    surfaces and the stress components of the object. *)
Definition declares_its_outputs (self : SubsurfaceStress) : Prop :=
  provides self
  = py_set (provided_keys (surfaces self) (stress_components self)).

(** Every array of the dictionary has the shape [sh].  ([a += b] keeps the
    shape of [a]; the error numpy raises when [b] cannot be broadcast to
    it is outside the model.) *)
Definition shaped (sh : list nat) (ir : odict ndarray) : Prop :=
  forall k v, od_lookup k ir = Some v -> shape v = sh.

(** Two sub-model objects with the same settings; they may differ in
    [keep_kernels], in the kernel cache and in the recorded span. *)
Definition same_settings (a b : SubsurfaceStress) : Prop :=
  load_components a = load_components b /\
  stress_components a = stress_components b /\
  surfaces a = surfaces b /\
  z a = z b.

(** Two sub-model objects that ask the materials and the planner for the
    same kernels. *)
Definition same_requests (a b : SubsurfaceStress) : Prop :=
  comps_to_find a = comps_to_find b /\
  cuda_convolutions a = cuda_convolutions b /\
  periodic_axes a = periodic_axes b.

(** The value written for surface [n] under 'vm' is, at every index, the
    von Mises stress of the values written for that surface under the six
    tensor components. *)
Definition von_mises_written (st : gmap string ndarray) (n : Z) : Prop :=
  exists vm xx yy zz xy yz xz : ndarray,
    st !! state_key n "vm" = Some vm /\
    st !! state_key n "xx" = Some xx /\ st !! state_key n "yy" = Some yy /\
    st !! state_key n "zz" = Some zz /\ st !! state_key n "xy" = Some xy /\
    st !! state_key n "yz" = Some yz /\ st !! state_key n "xz" = Some xz /\
    forall i, data vm i = von_mises (data xx i) (data yy i) (data zz i)
                            (data xy i) (data yz i) (data xz i).

(** Every load direction of the object is one the check of lines 69-71
    lets through. *)
Definition directions_checked (self : SubsurfaceStress) : Prop :=
  forall l, l ∈ chars (load_components self) -> l = "x" \/ l = "z".

(** Two surfaces that differ at most in the influence matrices for
    tangential loads along y. *)
Definition same_but_tangential_y (s s' : Surface) : Prop :=
  grid_spacing s = grid_spacing s' /\
  is_IMMaterial (material s) = is_IMMaterial (material s') /\
  sss_influence_matrices_normal (material s)
  = sss_influence_matrices_normal (material s') /\
  sss_influence_matrices_tangential_x (material s)
  = sss_influence_matrices_tangential_x (material s').

(** Two contact models with the same surface numbers whose surfaces differ
    at most in the influence matrices for tangential loads along y. *)
Definition models_same_but_tangential_y (m m' : Z -> option Surface) : Prop :=
  forall n,
    match m n, m' n with
    | Some s, Some s' => same_but_tangential_y s s'
    | None, None => True
    | _, _ => False
    end.

(** The declared [requires] set is the one [__init__] forms from the load
    directions of the object. *)
Definition declares_its_inputs (self : SubsurfaceStress) : Prop :=
  requires self
  = py_set (map (fun c => "loads_" ++ c) (chars (load_components self))).

(** The kernel cache has an entry for each surface of the object. *)
Definition cache_covers_surfaces (self : SubsurfaceStress) : Prop :=
  forall n, n ∈ surfaces self -> is_Some (_kernel_cache self !! n).

(** [self'] differs from [self] at most in the recorded span and in the
    kernel cache, which has lost no surface. *)
Definition cache_update (self self' : SubsurfaceStress) : Prop :=
  self' = set_kernel_cache (set_cache_span self (_cache_span self'))
            (_kernel_cache self') /\
  forall n, is_Some (_kernel_cache self !! n) ->
            is_Some (_kernel_cache self' !! n).

(** The part of the stress component [sc] of a surface, at index [i],
    that is due to the loads along [l]: the loads convolved with every
    kernel that the material returns under the key [sc]. *)
Definition response
    (plan_multi_convolve : ndarray -> ndarray -> bool * bool -> conv_func)
    (self : SubsurfaceStress) (zs : list R) (example_loads : ndarray)
    (surface : Surface) (current_state : gmap string ndarray) (sc : string)
    (i : list nat) (l : string) : R :=
  match influence_matrices self zs (shape example_loads) surface l,
        current_state !! ("loads_" ++ l) with
  | inr im_comps, Some loads =>
      foldr (fun kv acc =>
               if decide (kv.1 = sc)
               then (data (plan_multi_convolve example_loads kv.2
                             (periodic_axes self) loads) i + acc)%R
               else acc) 0%R im_comps
  | _, _ => 0%R
  end.

(** The responses to the loads along every direction of the object, added
    up. *)
Definition superposed
    (plan_multi_convolve : ndarray -> ndarray -> bool * bool -> conv_func)
    (self : SubsurfaceStress) (zs : list R) (example_loads : ndarray)
    (surface : Surface) (current_state : gmap string ndarray) (sc : string)
    (i : list nat) : R :=
  foldr (fun l acc =>
           (response plan_multi_convolve self zs example_loads surface
              current_state sc i l + acc)%R)
    0%R (chars (load_components self)).

(** Two contact models with the same surface numbers whose surfaces agree
    on being influence-matrix based; the kernels may differ. *)
Definition same_kinds_of_material (m m' : Z -> option Surface) : Prop :=
  forall n,
    match m n, m' n with
    | Some s, Some s' =>
        is_IMMaterial (material s) = is_IMMaterial (material s')
    | None, None => True
    | _, _ => False
    end.

(** The states [st] and [st'], reached from [st0] and [st0'], have
    received the same writes: at each key they hold the same value, or each
    holds what it held at the start. *)
Definition same_writes (st0 st0' st st' : gmap string ndarray) : Prop :=
  forall k, st !! k = st' !! k \/
            (st !! k = st0 !! k /\ st' !! k = st0' !! k).

(** The exception classes raised by the statements of [solve] itself when
    the load directions have passed the check of the constructor. *)
Definition solve_exception_classes : list string :=
  ["IndexError"; "KeyError"; "TypeError"; "AttributeError"; "AssertionError";
   "RuntimeError"].

End SubSurfaceStress.

Module ShiftSurface.

(** The fields set by [__init__].  The base class [_TransientSubModelABC]
    is not among the sources; its constructor is given, in this order, the
    name, the [requires] set, the [provides] set, the transient values,
    their names and the interpolation mode, which are kept as fields. *)
Record UpdateShiftRollingSurface := {
  name : string;
  requires : gset string;
  provides : gset string;
  transient_values : R * R;
  transient_names : string * string;
  interpolation_mode : string;
  _surface_to_roll : Z
}.

(** [UpdateShiftRollingSurface.__init__] *)
Definition __init__ (name : string) (surface_to_roll : Z) (speed_x speed_y : R)
    (interpolation_mode : string) : Res UpdateShiftRollingSurface :=
  let requires := py_set (chars "time_step") in
  let provides := py_set [] in
  if negb (bool_decide (surface_to_roll ∈ ({[1%Z; 2%Z]} : gset Z))) then
    inl (ValueError ("Surface to roll should be either 1 or 2, got " ++
                     pretty surface_to_roll))
  else
    inr {| name := name; requires := requires; provides := provides;
           transient_values := (speed_x, speed_y);
           transient_names := (name ++ "_shift_speed_x", name ++ "_shift_speed_y");
           interpolation_mode := interpolation_mode;
           _surface_to_roll := surface_to_roll |}.

Section solve.

(** The rolling surfaces of the model and [surface.shift(dy, dx)], which
    moves a surface in place. *)
Variable RollingSurface : Type.
Variable shift : RollingSurface -> R -> R -> RollingSurface.

Record ContactModel := { surface_1 : RollingSurface; surface_2 : RollingSurface }.

(** What a call of [_solve] leaves behind: the contact model, the state
    dictionary and the exception if one was raised ([None]: the call
    returned [current_state]). *)
Record Outcome := {
  out_model : ContactModel;
  out_state : gmap string R;
  out_raised : option PyExc
}.

(** [UpdateShiftRollingSurface._solve] *)
Definition _solve (self : UpdateShiftRollingSurface) (model : ContactModel)
    (current_state : gmap string R) (kwargs : gmap string R) : Outcome :=
  match kwargs !! (name self ++ "_shift_speed_x") with
  | None => Build_Outcome model current_state
              (Some (KeyError (name self ++ "_shift_speed_x")))
  | Some speed_x =>
    match current_state !! "time_step" with
    | None => Build_Outcome model current_state (Some (KeyError "time_step"))
    | Some time_step =>
      let distance_x := (speed_x * time_step)%R in
      match kwargs !! (name self ++ "_shift_speed_y") with
      | None => Build_Outcome model current_state
                  (Some (KeyError (name self ++ "_shift_speed_y")))
      | Some speed_y =>
        let distance_y := (speed_y * time_step)%R in
        if decide (_surface_to_roll self = 1%Z) then
          Build_Outcome
            {| surface_1 := shift (surface_1 model) distance_y distance_x;
               surface_2 := surface_2 model |}
            current_state None
        else Build_Outcome model current_state None
      end
    end
  end.

End solve.

Arguments _solve {RollingSurface} shift self model current_state kwargs.
Arguments surface_1 {RollingSurface} c.
Arguments surface_2 {RollingSurface} c.
Arguments out_model {RollingSurface} o.
Arguments out_state {RollingSurface} o.
Arguments out_raised {RollingSurface} o.

(** A stand-in for a rolling surface: its offset (y, x); shifting adds
    the distances to it. *)
Definition offset_surface : Type := R * R.

Definition shift_offset (s : offset_surface) (distance_y distance_x : R)
  : offset_surface :=
  (s.1 + distance_y, s.2 + distance_x)%R.

End ShiftSurface.

(** A decidable statement without variables, settled by running its
    decision procedure. *)
Ltac decide_by_running :=
  apply (bool_decide_unpack _); vm_compute; exact I.

(** * Dictionaries *)

Section dictionaries.
Import SubSurfaceStress.

Lemma od_lookup_set_eq {V} (k : string) (v : V) (d : odict V) :
  od_lookup k (od_set k v d) = Some v.
Proof.
  induction d as [|[k' v'] d IH]; cbn.
  - by rewrite decide_True.
  - destruct (decide (k = k')) as [->|Hne]; cbn.
    + by rewrite decide_True.
    + by rewrite decide_False.
Qed.

Lemma od_lookup_set_ne {V} (k k' : string) (v : V) (d : odict V) :
  k <> k' -> od_lookup k' (od_set k v d) = od_lookup k' d.
Proof.
  intros Hne. induction d as [|[k0 v0] d IH]; cbn.
  - rewrite decide_False; [done | congruence].
  - destruct (decide (k = k0)) as [->|Hk]; cbn.
    + rewrite !decide_False; [done | congruence | congruence].
    + destruct (decide (k' = k0)); [done | apply IH].
Qed.

Lemma od_del_same_length {V} (k : string) (d : odict V) :
  length (od_del k d) = length d -> od_del k d = d.
Proof.
  induction d as [|[k' v'] d IH]; cbn; [done|].
  destruct (decide (k = k')); cbn.
  - lia.
  - intros [= H]. by rewrite IH.
Qed.

Lemma prune_loop_keeps (scs : list string) (n : nat) (keys : list string)
    (d d' : odict ndarray) :
  prune_loop scs n keys d = inr d' -> d' = d.
Proof.
  revert d. induction keys as [|key keys IH]; intros d; cbn.
  - destruct (negb (length d =? n)%nat); [discriminate | congruence].
  - destruct (negb (length d =? n)%nat) eqn:Hd; [discriminate|].
    intros H. pose proof H as H'. apply IH in H'. subst d'.
    destruct (tuple_in key scs); [done|].
    destruct keys; cbn in H;
      destruct (negb (length (od_del key d) =? n)%nat) eqn:Hd'; try discriminate;
      apply negb_false_iff, Nat.eqb_eq in Hd, Hd';
      apply od_del_same_length; lia.
Qed.

Lemma dd_val_lookup (sh : list nat) (k : string) (d : odict ndarray) :
  dd_val sh k d = default (zeros sh) (od_lookup k d).
Proof. unfold dd_val, dd_get. by destruct (od_lookup k d). Qed.

Lemma dd_get_spec (sh : list nat) (k : string) (d d' : odict ndarray) (v : ndarray) :
  dd_get sh k d = (v, d') ->
  v = dd_val sh k d /\ od_lookup k d' = Some v /\
  (forall k', k <> k' -> od_lookup k' d' = od_lookup k' d).
Proof.
  unfold dd_val, dd_get. destruct (od_lookup k d) eqn:E; intros [= <- <-]; cbn.
  - done.
  - split; [done|]. split; [apply od_lookup_set_eq|].
    intros k' Hne. by apply od_lookup_set_ne.
Qed.

Lemma dd_get_present (sh : list nat) (k : string) (d : odict ndarray) (v : ndarray) :
  od_lookup k d = Some v -> dd_get sh k d = (v, d).
Proof. unfold dd_get. by intros ->. Qed.

End dictionaries.

(** * State keys *)

Section state_keys.
Import SubSurfaceStress.

Lemma underscore_free_cons (a : Ascii.ascii) (s : string) :
  underscore_free (String a s) <-> a <> "_"%char /\ underscore_free s.
Proof.
  unfold underscore_free. cbn. rewrite not_elem_of_cons.
  split; intros [Ha Hs]; (split; [|done]); congruence.
Qed.

Lemma pretty_N_char_no_underscore (x : N) : pretty_N_char x <> "_"%char.
Proof. unfold pretty_N_char. by repeat case_match. Qed.

Lemma pretty_N_go_underscore_free (x : N) (s : string) :
  underscore_free s -> underscore_free (pretty_N_go x s).
Proof.
  revert s. induction (N.lt_wf_0 x) as [x _ IH]; intros s Hs.
  destruct (decide (x = 0)%N) as [->|Hx]; [by rewrite pretty_N_go_0|].
  rewrite pretty_N_go_step by lia. apply IH.
  - apply N.div_lt; lia.
  - apply underscore_free_cons. split; [apply pretty_N_char_no_underscore | done].
Qed.

Lemma underscore_free_empty : underscore_free "".
Proof. apply not_elem_of_nil. Qed.

Lemma pretty_N_underscore_free (x : N) : underscore_free (pretty x).
Proof.
  unfold pretty, pretty_N. case_decide.
  - apply underscore_free_cons. split; [done | apply underscore_free_empty].
  - apply pretty_N_go_underscore_free, underscore_free_empty.
Qed.

Lemma pretty_Z_underscore_free (n : Z) : underscore_free (pretty n).
Proof.
  unfold pretty, pretty_Z. destruct n as [|p|p].
  - apply underscore_free_cons. split; [done | apply underscore_free_empty].
  - apply pretty_N_underscore_free.
  - apply underscore_free_cons. split; [done | apply pretty_N_underscore_free].
Qed.

Lemma split_at_underscore (a a' b b' : string) :
  underscore_free a -> underscore_free a' ->
  a ++ "_" ++ b = a' ++ "_" ++ b' -> a = a' /\ b = b'.
Proof.
  revert a'. induction a as [|c a IH]; intros [|c' a'] Ha Ha' H;
    cbv [String.append] in H; fold String.append in H.
  - by injection H as ->.
  - injection H as <- _. by apply underscore_free_cons in Ha' as [Hc _].
  - injection H as -> _. by apply underscore_free_cons in Ha as [Hc _].
  - injection H as -> Hrest.
    apply underscore_free_cons in Ha as [_ Ha].
    apply underscore_free_cons in Ha' as [_ Ha'].
    by destruct (IH a' Ha Ha' Hrest) as [-> ->].
Qed.

Lemma state_key_inj (n n' : Z) (k k' : string) :
  state_key n k = state_key n' k' -> n = n' /\ k = k'.
Proof.
  unfold state_key. intros H. apply (inj (String.append "surface_")) in H.
  apply split_at_underscore in H as [Hn Hk];
    [|apply pretty_Z_underscore_free..].
  split; [by apply (inj pretty) | done].
Qed.

End state_keys.

(** * Construction of [SubsurfaceStress] *)

Section construction.
Import SubSurfaceStress.

Lemma check_load_components_ok (ls : list string) :
  check_load_components ls = inr tt ->
  forall l, l ∈ ls -> str_in l "xz" = true.
Proof.
  induction ls as [|l0 ls IH]; cbn; intros Hok l Hl.
  - by apply elem_of_nil in Hl.
  - destruct (str_in l0 "xz") eqn:H0; [|discriminate].
    apply elem_of_cons in Hl as [->|Hl]; auto.
Qed.

Lemma check_stress_components_ok (scs : list string) :
  check_stress_components scs = inr tt ->
  forall sc, sc ∈ scs -> sc ∈ valid_stresses.
Proof.
  induction scs as [|sc0 scs IH]; cbn; intros Hok sc Hsc.
  - by apply elem_of_nil in Hsc.
  - destruct (tuple_in sc0 valid_stresses) eqn:H0; [|discriminate].
    apply elem_of_cons in Hsc as [->|Hsc]; auto.
    by apply bool_decide_eq_true_1 in H0.
Qed.

Lemma chars_single (s l : string) :
  l ∈ chars s -> exists a, l = String a EmptyString.
Proof.
  induction s as [|a s IH]; cbn; intros Hl.
  - by apply elem_of_nil in Hl.
  - apply elem_of_cons in Hl as [->|Hl]; eauto.
Qed.

(** A load direction that passes the check of [__init__] is not the name
    of a stress component. *)
Lemma load_direction_is_no_stress (a : Ascii.ascii) :
  str_in (String a EmptyString) "xz" = true ->
  String a EmptyString ∉ valid_stresses.
Proof.
  intros Hin Hvalid.
  assert (Hlen : forall s, s ∈ valid_stresses -> String.length s = 2%nat \/
                                                 s = "1" \/ s = "2" \/ s = "3").
  { intros s Hs. unfold valid_stresses in Hs.
    repeat (apply elem_of_cons in Hs as [->|Hs]; [auto|]).
    by apply elem_of_nil in Hs. }
  destruct (Hlen _ Hvalid) as [Hl|[H1|[H2|H3]]]; [discriminate| | |];
    [injection H1 as -> | injection H2 as -> | injection H3 as ->];
    vm_compute in Hin; discriminate.
Qed.

Lemma initial_cache_lookup (surface : list Z) (scs : list string) (s : Z)
    (by_load : gmap string (odict conv_func)) (l : string) (cf : odict conv_func) :
  initial_cache surface scs !! s = Some by_load -> by_load !! l = Some cf ->
  l ∈ scs.
Proof.
  unfold initial_cache. intros Hs Hl.
  apply elem_of_list_to_map_2 in Hs.
  apply list_elem_of_fmap in Hs as (s' & [= -> ->] & _).
  apply elem_of_list_to_map_2 in Hl.
  by apply list_elem_of_fmap in Hl as (a & [= -> ->] & Ha).
Qed.

(** The constructor establishes the invariant. *)
Lemma init_well_formed (zs : option (list R)) (surface : int_or_seq)
    (name : string) (periodic_axes : bool * bool) (load_components : string)
    (stress_components : str_or_seq) (keep_kernels cuda_convolutions : bool)
    (self : SubsurfaceStress) :
  __init__ zs surface name periodic_axes load_components stress_components
       keep_kernels cuda_convolutions = inr self ->
  well_formed self.
Proof.
  unfold __init__.
  destruct (check_load_components (chars load_components)) as [e|[]] eqn:Hlc;
    [discriminate|].
  destruct (check_stress_components (component_seq stress_components))
    as [e|[]] eqn:Hsc; [discriminate|].
  intros [= <-]. split.
  - unfold make; cbn [SubSurfaceStress.stress_components comps_to_find].
    by case_match.
  - intros s by_load l cf Hs Hl Hin _.
    unfold make in Hs, Hin; cbn [_kernel_cache SubSurfaceStress.load_components] in Hs, Hin.
    eapply initial_cache_lookup in Hl; [|exact Hs].
    eapply check_stress_components_ok in Hl; [|exact Hsc].
    pose proof (check_load_components_ok _ Hlc _ Hin) as Hdir.
    apply chars_single in Hin as (a & ->).
    by destruct (load_direction_is_no_stress a).
Qed.

Lemma keyed_sss_answers
    (kernel : list nat -> list R -> string -> list R -> bool -> ndarray) :
  answers_requests (keyed_sss kernel).
Proof.
  intros span gs comps zs cuda Hc Hnil. unfold keyed_sss in Hnil.
  by apply map_eq_nil in Hnil.
Qed.

Lemma example_model_answers
    (kernel_1 kernel_2 : list nat -> list R -> string -> list R -> bool -> ndarray)
    (spacing_1 spacing_2 : R) :
  materials_answer (example_model kernel_1 kernel_2 spacing_1 spacing_2).
Proof.
  intros n surface. unfold example_model, two_surfaces.
  repeat case_decide; intros [= <-]; repeat split; apply keyed_sss_answers.
Qed.

End construction.

(** * The closed-form roots *)

Section eigen_solver.
Import SubSurfaceStress.
Local Open Scope R_scope.





Lemma roots_of_diag_3_2_1 :
  let b := cubic_b 3 2 1 in
  let c := cubic_c 3 2 1 0 0 0 in
  let d := cubic_d 3 2 1 0 0 0 in
  let p := cubic_p b c in
  let q := cubic_q b c d in
  principal_root 0 p q b = -1 /\ principal_root 1 p q b = -2 /\
  principal_root 2 p q b = -3.
Proof.
  intros b c d p q.
  assert (Hb : b = 6) by (unfold b, cubic_b; lra).
  assert (Hp : p = -1) by (unfold p, cubic_p, b, c, cubic_b, cubic_c; lra).
  assert (Hq : q = 0) by (unfold q, cubic_q, b, c, d, cubic_b, cubic_c, cubic_d; lra).
  rewrite Hb, Hp, Hq. unfold principal_root.
  replace (3 * 0 / (2 * -1) * sqrt (-3 / -1)) with 0 by (unfold Rdiv; ring).
  rewrite acos_0.
  replace (-1 / 3 * -1) with (/ 3) by field.
  assert (Hs : sqrt (/ 3) * sqrt 3 = 1).
  { rewrite <- sqrt_mult by lra. replace (/ 3 * 3) with 1 by field. apply sqrt_1. }
  cbn [INR]. repeat split.
  - replace (1 / 3 * (PI / 2) - 2 * PI * 0 / 3) with (PI / 6) by field.
    rewrite cos_PI6. 
    replace (2 * sqrt (/ 3) * (sqrt 3 / 2)) with (sqrt (/ 3) * sqrt 3) by field.
    rewrite Hs. lra.
  - replace (1 / 3 * (PI / 2) - 2 * PI * 1 / 3) with (- (PI / 2)) by field.
    rewrite cos_neg, cos_PI2. lra.
  - replace (1 / 3 * (PI / 2) - 2 * PI * (1 + 1) / 3) with (- (PI / 6 + PI)) by field.
    rewrite cos_neg, neg_cos, cos_PI6.
    replace (2 * sqrt (/ 3) * - (sqrt 3 / 2)) with (- (sqrt (/ 3) * sqrt 3)) by field.
    rewrite Hs. lra.
Qed.

Lemma principal_stresses_of_diag_3_2_1 :
  principal_stresses 3 2 1 0 0 0 = (-1, 10, -3).
Proof.
  unfold principal_stresses.
  destruct roots_of_diag_3_2_1 as (H0 & H1 & H2).
  cbv zeta in H0, H1, H2. rewrite H0, H1, H2.
  unfold max3, min3, middle_by_trace, cubic_b.
  rewrite (Rmax_left (-1) (-2)) by lra. rewrite (Rmax_left (-1) (-3)) by lra.
  rewrite (Rmin_right (-1) (-2)) by lra. rewrite (Rmin_right (-2) (-3)) by lra.
  apply pair_equal_spec; split; [apply pair_equal_spec; split|]; lra.
Qed.

End eigen_solver.

(** * The principal-stress step *)

Section principal_step_facts.
Import SubSurfaceStress.

Ltac read_component E :=
  apply dd_get_spec in E; destruct E as (? & ? & ?).

Ltac chase_lookup :=
  repeat match goal with
         | H : forall k', _ <> k' -> od_lookup k' ?d = _
           |- context [od_lookup ?k ?d] => rewrite (H k) by done
         end.

Lemma dd_val_ext (sh : list nat) (k : string) (d d' : odict ndarray) :
  od_lookup k d = od_lookup k d' -> dd_val sh k d = dd_val sh k d'.
Proof. intros H. by rewrite !dd_val_lookup, H. Qed.

Lemma store_principals_spec (sh : list nat) (p q b : ndarray) (ir : odict ndarray) :
  let roots := fun i => lift3 (principal_root i) p q b in
  let s1 := lift3 max3 (roots 0%nat) (roots 1%nat) (roots 2%nat) in
  let s3 := lift3 min3 (roots 0%nat) (roots 1%nat) (roots 2%nat) in
  let ir' := store_principals sh p q b ir in
  od_lookup "1" ir' = Some s1 /\
  od_lookup "2" ir' = Some (lift3 middle_by_trace b s1 s3) /\
  od_lookup "3" ir' = Some s3 /\
  (forall k, k <> "1" -> k <> "2" -> k <> "3" -> od_lookup k ir' = od_lookup k ir).
Proof.
  intros roots s1 s3. unfold store_principals. fold roots. fold s1. fold s3.
  cbv zeta.
  rewrite (dd_get_present sh "1" _ s1)
    by (rewrite od_lookup_set_ne by done; apply od_lookup_set_eq).
  rewrite (dd_get_present sh "3" _ s3) by apply od_lookup_set_eq.
  repeat split.
  - rewrite !od_lookup_set_ne by done. apply od_lookup_set_eq.
  - apply od_lookup_set_eq.
  - rewrite od_lookup_set_ne by done. apply od_lookup_set_eq.
  - intros k H1 H2 H3. rewrite !od_lookup_set_ne by done. reflexivity.
Qed.

Lemma principal_step_spec (self : SubsurfaceStress) (sh : list nat)
    (ir ir' : odict ndarray) :
  tuple_in "1" (stress_components self) || tuple_in "2" (stress_components self)
    || tuple_in "3" (stress_components self) = true ->
  principal_step self sh ir = inr ir' ->
  let xx := dd_val sh "xx" ir in
  let yy := dd_val sh "yy" ir in
  let zz := dd_val sh "zz" ir in
  let xy := dd_val sh "xy" ir in
  let yz := dd_val sh "yz" ir in
  let xz := dd_val sh "xz" ir in
  od_lookup "1" ir' = Some (principal_field (fun t => t.1.1) xx yy zz xy yz xz) /\
  od_lookup "2" ir' = Some (principal_field (fun t => t.1.2) xx yy zz xy yz xz) /\
  od_lookup "3" ir' = Some (principal_field (fun t => t.2) xx yy zz xy yz xz) /\
  od_lookup "xx" ir' = Some xx /\ od_lookup "yy" ir' = Some yy /\
  od_lookup "zz" ir' = Some zz.
Proof.
  intros Hreq. unfold principal_step. rewrite Hreq.
  destruct (dd_get sh "xx" ir) as [xx ir1] eqn:Exx.
  destruct (dd_get sh "yy" ir1) as [yy ir2] eqn:Eyy.
  destruct (dd_get sh "zz" ir2) as [zz ir3] eqn:Ezz.
  destruct (dd_get sh "xy" ir3) as [xy ir4] eqn:Exy.
  destruct (dd_get sh "xz" ir4) as [xz ir5] eqn:Exz.
  destruct (dd_get sh "yz" ir5) as [yz ir6] eqn:Eyz.
  destruct (prune_loop _ _ _ ir6) as [e|kept] eqn:Hprune; [discriminate|].
  apply prune_loop_keeps in Hprune. subst kept.
  intros [= <-].
  read_component Exx. read_component Eyy. read_component Ezz.
  read_component Exy. read_component Exz. read_component Eyz.
  assert (Hyy : yy = dd_val sh "yy" ir)
    by (subst yy; apply dd_val_ext; chase_lookup; reflexivity).
  assert (Hzz : zz = dd_val sh "zz" ir)
    by (subst zz; apply dd_val_ext; chase_lookup; reflexivity).
  assert (Hxy : xy = dd_val sh "xy" ir)
    by (subst xy; apply dd_val_ext; chase_lookup; reflexivity).
  assert (Hxz : xz = dd_val sh "xz" ir)
    by (subst xz; apply dd_val_ext; chase_lookup; reflexivity).
  assert (Hyz : yz = dd_val sh "yz" ir)
    by (subst yz; apply dd_val_ext; chase_lookup; reflexivity).
  match goal with |- context [store_principals sh ?p ?q ?b ir6] =>
    destruct (store_principals_spec sh p q b ir6) as (S1 & S2 & S3 & Sother)
  end.
  cbv zeta. rewrite S1, S2, S3, !Sother by done.
  rewrite <- Hyy, <- Hzz, <- Hxy, <- Hxz, <- Hyz.
  match goal with H : xx = dd_val sh "xx" ir |- _ => rewrite <- H end.
  repeat split; try reflexivity; chase_lookup; assumption.
Qed.

Lemma prune_loop_all_requested (scs keys : list string) (d : odict ndarray) :
  forallb (fun k => tuple_in k scs) keys = true ->
  prune_loop scs (length d) keys d = inr d.
Proof.
  induction keys as [|key keys IH]; cbn; rewrite Nat.eqb_refl; cbn; [done|].
  intros [Hkey Hkeys]%andb_true_iff. rewrite Hkey. apply IH, Hkeys.
Qed.


End principal_step_facts.

(** * The kernel cache and missing load fields *)

Section missing_loads.
Import SubSurfaceStress.

Variable model_surface : Z -> option Surface.
Variable plan_multi_convolve : ndarray -> ndarray -> bool * bool -> conv_func.

Lemma same_configuration_refl (self : SubsurfaceStress) :
  same_configuration self self.
Proof. by repeat split. Qed.

Lemma same_configuration_trans (a b c : SubsurfaceStress) :
  same_configuration a b -> same_configuration b c -> same_configuration a c.
Proof.
  intros (?&?&?&?&?&?) (?&?&?&?&?&?). repeat split; congruence.
Qed.

Lemma accumulate_missing (sh : list nat) (st : gmap string ndarray)
    (l : string) (cf : odict conv_func) (ir : odict ndarray) :
  st !! ("loads_" ++ l) = None -> cf <> [] ->
  accumulate sh st l cf ir = inl (KeyError ("loads_" ++ l)).
Proof. destruct cf as [|[k f] cf]; [done|]. cbn. by intros ->. Qed.

Lemma influence_matrices_answer (self : SubsurfaceStress) (zs : list R)
    (span : list nat) (surface : Surface) (l : string) (im : odict ndarray) :
  material_answers (material surface) ->
  comps_to_find self <> [] ->
  influence_matrices self zs span surface l = inr im -> im <> [].
Proof.
  intros (Hn & Hx & Hy) Hc. unfold influence_matrices.
  repeat case_decide; intros [= <-]; [by apply Hn | by apply Hx | by apply Hy].
Qed.

Lemma store_conv_funcs_inv (self self' : SubsurfaceStress) (span : list nat)
    (n : Z) (l : string) (cf : odict conv_func) (r : Res (odict conv_func)) :
  (comps_to_find self <> [] -> cf <> []) ->
  store_conv_funcs self span n l cf = (self', r) ->
  same_configuration self self' /\
  (cache_filled self -> cache_filled self') /\
  (forall cf', r = inr cf' -> cf' = cf).
Proof.
  intros Hcf. unfold store_conv_funcs. cbn [_kernel_cache set_cache_span].
  destruct (_kernel_cache self !! n) as [by_load|] eqn:Hs; intros [= <- <-].
  - split; [by repeat split|]. split; [|by intros ? [= <-]].
    intros Hfill s by_load' l' cf' Hs' Hl' Hin Hc. cbn in Hs', Hin, Hc.
    destruct (decide (n = s)) as [->|Hns].
    + rewrite lookup_insert_eq in Hs'. injection Hs' as <-.
      destruct (decide (l = l')) as [->|Hll].
      * rewrite lookup_insert_eq in Hl'. injection Hl' as <-. by apply Hcf.
      * rewrite lookup_insert_ne in Hl' by done. by eapply Hfill.
    + rewrite lookup_insert_ne in Hs' by done. by eapply Hfill.
  - split; [by repeat split|]. split; [done | by intros ? [=]].
Qed.

Lemma get_conv_funcs_inv (self self' : SubsurfaceStress) (zs : list R)
    (ex : ndarray) (span : list nat) (n : Z) (surface : Surface) (l : string)
    (r : Res (odict conv_func)) :
  material_answers (material surface) ->
  l ∈ chars (load_components self) ->
  get_conv_funcs plan_multi_convolve self zs ex span n surface l = (self', r) ->
  same_configuration self self' /\
  (cache_filled self -> cache_filled self') /\
  (cache_filled self -> comps_to_find self <> [] ->
   forall cf, r = inr cf -> cf <> []).
Proof.
  intros Hmat Hl. unfold get_conv_funcs.
  destruct (keep_kernels self && bool_decide (span = _cache_span self)).
  - destruct (_kernel_cache self !! n) as [by_load|] eqn:Hs.
    + destruct (by_load !! l) as [cf|] eqn:Hcf; intros [= <- <-];
        (split; [apply same_configuration_refl|]); (split; [done|]);
        intros Hfill Hcomps cf' [= <-].
      by eapply Hfill.
    + intros [= <- <-]. split; [apply same_configuration_refl|]. by split.
  - destruct (influence_matrices self zs span surface l) as [e|im] eqn:Him.
    + intros [= <- <-]. split; [apply same_configuration_refl|].
      split; [done|]. intros _ _ cf [=].
    + cbv zeta. set (built := map _ im).
      assert (Hne : comps_to_find self <> [] -> built <> []).
      { intros Hc Hb. apply map_eq_nil in Hb.
        by eapply influence_matrices_answer. }
      destruct (keep_kernels self).
      * intros Hstore. apply store_conv_funcs_inv in Hstore; [|exact Hne].
        destruct Hstore as (Hsame & Hfill & Hr).
        split; [exact Hsame|]. split; [exact Hfill|].
        intros _ Hc cf ->%Hr. by apply Hne.
      * intros [= <- <-]. split; [apply same_configuration_refl|].
        split; [done|]. intros _ Hc cf [= <-]. by apply Hne.
Qed.

Lemma load_loop_inv (self self' : SubsurfaceStress) (zs : list R)
    (ex : ndarray) (span sh : list nat) (st : gmap string ndarray) (n : Z)
    (surface : Surface) (l_comps : list string) (ir : odict ndarray)
    (r : Res (odict ndarray)) :
  material_answers (material surface) ->
  l_comps ⊆ chars (load_components self) ->
  load_loop plan_multi_convolve self zs ex span sh st n surface l_comps ir
    = (self', r) ->
  same_configuration self self' /\ (cache_filled self -> cache_filled self').
Proof.
  intros Hmat. revert self ir.
  induction l_comps as [|l l_comps IH]; intros self ir Hsub; cbn.
  - intros [= <- <-]. split; [apply same_configuration_refl | done].
  - destruct (get_conv_funcs _ self zs ex span n surface l) as [self1 [e|cf]] eqn:Hget;
      apply get_conv_funcs_inv in Hget as (Hsame & Hfill & _);
      try done; try (apply Hsub; left).
    + by intros [= <- <-].
    + destruct (accumulate sh st l cf ir) as [e|ir1]; [by intros [= <- <-]|].
      intros Hloop. apply IH in Hloop as (Hsame' & Hfill').
      * split; [by eapply same_configuration_trans | auto].
      * destruct Hsame as (-> & _). intros x Hx. apply Hsub. by right.
Qed.

Lemma load_loop_missing (self : SubsurfaceStress) (zs : list R)
    (ex : ndarray) (span sh : list nat) (st : gmap string ndarray) (n : Z)
    (surface : Surface) (l_comps : list string) (ir : odict ndarray) (l : string) :
  material_answers (material surface) ->
  l_comps ⊆ chars (load_components self) ->
  cache_filled self -> comps_to_find self <> [] ->
  l ∈ l_comps -> st !! ("loads_" ++ l) = None ->
  exists e,
    (load_loop plan_multi_convolve self zs ex span sh st n surface l_comps ir).2
    = inl e.
Proof.
  intros Hmat. revert self ir.
  induction l_comps as [|l' l_comps IH]; intros self ir Hsub Hfill Hc Hin Hmiss.
  - by apply elem_of_nil in Hin.
  - cbn.
    destruct (get_conv_funcs _ self zs ex span n surface l') as [self1 [e|cf]] eqn:Hget;
      [by eexists|].
    apply get_conv_funcs_inv in Hget as (Hsame & Hfill1 & Hcf);
      [|done|apply Hsub; left].
    destruct (decide (l = l')) as [<-|Hne].
    + rewrite accumulate_missing by eauto. by eexists.
    + destruct (accumulate sh st l' cf ir) as [e|ir1]; [by eexists|].
      destruct Hsame as (Hlc & _ & Hcomps & _).
      apply elem_of_cons in Hin as [?|Hin]; [done|].
      apply IH; [| auto | by rewrite Hcomps | done | done].
      rewrite Hlc. intros x Hx. apply Hsub. by right.
Qed.

(** One round of the loop over the surfaces when a load field is missing:
    the state is left as it is, and with something to compute the round
    raises. *)
Lemma solve_surface_missing (self : SubsurfaceStress) (zs : list R)
    (ex : ndarray) (span sh : list nat) (st : gmap string ndarray) (n : Z)
    (l : string) :
  materials_answer model_surface -> well_formed self ->
  l ∈ chars (load_components self) -> st !! ("loads_" ++ l) = None ->
  let o := solve_surface model_surface plan_multi_convolve self zs ex span sh st n in
  out_state o = st /\ same_configuration self (out_self o) /\
  (cache_filled self -> cache_filled (out_self o)) /\
  (stress_components self <> [] -> is_Some (out_raised o)).
Proof.
  intros Hmodel (Hcomps & Hfill) Hl Hmiss. unfold solve_surface.
  destruct (model_surface n) as [surface|] eqn:Hsurf; cbn zeta;
    [|by repeat split; try apply same_configuration_refl].
  destruct (negb (is_IMMaterial (material surface)));
    [by repeat split; try apply same_configuration_refl|].
  pose proof (Hmodel _ _ Hsurf) as Hmat.
  destruct (load_loop _ self zs ex span sh st n surface
              (chars (load_components self)) []) as [self1 r] eqn:Hloop.
  pose proof (load_loop_inv _ _ _ _ _ _ _ _ _ _ _ _ Hmat (reflexivity _) Hloop)
    as (Hsame & Hfill1).
  destruct (decide (stress_components self = [])) as [Hnone|Hsome].
  - destruct r as [e|ir]; cbn [out_state out_self out_raised].
    { split; [done|]. split; [done|]. split; [done|]. by intros []. }
    destruct (principal_step self1 sh _) as [e|ir'];
      cbn [out_state out_self out_raised].
    { split; [done|]. split; [done|]. split; [done|]. by intros []. }
    destruct Hsame as (Hlc & Hsc & Hrest).
    rewrite Hsc, Hnone. split; [done|]. split; [by split|].
    split; [done|]. by intros [].
  - destruct (load_loop_missing self zs ex span sh st n surface
                (chars (load_components self)) [] l) as [e He];
      [done | done | done | by apply Hcomps | done | done |].
    rewrite Hloop in He. cbn in He. subst r.
    cbn [out_state out_self out_raised].
    split; [done|]. split; [done|]. split; [done|]. by eexists.
Qed.

Lemma solve_surface_inv (self : SubsurfaceStress) (zs : list R)
    (ex : ndarray) (span sh : list nat) (st : gmap string ndarray) (n : Z) :
  materials_answer model_surface ->
  let o := solve_surface model_surface plan_multi_convolve self zs ex span sh st n in
  same_configuration self (out_self o) /\
  (cache_filled self -> cache_filled (out_self o)).
Proof.
  intros Hmodel. unfold solve_surface.
  destruct (model_surface n) as [surface|] eqn:Hsurf; cbn zeta;
    [|split; [apply same_configuration_refl | done]].
  destruct (negb (is_IMMaterial (material surface)));
    [split; [apply same_configuration_refl | done]|].
  destruct (load_loop _ self zs ex span sh st n surface
              (chars (load_components self)) []) as [self1 r] eqn:Hloop.
  apply load_loop_inv in Hloop; [|by eapply Hmodel|done].
  destruct r as [e|ir]; [done|].
  by destruct (principal_step self1 sh _).
Qed.

Lemma solve_surfaces_inv (self : SubsurfaceStress) (zs : list R)
    (ex : ndarray) (span sh : list nat) (st : gmap string ndarray)
    (ns : list Z) :
  materials_answer model_surface ->
  let o := solve_surfaces model_surface plan_multi_convolve self zs ex span sh st ns in
  same_configuration self (out_self o) /\
  (cache_filled self -> cache_filled (out_self o)).
Proof.
  intros Hmodel. revert self st.
  induction ns as [|n ns IH]; intros self st; cbn.
  - split; [apply same_configuration_refl | done].
  - pose proof (solve_surface_inv self zs ex span sh st n Hmodel) as (Hsame & Hfill).
    destruct (out_raised (solve_surface _ _ self zs ex span sh st n)); [done|].
    destruct (IH (out_self (solve_surface model_surface plan_multi_convolve
                                self zs ex span sh st n))
                 (out_state (solve_surface model_surface plan_multi_convolve
                                self zs ex span sh st n)))
      as (Hsame' & Hfill').
    split; [by eapply same_configuration_trans | auto].
Qed.

Lemma well_formed_same_configuration (self self' : SubsurfaceStress) :
  same_configuration self self' -> (cache_filled self -> cache_filled self') ->
  well_formed self -> well_formed self'.
Proof.
  intros (_ & Hsc & Hc & _) Hfill (Hcomps & Hcache).
  split; [rewrite Hsc, Hc; exact Hcomps | auto].
Qed.

(** The invariant is kept by every call of [solve]. *)
Lemma solve_well_formed (self : SubsurfaceStress) (st : gmap string ndarray) :
  materials_answer model_surface -> well_formed self ->
  well_formed (out_self (solve model_surface plan_multi_convolve self st)).
Proof.
  intros Hmodel Hwf. unfold solve.
  destruct (chars (load_components self)) as [|l0 ls]; [done|].
  destruct (st !! ("loads_" ++ l0)) as [ex|]; [|done].
  destruct (z self) as [zs|]; [|done].
  destruct (solve_surfaces_inv self zs ex (shape ex) (length zs :: shape ex) st
              (surfaces self) Hmodel) as (Hsame & Hfill).
  by eapply well_formed_same_configuration.
Qed.

Lemma solve_surfaces_missing (self : SubsurfaceStress) (zs : list R)
    (ex : ndarray) (span sh : list nat) (st : gmap string ndarray)
    (ns : list Z) (l : string) :
  materials_answer model_surface -> well_formed self ->
  l ∈ chars (load_components self) -> st !! ("loads_" ++ l) = None ->
  let o := solve_surfaces model_surface plan_multi_convolve self zs ex span sh st ns in
  out_state o = st /\
  (ns <> [] -> stress_components self <> [] -> is_Some (out_raised o)).
Proof.
  intros Hmodel. revert self.
  induction ns as [|n ns IH]; intros self Hwf Hl Hmiss; cbn.
  - by split.
  - destruct (solve_surface_missing self zs ex span sh st n l Hmodel Hwf Hl Hmiss)
      as (Hst & Hsame & Hfill & Hraise).
    destruct (out_raised (solve_surface _ _ self zs ex span sh st n)) as [e|] eqn:Hr.
    + split; [exact Hst|]. intros _ _. rewrite Hr. by eexists.
    + assert (Hnone : stress_components self = []).
      { destruct (decide (stress_components self = [])) as [|Hne]; [done|].
        by destruct (Hraise Hne). }
      rewrite Hst.
      destruct (IH (out_self (solve_surface model_surface plan_multi_convolve
                                  self zs ex span sh st n))) as (Hst' & _).
      * by eapply well_formed_same_configuration.
      * by destruct Hsame as (-> & _).
      * done.
      * split; [exact Hst'|]. by intros _ [].
Qed.

(** C7 (as amended).  Let the materials of the model answer every
    non-empty request with at least one kernel, and let the sub-model object
    be well formed, as [__init__] builds it and [solve] leaves it.  When the
    state lacks the load field of one of the load directions, [solve] leaves
    the state dictionary as it was.  With at least one surface and one
    stress component configured it raises; when the missing field is the
    one of the first load direction, the exception is the [KeyError] of the
    dictionary lookup. *)
Theorem missing_loads_leave_the_state_untouched
    (self : SubsurfaceStress) (current_state : gmap string ndarray) (l : string) :
  materials_answer model_surface -> well_formed self ->
  l ∈ chars (load_components self) ->
  current_state !! ("loads_" ++ l) = None ->
  let o := solve model_surface plan_multi_convolve self current_state in
  out_state o = current_state /\
  (surfaces self <> [] -> stress_components self <> [] ->
   is_Some (out_raised o)) /\
  (head (chars (load_components self)) = Some l ->
   out_raised o = Some (KeyError ("loads_" ++ l))).
Proof.
  intros Hmodel Hwf Hl Hmiss. unfold solve.
  destruct (chars (load_components self)) as [|l0 ls] eqn:Hchars.
  { by apply elem_of_nil in Hl. }
  destruct (current_state !! ("loads_" ++ l0)) as [ex|] eqn:Hex; cbn zeta.
  - destruct (z self) as [zs|].
    + destruct (solve_surfaces_missing self zs ex (shape ex)
                  (length zs :: shape ex) current_state (surfaces self) l
                  Hmodel Hwf) as (Hst & Hraise); [by rewrite Hchars | done |].
      split; [exact Hst|]. split; [exact Hraise|].
      intros [= ->]. congruence.
    + split; [done|]. split; [by eexists|]. intros [= ->]. congruence.
  - split; [done|]. split; [by eexists|]. by intros [= ->].
Qed.

End missing_loads.

(** * What [solve] writes *)

Section written_results.
Import SubSurfaceStress.

Variable model_surface : Z -> option Surface.
Variable plan_multi_convolve : ndarray -> ndarray -> bool * bool -> conv_func.

Lemma dd_val_touch (sh : list nat) (k k' : string) (d : odict ndarray) :
  dd_val sh k' (dd_get sh k d).2 = dd_val sh k' d.
Proof.
  destruct (dd_get sh k d) as [v d'] eqn:E. apply dd_get_spec in E as (Hv & Hk & Hother).
  cbn. rewrite !dd_val_lookup. destruct (decide (k = k')) as [<-|Hne].
  - rewrite Hk, Hv, dd_val_lookup. by destruct (od_lookup k d).
  - by rewrite Hother.
Qed.

Lemma write_results_other (sh : list nat) (n : Z) (keys : list string)
    (ir : odict ndarray) (st : gmap string ndarray) (k : string) :
  (forall key, key ∈ keys -> state_key n key <> k) ->
  write_results sh n keys ir st !! k = st !! k.
Proof.
  revert ir st. induction keys as [|key keys IH]; intros ir st Hk; cbn; [done|].
  destruct (dd_get sh key ir) as [v ir1].
  rewrite IH by (intros key' Hkey'; apply Hk; by right).
  apply lookup_insert_ne, Hk. by left.
Qed.

Lemma write_results_lookup (sh : list nat) (n : Z) (keys : list string)
    (ir : odict ndarray) (st : gmap string ndarray) (key : string) :
  key ∈ keys ->
  write_results sh n keys ir st !! state_key n key = Some (dd_val sh key ir).
Proof.
  revert ir st. induction keys as [|k0 keys IH]; intros ir st Hkey.
  - by apply elem_of_nil in Hkey.
  - cbn. destruct (dd_get sh k0 ir) as [v ir1] eqn:E.
    destruct (decide (key ∈ keys)) as [Hin|Hout].
    + rewrite IH by done. change ir1 with (v, ir1).2. rewrite <- E.
      apply f_equal, dd_val_touch.
    + apply elem_of_cons in Hkey as [->|?]; [|done].
      rewrite write_results_other.
      * rewrite lookup_insert_eq. by apply dd_get_spec in E as (-> & _).
      * intros key' Hkey' [_ ->]%state_key_inj. done.
Qed.

(** A round of the loop over the surfaces writes no key of another
    surface. *)
Lemma solve_surface_frame (self : SubsurfaceStress) (zs : list R)
    (ex : ndarray) (span sh : list nat) (st : gmap string ndarray)
    (n n' : Z) (k : string) :
  n <> n' ->
  out_state (solve_surface model_surface plan_multi_convolve self zs ex span
               sh st n) !! state_key n' k = st !! state_key n' k.
Proof.
  intros Hn. unfold solve_surface.
  destruct (model_surface n) as [surface|]; [|done].
  destruct (negb _); [done|].
  destruct (load_loop _ _ _ _ _ _ _ _ _ _ _) as [self1 [e|ir]]; [done|].
  destruct (principal_step _ _ _) as [e|ir']; [done|].
  cbn. apply write_results_other.
  intros key _ [? _]%state_key_inj. done.
Qed.

(** A round that returns has written, for every requested key, the value
    the dictionary of intermediate results holds for it. *)
Lemma solve_surface_returns (self : SubsurfaceStress) (zs : list R)
    (ex : ndarray) (span sh : list nat) (st : gmap string ndarray) (n : Z) :
  let o := solve_surface model_surface plan_multi_convolve self zs ex span sh st n in
  out_raised o = None ->
  exists surface ir ir',
    model_surface n = Some surface /\
    load_loop plan_multi_convolve self zs ex span sh st n surface
      (chars (load_components self)) [] = (out_self o, inr ir) /\
    principal_step (out_self o) sh (von_mises_step (out_self o) sh ir) = inr ir' /\
    out_state o = write_results sh n (stress_components (out_self o)) ir' st.
Proof.
  unfold solve_surface.
  destruct (model_surface n) as [surface|]; [|done].
  destruct (negb _); [done|].
  destruct (load_loop _ _ _ _ _ _ _ _ _ _ _) as [self1 [e|ir]] eqn:Hloop;
    [done|].
  destruct (principal_step _ _ _) as [e|ir'] eqn:Hstep; [done|].
  intros _. exists surface, ir, ir'. cbn [out_self out_state].
  split; [reflexivity|]. split; [exact Hloop|]. split; [exact Hstep|].
  reflexivity.
Qed.

Lemma get_conv_funcs_same (self self' : SubsurfaceStress) (zs : list R)
    (ex : ndarray) (span : list nat) (n : Z) (surface : Surface) (l : string)
    (r : Res (odict conv_func)) :
  get_conv_funcs plan_multi_convolve self zs ex span n surface l = (self', r) ->
  same_configuration self self'.
Proof.
  unfold get_conv_funcs, store_conv_funcs.
  repeat case_match; intros [= <- <-]; by repeat split.
Qed.

Lemma load_loop_same (self self' : SubsurfaceStress) (zs : list R)
    (ex : ndarray) (span sh : list nat) (st : gmap string ndarray) (n : Z)
    (surface : Surface) (l_comps : list string) (ir : odict ndarray)
    (r : Res (odict ndarray)) :
  load_loop plan_multi_convolve self zs ex span sh st n surface l_comps ir
    = (self', r) ->
  same_configuration self self'.
Proof.
  revert self ir. induction l_comps as [|l l_comps IH]; intros self ir; cbn.
  - intros [= <- <-]. apply same_configuration_refl.
  - destruct (get_conv_funcs _ self zs ex span n surface l)
      as [self1 [e|cf]] eqn:Hget; apply get_conv_funcs_same in Hget.
    + by intros [= <- <-].
    + destruct (accumulate sh st l cf ir) as [e|ir1]; [by intros [= <- <-]|].
      intros Hloop%IH. by eapply same_configuration_trans.
Qed.

Lemma od_lookup_keys {V} (k : string) (v : V) (d : odict V) :
  od_lookup k d = Some v -> k ∈ od_keys d.
Proof.
  induction d as [|[k' v'] d IH]; cbn; [done|].
  case_decide as Hk; [intros _; subst; by left | intros H; right; auto].
Qed.

Lemma od_del_shorter {V} (k : string) (d : odict V) :
  k ∈ od_keys d -> S (length (od_del k d)) = length d.
Proof.
  induction d as [|[k' v'] d IH]; cbn; intros Hk.
  - by apply elem_of_nil in Hk.
  - case_decide as Hkk; [done|]. cbn. f_equal. apply IH.
    apply elem_of_cons in Hk as [?|?]; done.
Qed.

(** The loop of lines 157-159 only gets to its end when every key of the
    dictionary is a requested component. *)
Lemma prune_loop_requested (scs keys : list string) (d d' : odict ndarray) :
  keys ⊆ od_keys d ->
  prune_loop scs (length d) keys d = inr d' ->
  forall k, k ∈ keys -> tuple_in k scs = true.
Proof.
  induction keys as [|key keys IH]; intros Hsub Hrun k Hk.
  - by apply elem_of_nil in Hk.
  - cbn in Hrun. rewrite Nat.eqb_refl in Hrun. cbn in Hrun.
    destruct (tuple_in key scs) eqn:Hkey.
    + apply elem_of_cons in Hk as [->|Hk]; [done|].
      apply IH; [|done|done]. intros x Hx. apply Hsub. by right.
    + exfalso.
      assert (Hshort : S (length (od_del key d)) = length d)
        by (apply od_del_shorter, Hsub; by left).
      destruct keys; cbn in Hrun;
        destruct (length (od_del key d) =? length d)%nat eqn:Hlen;
        try discriminate; apply Nat.eqb_eq in Hlen; lia.
Qed.

Lemma principal_step_requested (self : SubsurfaceStress) (sh : list nat)
    (ir ir' : odict ndarray) :
  tuple_in "1" (stress_components self) || tuple_in "2" (stress_components self)
    || tuple_in "3" (stress_components self) = true ->
  principal_step self sh ir = inr ir' ->
  forall k, k ∈ cauchy_components -> k ∈ stress_components self.
Proof.
  intros Hreq. unfold principal_step. rewrite Hreq.
  destruct (dd_get sh "xx" ir) as [xx ir1] eqn:Exx.
  destruct (dd_get sh "yy" ir1) as [yy ir2] eqn:Eyy.
  destruct (dd_get sh "zz" ir2) as [zz ir3] eqn:Ezz.
  destruct (dd_get sh "xy" ir3) as [xy ir4] eqn:Exy.
  destruct (dd_get sh "xz" ir4) as [xz ir5] eqn:Exz.
  destruct (dd_get sh "yz" ir5) as [yz ir6] eqn:Eyz.
  destruct (prune_loop _ _ _ ir6) as [e|kept] eqn:Hprune; [discriminate|].
  intros _ k Hk.
  pose proof (prune_loop_requested _ _ _ _ (reflexivity _) Hprune) as Hall.
  apply dd_get_spec in Exx as (_ & Hxx & _).
  apply dd_get_spec in Eyy as (_ & Hyy & Hyy').
  apply dd_get_spec in Ezz as (_ & Hzz & Hzz').
  apply dd_get_spec in Exy as (_ & Hxy & Hxy').
  apply dd_get_spec in Exz as (_ & Hxz & Hxz').
  apply dd_get_spec in Eyz as (_ & Hyz & Hyz').
  unfold cauchy_components in Hk.
  repeat (apply elem_of_cons in Hk as [->|Hk]);
    [..|by apply elem_of_nil in Hk];
    eapply bool_decide_eq_true_1, Hall, od_lookup_keys.
  - rewrite Hyz', Hxz', Hxy', Hzz', Hyy' by done. exact Hxx.
  - rewrite Hyz', Hxz', Hxy', Hzz' by done. exact Hyy.
  - rewrite Hyz', Hxz', Hxy' by done. exact Hzz.
  - rewrite Hyz', Hxz' by done. exact Hxy.
  - exact Hyz.
  - rewrite Hyz' by done. exact Hxz.
Qed.

Lemma dd_val_present (sh : list nat) (k : string) (d : odict ndarray)
    (v : ndarray) :
  od_lookup k d = Some v -> dd_val sh k d = v.
Proof. intros H. by rewrite dd_val_lookup, H. Qed.

(** [solve], asked for a principal stress, only returns when the six
    tensor components are requested as well. *)
Lemma solve_returns_only_with_all_six (self : SubsurfaceStress)
    (current_state : gmap string ndarray) :
  tuple_in "1" (stress_components self) || tuple_in "2" (stress_components self)
    || tuple_in "3" (stress_components self) = true ->
  surfaces self <> [] ->
  out_raised (solve model_surface plan_multi_convolve self current_state) = None ->
  forall k, k ∈ cauchy_components -> k ∈ stress_components self.
Proof.
  intros Hreq Hsurf. unfold solve.
  destruct (chars (load_components self)) as [|l0 ls]; [done|].
  destruct (current_state !! ("loads_" ++ l0)) as [ex|]; [|done].
  destruct (z self) as [zs|]; [|done].
  destruct (surfaces self) as [|n ns]; [done|]. cbn.
  destruct (out_raised (solve_surface _ _ self zs ex (shape ex)
                          (length zs :: shape ex) current_state n))
    as [e|] eqn:Hr.
  { intros Hret. by rewrite Hr in Hret. }
  intros _.
  destruct (solve_surface_returns self zs ex (shape ex) (length zs :: shape ex)
              current_state n Hr)
    as (surface & ir & ir' & _ & Hloop & Hstep & _).
  apply load_loop_same in Hloop as (_ & Hsc & _).
  rewrite <- Hsc. eapply principal_step_requested; [|exact Hstep].
  by rewrite Hsc.
Qed.

Lemma solve_surface_unfold (self self1 : SubsurfaceStress) (zs : list R)
    (ex : ndarray) (span sh : list nat) (st : gmap string ndarray) (n : Z)
    (surface : Surface) (ir ir' : odict ndarray) :
  model_surface n = Some surface ->
  is_IMMaterial (material surface) = true ->
  load_loop plan_multi_convolve self zs ex span sh st n surface
    (chars (load_components self)) [] = (self1, inr ir) ->
  principal_step self1 sh (von_mises_step self1 sh ir) = inr ir' ->
  solve_surface model_surface plan_multi_convolve self zs ex span sh st n
  = Build_Outcome self1
      (write_results sh n (stress_components self1) ir' st) None.
Proof.
  intros Hsurf Him Hloop Hstep. unfold solve_surface.
  by rewrite Hsurf, Him, Hloop, Hstep.
Qed.

Lemma solve_one_surface (self : SubsurfaceStress)
    (st : gmap string ndarray) (l0 : string) (ls : list string)
    (ex : ndarray) (zs : list R) (n : Z) :
  chars (load_components self) = l0 :: ls ->
  st !! ("loads_" ++ l0) = Some ex -> z self = Some zs ->
  surfaces self = [n] ->
  let o := solve model_surface plan_multi_convolve self st in
  let o1 := solve_surface model_surface plan_multi_convolve self zs ex
              (shape ex) (length zs :: shape ex) st n in
  out_state o = out_state o1 /\ out_raised o = out_raised o1.
Proof.
  intros Hchars Hex Hz Hsurf. unfold solve. rewrite Hchars, Hex, Hz, Hsurf.
  cbn. by destruct (out_raised _) eqn:Hr.
Qed.

Lemma od_keys_lookup {V} (k : string) (d : odict V) :
  k ∈ od_keys d -> is_Some (od_lookup k d).
Proof.
  induction d as [|[k' v'] d IH]; cbn; intros Hk.
  - by apply elem_of_nil in Hk.
  - case_decide; [by eexists|]. apply IH.
    apply elem_of_cons in Hk as [?|?]; done.
Qed.

(** With the six tensor components present and requested, the
    principal-stress step completes. *)
Lemma principal_step_completes (self : SubsurfaceStress) (sh : list nat)
    (ir : odict ndarray) :
  od_keys ir = cauchy_components ->
  forallb (fun k => tuple_in k (stress_components self)) cauchy_components = true ->
  exists ir', principal_step self sh ir = inr ir'.
Proof.
  intros Hkeys Hall. unfold principal_step. case_match; [|by eexists].
  assert (Hpresent : forall k, k ∈ cauchy_components ->
                               exists v, dd_get sh k ir = (v, ir)).
  { intros k Hk. rewrite <- Hkeys in Hk.
    apply od_keys_lookup in Hk as [v Hv]. exists v. by apply dd_get_present. }
  destruct (Hpresent "xx") as [xx ->]; [decide_by_running|].
  destruct (Hpresent "yy") as [yy ->]; [decide_by_running|].
  destruct (Hpresent "zz") as [zz ->]; [decide_by_running|].
  destruct (Hpresent "xy") as [xy ->]; [decide_by_running|].
  destruct (Hpresent "xz") as [xz ->]; [decide_by_running|].
  destruct (Hpresent "yz") as [yz ->]; [decide_by_running|].
  rewrite prune_loop_all_requested by (by rewrite Hkeys).
  by eexists.
Qed.

End written_results.

(** * Kept kernels and a second surface *)

Section second_surface.
Import SubSurfaceStress.

Variable model_surface : Z -> option Surface.
Variable plan_multi_convolve : ndarray -> ndarray -> bool * bool -> conv_func.

(** The constructor builds no kernels. *)
Lemma init_unbuilt (zs : option (list R)) (surface : int_or_seq)
    (name : string) (periodic_axes : bool * bool) (load_components : string)
    (stress_components : str_or_seq) (keep_kernels cuda_convolutions : bool)
    (self : SubsurfaceStress) (s : Z) :
  __init__ zs surface name periodic_axes load_components stress_components
       keep_kernels cuda_convolutions = inr self ->
  unbuilt self s.
Proof.
  unfold __init__.
  destruct (check_load_components (chars load_components)) as [e|[]] eqn:Hlc;
    [discriminate|].
  destruct (check_stress_components (component_seq stress_components))
    as [e|[]] eqn:Hsc; [discriminate|].
  intros [= <-] by_load l Hs Hin.
  unfold make in Hs, Hin;
    cbn [_kernel_cache SubSurfaceStress.load_components] in Hs, Hin.
  destruct (by_load !! l) as [cf|] eqn:Hl; [exfalso|done].
  eapply initial_cache_lookup in Hl; [|exact Hs].
  eapply check_stress_components_ok in Hl; [|exact Hsc].
  pose proof (check_load_components_ok _ Hlc _ Hin) as Hdir.
  apply chars_single in Hin as (a & ->).
  by destruct (load_direction_is_no_stress a).
Qed.

Lemma get_conv_funcs_span (self self' : SubsurfaceStress) (zs : list R)
    (ex : ndarray) (span : list nat) (n : Z) (surface : Surface) (l : string)
    (r : Res (odict conv_func)) :
  keep_kernels self = true ->
  get_conv_funcs plan_multi_convolve self zs ex span n surface l = (self', r) ->
  (_cache_span self = span -> _cache_span self' = span) /\
  (forall cf, r = inr cf -> _cache_span self' = span).
Proof.
  intros Hkeep. unfold get_conv_funcs, store_conv_funcs. rewrite Hkeep.
  cbn [andb]. case_bool_decide as Hspan.
  - repeat case_match; intros [= <- <-]; by split.
  - repeat case_match; intros [= <- <-]; split; try done; by intros ? [=].
Qed.

Lemma get_conv_funcs_unbuilt (self self' : SubsurfaceStress) (zs : list R)
    (ex : ndarray) (span : list nat) (n s : Z) (surface : Surface) (l : string)
    (r : Res (odict conv_func)) :
  n <> s -> unbuilt self s ->
  get_conv_funcs plan_multi_convolve self zs ex span n surface l = (self', r) ->
  unbuilt self' s.
Proof.
  intros Hn Hun. unfold get_conv_funcs, store_conv_funcs.
  repeat case_match; intros [= <- <-]; try done.
  intros by_load' l' Hs Hl'. cbn in Hs, Hl'.
  rewrite lookup_insert_ne in Hs by done. by eapply Hun.
Qed.

Lemma load_loop_span (self self' : SubsurfaceStress) (zs : list R)
    (ex : ndarray) (span sh : list nat) (st : gmap string ndarray) (n : Z)
    (surface : Surface) (l_comps : list string) (ir : odict ndarray)
    (r : Res (odict ndarray)) :
  keep_kernels self = true ->
  load_loop plan_multi_convolve self zs ex span sh st n surface l_comps ir
    = (self', r) ->
  (_cache_span self = span -> _cache_span self' = span) /\
  (l_comps <> [] -> forall ir', r = inr ir' -> _cache_span self' = span).
Proof.
  revert self ir. induction l_comps as [|l l_comps IH]; intros self ir Hkeep; cbn.
  - intros [= <- <-]. by split.
  - destruct (get_conv_funcs _ self zs ex span n surface l)
      as [self1 [e|cf]] eqn:Hget.
    + intros [= <- <-].
      apply get_conv_funcs_span in Hget as (Hspan & _); [|done].
      split; [done | by intros _ ? [=]].
    + pose proof (get_conv_funcs_same _ _ _ _ _ _ _ _ _ _ Hget)
        as (_ & _ & _ & _ & _ & Hkeep1).
      apply get_conv_funcs_span in Hget as (Hspan & Hbuilt); [|done].
      destruct (accumulate sh st l cf ir) as [e|ir1].
      * intros [= <- <-]. split; [done | by intros _ ? [=]].
      * intros Hloop. apply IH in Hloop as (Hkept & _); [|congruence].
        split; [auto|]. intros _ ir' _. apply Hkept. by eapply Hbuilt.
Qed.

Lemma load_loop_unbuilt (self self' : SubsurfaceStress) (zs : list R)
    (ex : ndarray) (span sh : list nat) (st : gmap string ndarray) (n s : Z)
    (surface : Surface) (l_comps : list string) (ir : odict ndarray)
    (r : Res (odict ndarray)) :
  n <> s -> unbuilt self s ->
  load_loop plan_multi_convolve self zs ex span sh st n surface l_comps ir
    = (self', r) ->
  unbuilt self' s.
Proof.
  intros Hn. revert self ir.
  induction l_comps as [|l l_comps IH]; intros self ir Hun; cbn.
  - by intros [= <- <-].
  - destruct (get_conv_funcs _ self zs ex span n surface l)
      as [self1 [e|cf]] eqn:Hget;
      eapply get_conv_funcs_unbuilt in Hget; try done.
    + by intros [= <- <-].
    + destruct (accumulate sh st l cf ir) as [e|ir1]; [by intros [= <- <-]|].
      by apply IH.
Qed.

(** With the span already recorded and kernels kept, a round for a
    surface whose kernels were never built raises. *)
Lemma solve_surface_unbuilt_raises (self : SubsurfaceStress) (zs : list R)
    (ex : ndarray) (span sh : list nat) (st : gmap string ndarray) (n : Z) :
  keep_kernels self = true -> _cache_span self = span -> unbuilt self n ->
  chars (load_components self) <> [] ->
  is_Some (out_raised (solve_surface model_surface plan_multi_convolve self
                         zs ex span sh st n)).
Proof.
  intros Hkeep Hspan Hun Hchars. unfold solve_surface.
  destruct (model_surface n) as [surface|]; [|by eexists].
  destruct (negb _); [by eexists|].
  destruct (chars (load_components self)) as [|l ls] eqn:Hl; [done|]. cbn.
  unfold get_conv_funcs. rewrite Hkeep, Hspan, bool_decide_eq_true_2 by done.
  cbn [andb].
  destruct (_kernel_cache self !! n) as [by_load|] eqn:Hs; [|by eexists].
  rewrite (Hun by_load l Hs) by (rewrite Hl; by left). by eexists.
Qed.

(** With kernels kept, a sub-model for two different surfaces whose
    kernels for the second one have not been built never gets through
    [solve]: the round of the first surface records the span, and the round
    of the second one then reads the cache. *)
Lemma kept_kernels_fail_for_a_second_surface (self : SubsurfaceStress)
    (current_state : gmap string ndarray) (s1 s2 : Z) (rest : list Z) :
  keep_kernels self = true ->
  surfaces self = s1 :: s2 :: rest -> s1 <> s2 -> unbuilt self s2 ->
  is_Some (out_raised (solve model_surface plan_multi_convolve self current_state)).
Proof.
  intros Hkeep Hsurf Hne Hun. unfold solve.
  destruct (chars (load_components self)) as [|l0 ls] eqn:Hchars; [by eexists|].
  destruct (current_state !! ("loads_" ++ l0)) as [ex|]; [|by eexists].
  destruct (z self) as [zs|]; [|by eexists].
  rewrite Hsurf. cbn.
  destruct (out_raised (solve_surface _ _ self zs ex (shape ex)
                          (length zs :: shape ex) current_state s1))
    as [e|] eqn:Hr; [rewrite Hr; by eexists|].
  destruct (solve_surface_returns model_surface plan_multi_convolve self zs ex
              (shape ex) (length zs :: shape ex) current_state s1 Hr)
    as (surface & ir & ir' & _ & Hloop & _ & _).
  set (o1 := solve_surface model_surface plan_multi_convolve self zs ex
               (shape ex) (length zs :: shape ex) current_state s1) in *.
  pose proof (load_loop_same _ _ _ _ _ _ _ _ _ _ _ _ _ Hloop)
    as (Hlc & _ & _ & _ & _ & Hkeep1).
  pose proof (load_loop_span _ _ _ _ _ _ _ _ _ _ _ _ Hkeep Hloop) as (_ & Hspan).
  pose proof (load_loop_unbuilt _ _ _ _ _ _ _ _ _ _ _ _ _ Hne Hun Hloop) as Hun1.
  destruct (solve_surface_unbuilt_raises (out_self o1) zs ex (shape ex)
              (length zs :: shape ex) (out_state o1) s2) as [e He].
  - congruence.
  - eapply Hspan; [by rewrite Hchars | done].
  - exact Hun1.
  - by rewrite Hlc, Hchars.
  - rewrite He. by eexists.
Qed.

End second_surface.

(** * Runs of [SubsurfaceStress] *)

Section stress_runs.
Import SubSurfaceStress.

(** The kernels of the two materials, the grid spacings, the convolution
    planner and the load values are arbitrary. *)
Variables kernel_1 kernel_2 : list nat -> list R -> string -> list R -> bool -> ndarray.
Variables spacing_1 spacing_2 : R.
Variable plan_multi_convolve : ndarray -> ndarray -> bool * bool -> conv_func.
Variable loads_z : list nat -> R.

Let model := example_model kernel_1 kernel_2 spacing_1 spacing_2.
Let run := solve model plan_multi_convolve.

(** C1.  [SubsurfaceStress()] with every argument left at its default,
    hence with [stress_components=('all',)], does not construct the
    sub-model: ['all'] is not in [valid_stresses] and the constructor raises
    [ValueError]. *)
Theorem default_construction_raises :
  init_default =
  inl (ValueError
         "Unrecognised stress component: all, valid components are: ('xx', 'yy', 'zz', 'xy', 'yz', 'xz', '1', '2', '3', 'vm')").
Proof. vm_compute. reflexivity. Qed.

(** C2.  Two surfaces, one load direction, kernels kept.  On the first
    call the span of the loads, (2, 2), differs from the recorded span
    (0, 0).  [solve] builds the kernels of surface 1 only, records the new
    span, and then takes the cache branch for surface 2, whose entry was
    never built: the lookup raises [KeyError].  The kernels of surface 2
    are not rebuilt. *)
Theorem span_change_rebuilds_one_pair_only :
  let self := make (Some [0%R]) [1; 2]%Z "sub_surface_stress" (false, false)
                "z" ["xx"] true false in
  let o := run self (loads_z_state loads_z) in
  __init__ (Some [0%R]) (IntSeq [1; 2]%Z) "sub_surface_stress" (false, false) "z"
    (StrSeq ["xx"]) true false = inr self /\
  shape (mk_ndarray [2; 2]%nat loads_z) <> _cache_span self /\
  out_raised o = Some (KeyError "z") /\
  _cache_span (out_self o) = [2; 2]%nat /\
  dom <$> (_kernel_cache (out_self o) !! 1%Z) = Some {[ "xx"; "z" ]} /\
  dom <$> (_kernel_cache (out_self o) !! 2%Z) = Some {[ "xx" ]}.
Proof.
  repeat split; try (vm_compute; reflexivity).
  vm_compute. discriminate.
Qed.

(** C3.  Only the principal stress ['1'] is requested.  The six tensor
    components are computed, but the loop that discards the ones not
    requested deletes a key of the dictionary it iterates over, and the
    iterator raises [RuntimeError]: no principal stress is derived and no
    key is written. *)
Theorem principal_only_request_raises :
  let self := make (Some [0%R]) [1]%Z "sub_surface_stress" (false, false)
                "z" ["1"] true false in
  let o := run self (loads_z_state loads_z) in
  __init__ (Some [0%R]) (AnInt 1) "sub_surface_stress" (false, false) "z"
    (AStr "1") true false = inr self /\
  comps_to_find self = cauchy_components /\
  out_raised o = Some (RuntimeError "dictionary changed size during iteration") /\
  out_state o = loads_z_state loads_z /\
  out_state o !! "surface_1_1" = None.
Proof. repeat split; vm_compute; reflexivity. Qed.

(** C4.  The configuration of C2 run once with [keep_kernels=True] and once
    with [keep_kernels=False] on the same state: without the cache the call
    returns and writes the stress of both surfaces, with the cache it raises
    [KeyError] and the stress of surface 2 is missing from the state. *)
Theorem keep_kernels_changes_the_outcome :
  let configure keep := make (Some [0%R]) [1; 2]%Z "sub_surface_stress"
                          (false, false) "z" ["xx"] keep false in
  let kept := run (configure true) (loads_z_state loads_z) in
  let rebuilt := run (configure false) (loads_z_state loads_z) in
  out_raised rebuilt = None /\
  dom (out_state rebuilt) = {[ "loads_z"; "surface_1_xx"; "surface_2_xx" ]} /\
  out_raised kept = Some (KeyError "z") /\
  dom (out_state kept) = {[ "loads_z"; "surface_1_xx" ]} /\
  out_state kept <> out_state rebuilt.
Proof.
  repeat split; try (vm_compute; reflexivity).
  intros H. apply (f_equal (fun m => m !! "surface_2_xx")) in H.
  vm_compute in H. discriminate.
Qed.

(** C8.  With [z] left unset, [solve] on a state that holds the normal
    loads raises [TypeError] at [len(self.z)]; no default depths are
    computed and nothing is written. *)
Theorem unset_depths_raise :
  let self := make None [1; 2]%Z "sub_surface_stress" (false, false) "z"
                ["xx"] true false in
  __init__ None (IntSeq [1; 2]%Z) "sub_surface_stress" (false, false) "z"
    (StrSeq ["xx"]) true false = inr self /\
  out_raised (run self (loads_z_state loads_z)) =
    Some (TypeError "object of type 'NoneType' has no len()") /\
  out_state (run self (loads_z_state loads_z)) = loads_z_state loads_z.
Proof. repeat split; vm_compute; reflexivity. Qed.

End stress_runs.

Section principal_stress_runs.
Import SubSurfaceStress.
Local Open Scope R_scope.

(** C5.  All six tensor components and the three principal stresses are
    requested for surface 1, whose material responds to the loads with
    xx = 3, yy = 2, zz = 1 and no shear at every index.  [solve] returns and
    writes -1 as 'surface_1_1', 10 as 'surface_1_2' and -3 as 'surface_1_3':
    the stress written as '1' is smaller than the stress written as '2'. *)
Theorem principal_stresses_out_of_order :
  let self := make (Some [0]) [1%Z] "sub_surface_stress" (false, false) "z"
                tensor_and_principals false false in
  let model := example_model (uniform_kernel 3 2 1 0 0 0)
                 (uniform_kernel 3 2 1 0 0 0) 1 1 in
  let o := solve model kernel_as_response self (loads_z_state (fun _ => 1)) in
  __init__ (Some [0]) (AnInt 1) "sub_surface_stress" (false, false) "z"
    (StrSeq tensor_and_principals) false false = inr self /\
  out_raised o = None /\
  exists s1 s2 s3 : ndarray,
    out_state o !! "surface_1_1" = Some s1 /\
    out_state o !! "surface_1_2" = Some s2 /\
    out_state o !! "surface_1_3" = Some s3 /\
    forall i, data s1 i = -1 /\ data s2 i = 10 /\ data s3 i = -3 /\
              data s1 i < data s2 i.
Proof.
  intros self model o.
  split; [vm_compute; reflexivity|].
  set (st := loads_z_state (fun _ => 1)).
  set (ex := mk_ndarray [2; 2]%nat (fun _ => 1)).
  set (sh := [1; 2; 2]%nat).
  set (surface := {| grid_spacing := 1;
                     material := im_material (keyed_sss (uniform_kernel 3 2 1 0 0 0))
                                   (keyed_sss (uniform_kernel 3 2 1 0 0 0))
                                   (keyed_sss (uniform_kernel 3 2 1 0 0 0)) |}).
  set (ir := [("xx", iadd (zeros sh) (full sh 3)); ("yy", iadd (zeros sh) (full sh 2));
              ("zz", iadd (zeros sh) (full sh 1)); ("xy", iadd (zeros sh) (full sh 0));
              ("yz", iadd (zeros sh) (full sh 0)); ("xz", iadd (zeros sh) (full sh 0))]).
  assert (Hloop : load_loop kernel_as_response self [0] ex [2; 2]%nat sh st 1
                    surface (chars (load_components self)) [] = (self, inr ir))
    by (vm_compute; reflexivity).
  assert (Hvm : von_mises_step self sh ir = ir).
  { unfold von_mises_step.
    by replace (tuple_in "vm" (stress_components self)) with false
      by (vm_compute; reflexivity). }
  destruct (principal_step_completes self sh ir) as [ir' Hstep];
    [reflexivity | vm_compute; reflexivity |].
  assert (Hreq : tuple_in "1" (stress_components self)
                 || tuple_in "2" (stress_components self)
                 || tuple_in "3" (stress_components self) = true)
    by (vm_compute; reflexivity).
  destruct (principal_step_spec self sh ir ir' Hreq Hstep)
    as (L1 & L2 & L3 & _).
  destruct (solve_one_surface model kernel_as_response self st "z" [] ex [0] 1)
    as (Hstate & Hraised); [reflexivity | reflexivity | reflexivity | reflexivity |].
  cbv zeta in Hstate, Hraised. subst o. fold st.
  change (solve_surface _ _ _ _ _ _ _ _ _)
    with (solve_surface model kernel_as_response self [0] ex [2; 2]%nat sh st 1)
    in Hstate, Hraised.
  rewrite (solve_surface_unfold model kernel_as_response self self [0] ex
             [2; 2]%nat sh st 1 surface ir ir') in Hstate, Hraised;
    [|reflexivity|reflexivity|exact Hloop|by rewrite Hvm
     |reflexivity|reflexivity|exact Hloop|by rewrite Hvm].
  cbn [out_state out_raised] in Hstate, Hraised.
  split; [exact Hraised|].
  eexists _, _, _. rewrite Hstate.
  change "surface_1_1" with (state_key 1 "1").
  change "surface_1_2" with (state_key 1 "2").
  change "surface_1_3" with (state_key 1 "3").
  rewrite !write_results_lookup by decide_by_running.
  rewrite (dd_val_present _ _ _ _ L1), (dd_val_present _ _ _ _ L2),
    (dd_val_present _ _ _ _ L3).
  do 3 (split; [reflexivity|]).
  intros i. cbn [principal_field data].
  change (principal_stresses _ _ _ _ _ _)
    with (principal_stresses (0 + 3) (0 + 2) (0 + 1) (0 + 0) (0 + 0) (0 + 0)).
  rewrite !Rplus_0_l, principal_stresses_of_diag_3_2_1. cbn [fst snd]. lra.
Qed.

End principal_stress_runs.

Section missing_loads_examples.
Import SubSurfaceStress.

(** C7, the claim as worded: on an empty state the exception is the
    [KeyError] of the dictionary lookup, not a [MissingDependency]. *)
Lemma missing_loads_raise_key_error :
  let self := make (Some [0%R]) [1%Z] "sub_surface_stress" (false, false) "z"
                ["xx"] true false in
  let o := solve (example_model zero_kernel zero_kernel 1 1) kernel_as_response
                 self ∅ in
  __init__ (Some [0%R]) (AnInt 1) "sub_surface_stress" (false, false) "z"
    (AStr "xx") true false = inr self /\
  "loads_z" ∈ requires self /\
  (∅ : gmap string ndarray) !! "loads_z" = None /\
  out_raised o = Some (KeyError "loads_z") /\
  ~ (exists e, out_raised o = Some e /\ exc_class e = "MissingDependency").
Proof.
  intros self o.
  assert (Hraised : out_raised o = Some (KeyError "loads_z"))
    by (vm_compute; reflexivity).
  split; [vm_compute; reflexivity|].
  split; [decide_by_running|].
  split; [reflexivity|].
  split; [exact Hraised|].
  intros (e & He & Hclass). rewrite Hraised in He. injection He as <-.
  discriminate Hclass.
Qed.

(** The amended C7 on a sub-model for the load directions 'z' and 'x' and
    a state that holds only the normal loads. *)
Lemma missing_loads_leave_the_state_untouched_witness :
  let self := make (Some [0%R]) [1; 2]%Z "sub_surface_stress" (false, false)
                "zx" ["xx"] false false in
  let st := loads_z_state (fun _ => 0%R) in
  let o := solve (example_model zero_kernel zero_kernel 1 1) kernel_as_response
                 self st in
  out_state o = st /\ is_Some (out_raised o).
Proof.
  intros self st o.
  destruct (missing_loads_leave_the_state_untouched
              (example_model zero_kernel zero_kernel 1 1) kernel_as_response
              self st "x") as (Hst & Hraise & _).
  - apply example_model_answers.
  - apply (init_well_formed (Some [0%R]) (IntSeq [1; 2]%Z) "sub_surface_stress"
             (false, false) "zx" (StrSeq ["xx"]) false false).
    vm_compute. reflexivity.
  - decide_by_running.
  - vm_compute. reflexivity.
  - split; [exact Hst|]. apply Hraise; discriminate.
Defined.

End missing_loads_examples.

(** * Properties of [UpdateShiftRollingSurface] *)

Section shift_properties.
Import ShiftSurface.

Variable RollingSurface : Type.
Variable shift : RollingSurface -> R -> R -> RollingSurface.

(** C9.  The [requires] set handed to the base class is [set("time_step")],
    the set of the seven distinct characters of that word; the key
    ["time_step"] that [_solve] reads is not a member of it. *)
Theorem requires_is_a_set_of_characters
    (name : string) (speed_x speed_y : R) (interpolation_mode : string) :
  exists self,
    __init__ name 1 speed_x speed_y interpolation_mode = inr self /\
    requires self = {[ "t"; "i"; "m"; "e"; "_"; "s"; "p" ]} /\
    size (requires self) = 7%nat /\
    ("time_step" ∉ requires self) /\
    (requires self ≠ {[ "time_step" ]}).
Proof.
  eexists. split; [reflexivity|]. cbn [requires].
  assert (Hset : py_set (chars "time_step")
                 = ({[ "t"; "i"; "m"; "e"; "_"; "s"; "p" ]} : gset string)).
  { decide_by_running. }
  rewrite Hset. repeat split; decide_by_running.
Qed.

(** C10.  The constructor accepts [surface_to_roll] 1 and 2 and rejects
    every other value.  [_solve] never changes the state dictionary; with
    [surface_to_roll] 2 it leaves both surfaces as they are and, when the
    keys it reads are present, returns the state; with [surface_to_roll] 1
    it shifts [surface_1] by the two distances. *)
Theorem shift_is_applied_to_surface_1_only
    (name : string) (surface_to_roll : Z) (speed_x speed_y : R)
    (interpolation_mode : string) (model : ContactModel RollingSurface)
    (current_state kwargs : gmap string R) :
  match __init__ name surface_to_roll speed_x speed_y interpolation_mode with
  | inl e =>
      surface_to_roll <> 1%Z /\ surface_to_roll <> 2%Z /\
      e = ValueError ("Surface to roll should be either 1 or 2, got " ++
                      pretty surface_to_roll)
  | inr self =>
      let o := _solve shift self model current_state kwargs in
      (surface_to_roll = 1%Z \/ surface_to_roll = 2%Z) /\
      out_state o = current_state /\
      (surface_to_roll = 2%Z -> out_model o = model) /\
      (forall time_step vx vy,
          current_state !! "time_step" = Some time_step ->
          kwargs !! (name ++ "_shift_speed_x") = Some vx ->
          kwargs !! (name ++ "_shift_speed_y") = Some vy ->
          out_raised o = None /\
          (surface_to_roll = 2%Z -> out_model o = model) /\
          (surface_to_roll = 1%Z ->
           out_model o =
             {| surface_1 := shift (surface_1 model) (vy * time_step)%R
                                   (vx * time_step)%R;
                surface_2 := surface_2 model |}))
  end.
Proof.
  unfold __init__.
  destruct (bool_decide (surface_to_roll ∈ ({[1%Z; 2%Z]} : gset Z))) eqn:Hin;
    cbn [negb].
  - apply bool_decide_eq_true_1 in Hin.
    assert (Hs : surface_to_roll = 1%Z \/ surface_to_roll = 2%Z) by set_solver.
    cbn zeta. split; [exact Hs|].
    unfold _solve; cbn [ShiftSurface.name _surface_to_roll].
    split; [by repeat case_match|].
    split.
    { intros ->. by repeat case_match. }
    intros time_step vx vy -> -> ->.
    split; [by case_decide|].
    split; intros ->; reflexivity.
  - apply bool_decide_eq_false_1 in Hin.
    split; [set_solver|]. split; [set_solver | reflexivity].
Qed.

End shift_properties.

Section shift_examples.
Import ShiftSurface.

(** C10 on a sub-model built for surface 2. *)
Lemma shift_is_applied_to_surface_1_only_witness :
  let model := {| surface_1 := (0, 0)%R; surface_2 := (0, 0)%R |} in
  let state : gmap string R := {[ "time_step" := 2%R ]} in
  let kwargs : gmap string R :=
    {[ "roll_shift_speed_x" := 3%R; "roll_shift_speed_y" := 1%R ]} in
  exists self,
    __init__ "roll" 2 3 1 "linear" = inr self /\
    out_model (_solve shift_offset self model state kwargs) = model /\
    out_state (_solve shift_offset self model state kwargs) = state /\
    out_raised (_solve shift_offset self model state kwargs) = None.
Proof.
  intros model state kwargs.
  pose proof (shift_is_applied_to_surface_1_only offset_surface shift_offset
                "roll" 2 3 1 "linear" model state kwargs) as H.
  destruct (__init__ "roll" 2 3 1 "linear") as [e|self] eqn:Hinit.
  - destruct H as (_ & H & _). by destruct H.
  - destruct H as (_ & Hstate & Hmodel & Hreturn).
    exists self. split; [reflexivity|].
    split; [by apply Hmodel|]. split; [exact Hstate|].
    apply (Hreturn 2%R 3%R 1%R); vm_compute; reflexivity.
Defined.

End shift_examples.

(** * The closed-form solver on float64 values *)

Section float_solver.
Import SubSurfaceStress.
Local Open Scope R_scope.











Lemma fsub_nan_r (a : float64) : fsub a NaN = NaN.
Proof. by destruct a. Qed.









End float_solver.

(** * Further properties of the closed-form roots and the von Mises stress *)

Section roots_of_the_cubic.
Import SubSurfaceStress.
Local Open Scope R_scope.






(** X7.  The von Mises stress of lines 134-139 does not change when a
    pressure [h] is added to the three normal components, and scaling the
    tensor by [k] scales it by the absolute value of [k]; it is never
    negative. *)
Theorem von_mises_ignores_pressure_and_scales (xx yy zz xy yz xz h k : R) :
  von_mises (xx + h) (yy + h) (zz + h) xy yz xz = von_mises xx yy zz xy yz xz /\
  von_mises (k * xx) (k * yy) (k * zz) (k * xy) (k * yz) (k * xz)
    = Rabs k * von_mises xx yy zz xy yz xz /\
  0 <= von_mises xx yy zz xy yz xz.
Proof.
  unfold von_mises. repeat split.
  - f_equal. field.
  - rewrite <- sqrt_Rsqr_abs, <- sqrt_mult.
    + f_equal. unfold Rsqr. field.
    + apply Rle_0_sqr.
    + pose proof (pow2_ge_0 (xx - yy)). pose proof (pow2_ge_0 (yy - zz)).
      pose proof (pow2_ge_0 (zz - xx)). pose proof (pow2_ge_0 xy).
      pose proof (pow2_ge_0 yz). pose proof (pow2_ge_0 xz). lra.
  - apply sqrt_pos.
Qed.

End roots_of_the_cubic.

(** * The contract of [solve]: what it writes and what it leaves alone *)

Section solve_contract.
Import SubSurfaceStress.

Variable model_surface : Z -> option Surface.
Variable plan_multi_convolve : ndarray -> ndarray -> bool * bool -> conv_func.

Lemma elem_of_provided_keys (ns : list Z) (scs : list string) (k : string) :
  k ∈ provided_keys ns scs <->
  exists n sc, n ∈ ns /\ sc ∈ scs /\ k = state_key n sc.
Proof.
  unfold provided_keys. rewrite list_elem_of_bind. split.
  - intros (n & (sc & Hk & Hsc)%list_elem_of_bind & Hn).
    apply list_elem_of_singleton in Hk. by exists n, sc.
  - intros (n & sc & Hn & Hsc & ->). exists n. split; [|done].
    apply list_elem_of_bind. exists sc. split; [|done].
    by apply list_elem_of_singleton.
Qed.

Lemma init_declares_its_outputs (zs : option (list R)) (surface : int_or_seq)
    (name : string) (periodic_axes : bool * bool) (load_components : string)
    (stress_components : str_or_seq) (keep_kernels cuda_convolutions : bool)
    (self : SubsurfaceStress) :
  __init__ zs surface name periodic_axes load_components stress_components
       keep_kernels cuda_convolutions = inr self ->
  declares_its_outputs self.
Proof.
  unfold __init__. repeat case_match; try discriminate. by intros [= <-].
Qed.

Lemma get_conv_funcs_provides (self self' : SubsurfaceStress) (zs : list R)
    (ex : ndarray) (span : list nat) (n : Z) (surface : Surface) (l : string)
    (r : Res (odict conv_func)) :
  get_conv_funcs plan_multi_convolve self zs ex span n surface l = (self', r) ->
  provides self' = provides self.
Proof.
  unfold get_conv_funcs, store_conv_funcs.
  repeat case_match; by intros [= <- <-].
Qed.

Lemma load_loop_provides (self self' : SubsurfaceStress) (zs : list R)
    (ex : ndarray) (span sh : list nat) (st : gmap string ndarray) (n : Z)
    (surface : Surface) (l_comps : list string) (ir : odict ndarray)
    (r : Res (odict ndarray)) :
  load_loop plan_multi_convolve self zs ex span sh st n surface l_comps ir
    = (self', r) ->
  provides self' = provides self.
Proof.
  revert self ir. induction l_comps as [|l l_comps IH]; intros self ir; cbn.
  - by intros [= <- <-].
  - destruct (get_conv_funcs _ self zs ex span n surface l)
      as [self1 [e|cf]] eqn:Hget; apply get_conv_funcs_provides in Hget.
    + by intros [= <- <-].
    + destruct (accumulate sh st l cf ir) as [e|ir1]; [by intros [= <- <-]|].
      intros Hloop%IH. congruence.
Qed.

(** What a round of the loop over the surfaces leaves behind. *)
Lemma solve_surface_cases (self : SubsurfaceStress) (zs : list R)
    (ex : ndarray) (span sh : list nat) (st : gmap string ndarray) (n : Z) :
  let o := solve_surface model_surface plan_multi_convolve self zs ex span sh st n in
  same_configuration self (out_self o) /\
  provides (out_self o) = provides self /\
  ((is_Some (out_raised o) /\ out_state o = st) \/
   (out_raised o = None /\
    exists ir', out_state o = write_results sh n (stress_components self) ir' st)).
Proof.
  unfold solve_surface.
  destruct (model_surface n) as [surface|];
    [|split; [apply same_configuration_refl|]; split; [done|]; left; by split].
  destruct (negb _);
    [split; [apply same_configuration_refl|]; split; [done|]; left; by split|].
  destruct (load_loop _ _ _ _ _ _ _ _ _ _ _) as [self1 r] eqn:Hloop.
  pose proof Hloop as Hsame. apply load_loop_same in Hsame.
  pose proof Hloop as Hprov. apply load_loop_provides in Hprov.
  destruct r as [e|ir]; [split; [done|]; split; [done|]; left; by split|].
  destruct (principal_step _ _ _) as [e|ir'];
    [split; [done|]; split; [done|]; left; by split|].
  split; [done|]. split; [done|]. right. split; [done|]. exists ir'.
  cbn. by destruct Hsame as (_ & -> & _).
Qed.

Lemma write_results_keeps (sh : list nat) (n : Z) (keys : list string)
    (ir : odict ndarray) (st : gmap string ndarray) (k : string) :
  is_Some (st !! k) -> is_Some (write_results sh n keys ir st !! k).
Proof.
  revert ir st. induction keys as [|key keys IH]; intros ir st Hk; cbn; [done|].
  destruct (dd_get sh key ir) as [v ir1]. apply IH.
  destruct (decide (state_key n key = k)) as [<-|Hne].
  - rewrite lookup_insert_eq. by eexists.
  - by rewrite lookup_insert_ne.
Qed.

Lemma solve_surfaces_untouched (self : SubsurfaceStress) (zs : list R)
    (ex : ndarray) (span sh : list nat) (st : gmap string ndarray)
    (ns : list Z) (k : string) :
  let o := solve_surfaces model_surface plan_multi_convolve self zs ex span sh st ns in
  same_configuration self (out_self o) /\
  provides (out_self o) = provides self /\
  (is_Some (st !! k) -> is_Some (out_state o !! k)) /\
  ((forall n sc, n ∈ ns -> sc ∈ stress_components self -> state_key n sc <> k) ->
   out_state o !! k = st !! k).
Proof.
  revert self st. induction ns as [|n ns IH]; intros self st; cbn.
  - split; [apply same_configuration_refl|]. by repeat split.
  - destruct (solve_surface_cases self zs ex span sh st n)
      as (Hsame & Hprov & Hcases).
    set (o1 := solve_surface model_surface plan_multi_convolve self zs ex span
                 sh st n) in *.
    assert (Hkeep : is_Some (st !! k) -> is_Some (out_state o1 !! k)).
    { destruct Hcases as [[_ ->]|[_ [ir' ->]]]; [done|].
      apply write_results_keeps. }
    assert (Hframe : (forall sc, sc ∈ stress_components self ->
                                 state_key n sc <> k) ->
                     out_state o1 !! k = st !! k).
    { intros Hk. destruct Hcases as [[_ ->]|[_ [ir' ->]]]; [done|].
      by apply write_results_other. }
    destruct (out_raised o1) as [e|] eqn:Hr.
    + split; [done|]. split; [done|]. split; [done|].
      intros Hk. apply Hframe. intros sc Hsc. apply Hk; [by left | done].
    + destruct (IH (out_self o1) (out_state o1))
        as (Hsame' & Hprov' & Hkeep' & Hframe').
      split; [by eapply same_configuration_trans|].
      split; [congruence|]. split; [auto|].
      intros Hk. rewrite Hframe'.
      * apply Hframe. intros sc Hsc. apply Hk; [by left | done].
      * destruct Hsame as (_ & -> & _). intros n' sc Hn' Hsc.
        apply Hk; [by right | done].
Qed.

(** X3.  [solve] changes no key outside the declared [provides] set,
    removes no key, and leaves the declared sets as they are. *)
Theorem solve_leaves_other_keys_alone (self : SubsurfaceStress)
    (current_state : gmap string ndarray) :
  declares_its_outputs self ->
  let o := solve model_surface plan_multi_convolve self current_state in
  (forall k, k ∉ provides self -> out_state o !! k = current_state !! k) /\
  (forall k, is_Some (current_state !! k) -> is_Some (out_state o !! k)) /\
  declares_its_outputs (out_self o).
Proof.
  intros Hdecl. unfold solve.
  destruct (chars (load_components self)) as [|l0 ls]; [done|].
  destruct (current_state !! ("loads_" ++ l0)) as [ex|]; [|done].
  destruct (z self) as [zs|]; [|done].
  cbn zeta. split; [|split].
  - intros k Hk.
    destruct (solve_surfaces_untouched self zs ex (shape ex)
                (length zs :: shape ex) current_state (surfaces self) k)
      as (_ & _ & _ & Hframe).
    apply Hframe. intros n sc Hn Hsc Heq. apply Hk. rewrite Hdecl.
    apply elem_of_list_to_set, elem_of_provided_keys. by exists n, sc.
  - intros k.
    by destruct (solve_surfaces_untouched self zs ex (shape ex)
                   (length zs :: shape ex) current_state (surfaces self) k)
      as (_ & _ & Hkeep & _).
  - destruct (solve_surfaces_untouched self zs ex (shape ex)
                (length zs :: shape ex) current_state (surfaces self) "")
      as ((_ & Hsc & _ & Hsurf & _) & Hprov & _).
    unfold declares_its_outputs. by rewrite Hprov, Hsc, Hsurf.
Qed.

Lemma shaped_nil (sh : list nat) : shaped sh [].
Proof. by intros k v. Qed.

Lemma shaped_set (sh : list nat) (k : string) (v : ndarray) (ir : odict ndarray) :
  shape v = sh -> shaped sh ir -> shaped sh (od_set k v ir).
Proof.
  intros Hv Hir k' v'. destruct (decide (k = k')) as [<-|Hne].
  - rewrite od_lookup_set_eq. by intros [= <-].
  - rewrite od_lookup_set_ne by done. apply Hir.
Qed.

Lemma shaped_get (sh : list nat) (k : string) (ir ir' : odict ndarray)
    (v : ndarray) :
  shaped sh ir -> dd_get sh k ir = (v, ir') -> shape v = sh /\ shaped sh ir'.
Proof.
  intros Hir. unfold dd_get. destruct (od_lookup k ir) as [w|] eqn:Hk;
    intros [= <- <-].
  - split; [by eapply Hir | done].
  - split; [done|]. by apply shaped_set.
Qed.

Lemma accumulate_shaped (sh : list nat) (st : gmap string ndarray)
    (l : string) (cf : odict conv_func) (ir ir' : odict ndarray) :
  shaped sh ir -> accumulate sh st l cf ir = inr ir' -> shaped sh ir'.
Proof.
  revert ir. induction cf as [|[key f] cf IH]; intros ir Hir; cbn.
  - by intros [= <-].
  - destruct (st !! ("loads_" ++ l)) as [loads|]; [|done].
    destruct (dd_get sh key ir) as [acc ir1] eqn:Hget.
    apply shaped_get in Hget as (Hacc & Hir1); [|done].
    apply IH. by apply shaped_set.
Qed.

Lemma load_loop_shaped (self self' : SubsurfaceStress) (zs : list R)
    (ex : ndarray) (span sh : list nat) (st : gmap string ndarray) (n : Z)
    (surface : Surface) (l_comps : list string) (ir ir' : odict ndarray) :
  shaped sh ir ->
  load_loop plan_multi_convolve self zs ex span sh st n surface l_comps ir
    = (self', inr ir') ->
  shaped sh ir'.
Proof.
  revert self ir. induction l_comps as [|l l_comps IH]; intros self ir Hir; cbn.
  - by intros [= <- <-].
  - destruct (get_conv_funcs _ self zs ex span n surface l) as [self1 [e|cf]];
      [done|].
    destruct (accumulate sh st l cf ir) as [e|ir1] eqn:Hacc; [done|].
    apply accumulate_shaped in Hacc; [|done]. by apply IH.
Qed.

Lemma von_mises_step_shaped (self : SubsurfaceStress) (sh : list nat)
    (ir : odict ndarray) :
  shaped sh ir -> shaped sh (von_mises_step self sh ir).
Proof.
  intros Hir. unfold von_mises_step. case_match; [|done].
  destruct (dd_get sh "xx" ir) as [xx ir1] eqn:Exx.
  apply shaped_get in Exx as (Hxx & Hir1); [|done].
  destruct (dd_get sh "yy" ir1) as [yy ir2] eqn:Eyy.
  apply shaped_get in Eyy as (_ & Hir2); [|done].
  destruct (dd_get sh "zz" ir2) as [zz ir3] eqn:Ezz.
  apply shaped_get in Ezz as (_ & Hir3); [|done].
  destruct (dd_get sh "xy" ir3) as [xy ir4] eqn:Exy.
  apply shaped_get in Exy as (_ & Hir4); [|done].
  destruct (dd_get sh "yz" ir4) as [yz ir5] eqn:Eyz.
  apply shaped_get in Eyz as (_ & Hir5); [|done].
  destruct (dd_get sh "xz" ir5) as [xz ir6] eqn:Exz.
  apply shaped_get in Exz as (_ & Hir6); [|done].
  by apply shaped_set.
Qed.

Lemma principal_step_shaped (self : SubsurfaceStress) (sh : list nat)
    (ir ir' : odict ndarray) :
  shaped sh ir -> principal_step self sh ir = inr ir' -> shaped sh ir'.
Proof.
  intros Hir. unfold principal_step. case_match; [|by intros [= <-]].
  destruct (dd_get sh "xx" ir) as [xx ir1] eqn:Exx.
  apply shaped_get in Exx as (Hxx & Hir1); [|done].
  destruct (dd_get sh "yy" ir1) as [yy ir2] eqn:Eyy.
  apply shaped_get in Eyy as (_ & Hir2); [|done].
  destruct (dd_get sh "zz" ir2) as [zz ir3] eqn:Ezz.
  apply shaped_get in Ezz as (_ & Hir3); [|done].
  destruct (dd_get sh "xy" ir3) as [xy ir4] eqn:Exy.
  apply shaped_get in Exy as (_ & Hir4); [|done].
  destruct (dd_get sh "xz" ir4) as [xz ir5] eqn:Exz.
  apply shaped_get in Exz as (_ & Hir5); [|done].
  destruct (dd_get sh "yz" ir5) as [yz ir6] eqn:Eyz.
  apply shaped_get in Eyz as (_ & Hir6); [|done].
  destruct (prune_loop _ _ _ ir6) as [e|kept] eqn:Hprune; [done|].
  apply prune_loop_keeps in Hprune. subst kept. intros [= <-].
  match goal with |- shaped sh (store_principals sh ?p ?q ?b ir6) =>
    destruct (store_principals_spec sh p q b ir6) as (S1 & S2 & S3 & Sother)
  end.
  intros k v Hk.
  destruct (decide (k = "1")) as [->|H1];
    [rewrite S1 in Hk; by injection Hk as <-|].
  destruct (decide (k = "2")) as [->|H2];
    [rewrite S2 in Hk; by injection Hk as <-|].
  destruct (decide (k = "3")) as [->|H3];
    [rewrite S3 in Hk; by injection Hk as <-|].
  rewrite Sother in Hk by done. by eapply Hir6.
Qed.

Lemma dd_val_shaped (sh : list nat) (k : string) (ir : odict ndarray) :
  shaped sh ir -> shape (dd_val sh k ir) = sh.
Proof.
  intros Hir. rewrite dd_val_lookup.
  destruct (od_lookup k ir) as [v|] eqn:Hk; [by eapply Hir | done].
Qed.

(** A round that returns has written, for each requested component, an
    array of the output shape. *)
Lemma solve_surface_outputs (self : SubsurfaceStress) (zs : list R)
    (ex : ndarray) (span sh : list nat) (st : gmap string ndarray) (n : Z)
    (sc : string) :
  let o := solve_surface model_surface plan_multi_convolve self zs ex span sh st n in
  out_raised o = None -> sc ∈ stress_components self ->
  exists v, out_state o !! state_key n sc = Some v /\ shape v = sh.
Proof.
  intros o Hret Hsc.
  destruct (solve_surface_returns model_surface plan_multi_convolve self zs ex
              span sh st n Hret)
    as (surface & ir & ir' & _ & Hloop & Hstep & Hstate).
  fold o in Hloop, Hstep, Hstate.
  pose proof Hloop as Hsame. apply load_loop_same in Hsame as (_ & Hscs & _).
  apply load_loop_shaped in Hloop; [|apply shaped_nil].
  apply principal_step_shaped in Hstep; [|by apply von_mises_step_shaped].
  exists (dd_val sh sc ir'). rewrite Hstate, Hscs.
  split; [by apply write_results_lookup | by apply dd_val_shaped].
Qed.

Lemma solve_surfaces_outputs (self : SubsurfaceStress) (zs : list R)
    (ex : ndarray) (span sh : list nat) (st : gmap string ndarray)
    (ns : list Z) (n : Z) (sc : string) :
  let o := solve_surfaces model_surface plan_multi_convolve self zs ex span sh st ns in
  out_raised o = None -> sc ∈ stress_components self ->
  n ∈ ns \/ (exists v, st !! state_key n sc = Some v /\ shape v = sh) ->
  exists v, out_state o !! state_key n sc = Some v /\ shape v = sh.
Proof.
  revert self st. induction ns as [|n0 ns IH]; intros self st; cbn.
  - intros _ _ [Hn|Hn]; [by apply elem_of_nil in Hn | done].
  - pose proof (solve_surface_outputs self zs ex span sh st n0 sc) as Hround.
    pose proof (solve_surface_frame model_surface plan_multi_convolve self zs
                  ex span sh st n0 n sc) as Hframe.
    destruct (solve_surface_cases self zs ex span sh st n0)
      as ((_ & Hscs & _) & _ & _).
    destruct (out_raised (solve_surface _ _ self zs ex span sh st n0))
      as [e|] eqn:Hr.
    { intros Hret. by rewrite Hr in Hret. }
    intros Hret Hsc Hn. apply IH; [exact Hret | by rewrite Hscs |].
    destruct (decide (n ∈ ns)) as [|Hout]; [by left | right].
    destruct (decide (n = n0)) as [->|Hne]; [by apply Hround|].
    destruct Hn as [Hn|Hn].
    + apply elem_of_cons in Hn as [?|?]; done.
    + rewrite Hframe by congruence. exact Hn.
Qed.

(** X4.  When [solve] returns, every key of the declared [provides] set
    holds an array of shape [(len(z),) + loads.shape]. *)
Theorem returned_state_holds_every_output (self : SubsurfaceStress)
    (current_state : gmap string ndarray) (zs : list R) (l0 : string)
    (example_loads : ndarray) (k : string) :
  let o := solve model_surface plan_multi_convolve self current_state in
  declares_its_outputs self ->
  z self = Some zs ->
  head (chars (load_components self)) = Some l0 ->
  current_state !! ("loads_" ++ l0) = Some example_loads ->
  out_raised o = None ->
  k ∈ provides self ->
  exists v, out_state o !! k = Some v /\
            shape v = length zs :: shape example_loads.
Proof.
  intros o Hdecl Hz Hl0 Hex Hret Hk. subst o. unfold solve in *.
  destruct (chars (load_components self)) as [|l ls]; [done|].
  injection Hl0 as ->. rewrite Hex, Hz in *.
  rewrite Hdecl in Hk.
  apply elem_of_list_to_set, elem_of_provided_keys in Hk
    as (n & sc & Hn & Hsc & ->).
  apply solve_surfaces_outputs; [done | done | by left].
Qed.

Lemma load_loop_without_cache (self self' : SubsurfaceStress) (zs : list R)
    (ex : ndarray) (span sh : list nat) (st : gmap string ndarray) (n : Z)
    (surface : Surface) (l_comps : list string) (ir : odict ndarray)
    (r : Res (odict ndarray)) :
  keep_kernels self = false ->
  load_loop plan_multi_convolve self zs ex span sh st n surface l_comps ir
    = (self', r) ->
  self' = self.
Proof.
  intros Hkeep. revert ir. induction l_comps as [|l l_comps IH]; intros ir; cbn.
  - by intros [= <- <-].
  - unfold get_conv_funcs. rewrite Hkeep. cbn [andb].
    destruct (influence_matrices self zs span surface l) as [e|im];
      [by intros [= <- <-]|].
    destruct (accumulate sh st l _ ir) as [e|ir1]; [by intros [= <- <-]|].
    apply IH.
Qed.

Lemma solve_without_cache (self : SubsurfaceStress)
    (current_state : gmap string ndarray) :
  keep_kernels self = false ->
  out_self (solve model_surface plan_multi_convolve self current_state) = self.
Proof.
  intros Hkeep. unfold solve.
  destruct (chars (load_components self)) as [|l0 ls]; [done|].
  destruct (current_state !! ("loads_" ++ l0)) as [ex|]; [|done].
  destruct (z self) as [zs|]; [|done].
  generalize (shape ex) (length zs :: shape ex) current_state.
  induction (surfaces self) as [|n ns IH]; intros span sh st; cbn; [done|].
  assert (Hround : out_self (solve_surface model_surface plan_multi_convolve
                               self zs ex span sh st n) = self).
  { unfold solve_surface.
    destruct (model_surface n) as [surface|]; [|done].
    destruct (negb _); [done|].
    destruct (load_loop _ _ _ _ _ _ _ _ _ _ _) as [self1 r] eqn:Hloop.
    apply load_loop_without_cache in Hloop; [|done]. subst self1.
    destruct r as [e|ir]; [done|]. by destruct (principal_step _ _ _). }
  destruct (out_raised _); [done|]. rewrite Hround. apply IH.
Qed.

(** X12.  With [keep_kernels=False], [solve] leaves the sub-model object
    exactly as it was: no kernel is stored and no span is recorded. *)
Theorem solve_without_cache_keeps_the_object (self : SubsurfaceStress)
    (current_state : gmap string ndarray) :
  keep_kernels self = false ->
  out_self (solve model_surface plan_multi_convolve self current_state) = self.
Proof. apply solve_without_cache. Qed.

(** [solve] leaves alone every key that is not the key of a configured
    surface and stress component. *)
Lemma solve_untouched (self : SubsurfaceStress)
    (current_state : gmap string ndarray) (k : string) :
  let o := solve model_surface plan_multi_convolve self current_state in
  same_configuration self (out_self o) /\
  ((forall n sc, n ∈ surfaces self -> sc ∈ stress_components self ->
                 state_key n sc <> k) ->
   out_state o !! k = current_state !! k).
Proof.
  unfold solve.
  destruct (chars (load_components self)) as [|l0 ls];
    [split; [apply same_configuration_refl | done]|].
  destruct (current_state !! ("loads_" ++ l0)) as [ex|];
    [|split; [apply same_configuration_refl | done]].
  destruct (z self) as [zs|];
    [|split; [apply same_configuration_refl | done]].
  by destruct (solve_surfaces_untouched self zs ex (shape ex)
                 (length zs :: shape ex) current_state (surfaces self) k)
    as (Hsame & _ & _ & Hframe).
Qed.

End solve_contract.

(** * One surface and one load direction: the cache is transparent *)

Section single_pair.
Import SubSurfaceStress.

Variable model_surface : Z -> option Surface.
Variable plan_multi_convolve : ndarray -> ndarray -> bool * bool -> conv_func.

Lemma von_mises_step_settings (a b : SubsurfaceStress) (sh : list nat)
    (ir : odict ndarray) :
  stress_components a = stress_components b ->
  von_mises_step a sh ir = von_mises_step b sh ir.
Proof. unfold von_mises_step. by intros ->. Qed.

Lemma principal_step_settings (a b : SubsurfaceStress) (sh : list nat)
    (ir : odict ndarray) :
  stress_components a = stress_components b ->
  principal_step a sh ir = principal_step b sh ir.
Proof. unfold principal_step. by intros ->. Qed.

(** Two objects with the same settings whose convolution functions for the
    only pair agree produce the same state and the same exception. *)
Lemma solve_single_pair_agrees (a b : SubsurfaceStress)
    (st : gmap string ndarray) (l : string) (n : Z) :
  same_settings a b ->
  chars (load_components a) = [l] -> surfaces a = [n] ->
  (forall zs ex surface,
      z a = Some zs -> st !! ("loads_" ++ l) = Some ex ->
      model_surface n = Some surface ->
      (get_conv_funcs plan_multi_convolve a zs ex (shape ex) n surface l).2
      = (get_conv_funcs plan_multi_convolve b zs ex (shape ex) n surface l).2) ->
  out_state (solve model_surface plan_multi_convolve a st)
  = out_state (solve model_surface plan_multi_convolve b st) /\
  out_raised (solve model_surface plan_multi_convolve a st)
  = out_raised (solve model_surface plan_multi_convolve b st).
Proof.
  intros (Hlc & Hsc & Hsurf & Hz) Hchars Hn Hget.
  unfold solve. rewrite <- Hlc, <- Hz, <- Hsurf, Hchars, Hn.
  destruct (st !! ("loads_" ++ l)) as [ex|] eqn:Hex; [|done].
  destruct (z a) as [zs|] eqn:Hza; [|done].
  cbn. unfold solve_surface.
  destruct (model_surface n) as [surface|] eqn:Hmodel; [|done].
  destruct (negb _); [done|].
  rewrite <- Hlc, Hchars. cbn.
  specialize (Hget zs ex surface eq_refl eq_refl eq_refl).
  destruct (get_conv_funcs _ a zs ex (shape ex) n surface l)
    as [a1 ra] eqn:Ha.
  destruct (get_conv_funcs _ b zs ex (shape ex) n surface l)
    as [b1 rb] eqn:Hb.
  cbn in Hget. subst rb.
  apply get_conv_funcs_same in Ha as (_ & Ha & _).
  apply get_conv_funcs_same in Hb as (_ & Hb & _).
  assert (Hsc1 : stress_components a1 = stress_components b1) by congruence.
  destruct ra as [e|cf]; [done|].
  destruct (accumulate _ st l cf []) as [e|ir]; [done|].
  rewrite (von_mises_step_settings a1 b1) by done.
  rewrite (principal_step_settings a1 b1) by done.
  destruct (principal_step b1 _ _) as [e|ir']; [done|].
  cbn. by rewrite Hsc1.
Qed.

Lemma state_key_is_no_load_key (n : Z) (sc l : string) :
  state_key n sc <> "loads_" ++ l.
Proof. unfold state_key. cbv [String.append]. discriminate. Qed.

(** A first lookup that misses the cache builds what a sub-model without
    cache builds. *)
Lemma miss_agrees (a b : SubsurfaceStress) (zs : list R) (ex : ndarray)
    (span : list nat) (n : Z) (surface : Surface) (l : string) :
  same_requests a b -> keep_kernels a = true -> keep_kernels b = false ->
  _cache_span a <> span -> is_Some (_kernel_cache a !! n) ->
  (get_conv_funcs plan_multi_convolve a zs ex span n surface l).2
  = (get_conv_funcs plan_multi_convolve b zs ex span n surface l).2.
Proof.
  intros (Hc & Hcuda & Hper) Ha Hb Hspan [m Hm].
  unfold get_conv_funcs. rewrite Ha, Hb. cbn [andb].
  rewrite bool_decide_eq_false_2 by congruence.
  unfold influence_matrices. rewrite Hc, Hcuda, Hper.
  repeat case_decide; try done;
    unfold store_conv_funcs; cbn [_kernel_cache set_cache_span];
    by rewrite Hm.
Qed.

(** After that first lookup, a second one for the same span reads from the
    cache what a sub-model without cache builds again. *)
Lemma hit_agrees (a b : SubsurfaceStress) (zs : list R) (ex : ndarray)
    (span : list nat) (n : Z) (surface : Surface) (l : string) :
  same_requests a b -> keep_kernels a = true -> keep_kernels b = false ->
  _cache_span a <> span -> is_Some (_kernel_cache a !! n) ->
  (get_conv_funcs plan_multi_convolve
     (get_conv_funcs plan_multi_convolve a zs ex span n surface l).1
     zs ex span n surface l).2
  = (get_conv_funcs plan_multi_convolve b zs ex span n surface l).2.
Proof.
  intros Hreq Ha Hb Hspan Hn.
  rewrite <- (miss_agrees a b zs ex span n surface l) by done.
  destruct Hn as [m Hm].
  unfold get_conv_funcs at 2 3. rewrite Ha. cbn [andb].
  rewrite bool_decide_eq_false_2 by congruence.
  destruct (influence_matrices a zs span surface l) as [e|im] eqn:Him.
  - cbn [fst snd]. unfold get_conv_funcs. rewrite Ha. cbn [andb].
    rewrite bool_decide_eq_false_2 by congruence. by rewrite Him.
  - cbv zeta. unfold store_conv_funcs. cbn [_kernel_cache set_cache_span].
    rewrite Hm. cbn [fst snd]. unfold get_conv_funcs.
    cbn [keep_kernels _cache_span _kernel_cache set_kernel_cache set_cache_span].
    rewrite Ha. cbn [andb]. rewrite bool_decide_eq_true_2 by done.
    by rewrite !lookup_insert_eq.
Qed.

(** For one surface and one load direction, the object [solve] leaves
    behind is the one left by the only lookup of convolution functions, if
    that lookup was reached. *)
Lemma out_self_single_pair (a : SubsurfaceStress) (st : gmap string ndarray)
    (l : string) (n : Z) :
  chars (load_components a) = [l] -> surfaces a = [n] ->
  out_self (solve model_surface plan_multi_convolve a st) = a \/
  exists zs ex surface,
    z a = Some zs /\ st !! ("loads_" ++ l) = Some ex /\
    model_surface n = Some surface /\
    out_self (solve model_surface plan_multi_convolve a st)
    = (get_conv_funcs plan_multi_convolve a zs ex (shape ex) n surface l).1.
Proof.
  intros Hchars Hn. unfold solve. rewrite Hchars, Hn.
  destruct (st !! ("loads_" ++ l)) as [ex|] eqn:Hex; [|by left].
  destruct (z a) as [zs|] eqn:Hz; [|by left].
  cbn. unfold solve_surface.
  destruct (model_surface n) as [surface|] eqn:Hmodel; [|by left].
  destruct (negb _); [by left|].
  right. exists zs, ex, surface. do 3 (split; [done|]).
  rewrite Hchars. cbn.
  destruct (get_conv_funcs _ a zs ex (shape ex) n surface l) as [a1 [e|cf]];
    [done|].
  destruct (accumulate _ st l cf []) as [e|ir]; [done|].
  by destruct (principal_step a1 _ _).
Qed.

(** X13.  A sub-model for one surface and one load direction that keeps its
    kernels, called twice on a state whose loads do not have the recorded
    span, writes the same state and raises the same exception, on both
    calls, as a sub-model with the same settings that keeps no kernels. *)
Theorem cache_is_transparent_for_a_single_pair (a b : SubsurfaceStress)
    (current_state : gmap string ndarray) (l : string) (n : Z) :
  same_settings a b -> same_requests a b ->
  keep_kernels a = true -> keep_kernels b = false ->
  chars (load_components a) = [l] -> surfaces a = [n] ->
  is_Some (_kernel_cache a !! n) ->
  (forall ex, current_state !! ("loads_" ++ l) = Some ex ->
              _cache_span a <> shape ex) ->
  let run := solve model_surface plan_multi_convolve in
  let o1 := run a current_state in
  let r1 := run b current_state in
  let o2 := run (out_self o1) (out_state o1) in
  let r2 := run (out_self r1) (out_state r1) in
  out_state o1 = out_state r1 /\ out_raised o1 = out_raised r1 /\
  out_state o2 = out_state r2 /\ out_raised o2 = out_raised r2.
Proof.
  intros Hset Hreq Ha Hb Hchars Hn Hcache Hspan run o1 r1 o2 r2.
  assert (Hfirst : out_state o1 = out_state r1 /\ out_raised o1 = out_raised r1).
  { apply (solve_single_pair_agrees a b current_state l n); try done.
    intros zs ex surface _ Hex _. apply miss_agrees; auto. }
  destruct Hfirst as (Hstate & Hraised). split; [done|]. split; [done|].
  assert (Hr1 : out_self r1 = b) by by apply solve_without_cache.
  subst o2 r2. rewrite Hr1, <- Hstate. clear Hr1 Hstate Hraised.
  destruct (solve_untouched model_surface plan_multi_convolve a current_state ("loads_" ++ l))
    as ((Hlc & Hsc & _ & Hsurf & Hz & _) & Hloads).
  fold run in Hlc, Hsc, Hsurf, Hz, Hloads. fold o1 in Hlc, Hsc, Hsurf, Hz, Hloads.
  specialize (Hloads (fun n' sc _ _ => state_key_is_no_load_key n' sc l)).
  destruct Hset as (Hlc' & Hsc' & Hsurf' & Hz').
  apply (solve_single_pair_agrees (out_self o1) b (out_state o1) l n).
  - repeat split; congruence.
  - congruence.
  - congruence.
  - intros zs ex surface Hzs Hex Hmodel. rewrite Hloads in Hex.
    assert (Hzs' : z a = Some zs) by congruence.
    destruct (out_self_single_pair a current_state l n Hchars Hn)
      as [Hsame|(zs0 & ex0 & surface0 & Hzs0 & Hex0 & Hmodel0 & Hself)];
      fold run in Hsame || fold run in Hself;
      fold o1 in Hsame || fold o1 in Hself.
    + rewrite Hsame. apply miss_agrees; auto.
    + rewrite Hself.
      assert (zs0 = zs) by congruence. assert (ex0 = ex) by congruence.
      assert (surface0 = surface) by congruence. subst.
      apply hit_agrees; auto.
Qed.

End single_pair.

(** * What the constructor lets through *)

Section accepted_requests.
Import SubSurfaceStress.

Lemma str_in_xz (a : Ascii.ascii) :
  str_in (String a EmptyString) "xz" = true <->
  String a EmptyString = "x" \/ String a EmptyString = "z".
Proof.
  destruct a as [[] [] [] [] [] [] [] []]; vm_compute;
    (split; [intros H; first [discriminate H | by left | by right]
            | intros [H|H]; first [discriminate H | reflexivity]]).
Qed.

Lemma check_load_components_chars (s : string) :
  match check_load_components (chars s) with
  | inr _ => forall l, l ∈ chars s -> l = "x" \/ l = "z"
  | inl e => exc_class e = "ValueError" /\
             ~ (forall l, l ∈ chars s -> l = "x" \/ l = "z")
  end.
Proof.
  induction s as [|a s IH]; cbn [chars check_load_components].
  - intros l Hl. by apply elem_of_nil in Hl.
  - destruct (str_in (String a EmptyString) "xz") eqn:Ha.
    + destruct (check_load_components (chars s)) as [e|[]].
      * destruct IH as (Hc & Hn). split; [done|]. intros Hall. apply Hn.
        intros l Hl. apply Hall. by right.
      * intros l [->|Hl]%elem_of_cons; [by apply str_in_xz | by apply IH].
    + split; [done|]. intros Hall.
      assert (str_in (String a EmptyString) "xz" = true)
        by (apply str_in_xz, Hall; by left).
      congruence.
Qed.

Lemma check_stress_components_spec (scs : list string) :
  match check_stress_components scs with
  | inr _ => forall sc, sc ∈ scs -> sc ∈ valid_stresses
  | inl e => exc_class e = "ValueError" /\
             ~ (forall sc, sc ∈ scs -> sc ∈ valid_stresses)
  end.
Proof.
  induction scs as [|sc0 scs IH]; cbn [check_stress_components].
  - intros sc Hsc. by apply elem_of_nil in Hsc.
  - destruct (tuple_in sc0 valid_stresses) eqn:H0.
    + apply bool_decide_eq_true_1 in H0.
      destruct (check_stress_components scs) as [e|[]].
      * destruct IH as (Hc & Hn). split; [done|]. intros Hall. apply Hn.
        intros sc Hsc. apply Hall. by right.
      * intros sc [->|Hsc]%elem_of_cons; [done | by apply IH].
    + apply bool_decide_eq_false_1 in H0.
      split; [done|]. intros Hall. apply H0, Hall. by left.
Qed.

Lemma init_request_check
    (z0 : option (list R)) (surface : int_or_seq) (name : string)
    (periodic_axes : bool * bool) (load_components : string)
    (stress_components : str_or_seq) (keep_kernels cuda_convolutions : bool) :
  let valid_request :=
    (forall l, l ∈ chars load_components -> l = "x" \/ l = "z") /\
    (forall sc, sc ∈ component_seq stress_components -> sc ∈ valid_stresses) in
  match __init__ z0 surface name periodic_axes load_components
               stress_components keep_kernels cuda_convolutions with
  | inr self =>
      valid_request /\
      self = make z0 (surface_seq surface) name periodic_axes load_components
               (component_seq stress_components) keep_kernels cuda_convolutions
  | inl e => exc_class e = "ValueError" /\ ~ valid_request
  end.
Proof.
  unfold __init__.
  pose proof (check_load_components_chars load_components) as Hlc.
  pose proof (check_stress_components_spec (component_seq stress_components))
    as Hsc.
  destruct (check_load_components (chars load_components)) as [e|[]].
  { destruct Hlc as (Hc & Hn). split; [done|]. intros (Hl & _). by apply Hn. }
  destruct (check_stress_components (component_seq stress_components))
    as [e|[]].
  { destruct Hsc as (Hc & Hn). split; [done|]. intros (_ & Hs). by apply Hn. }
  done.
Qed.

(** X1.  [__init__] raises [ValueError] unless every load direction is 'x'
    or 'z' and every stress component is one of the ten valid names; then
    it builds the object.  The direction 'y' is refused. *)
Theorem init_accepts_exactly_the_valid_requests
    (z0 : option (list R)) (surface : int_or_seq) (name : string)
    (periodic_axes : bool * bool) (load_components : string)
    (stress_components : str_or_seq) (keep_kernels cuda_convolutions : bool) :
  let valid_request :=
    (forall l, l ∈ chars load_components -> l = "x" \/ l = "z") /\
    (forall sc, sc ∈ component_seq stress_components -> sc ∈ valid_stresses) in
  match __init__ z0 surface name periodic_axes load_components
               stress_components keep_kernels cuda_convolutions with
  | inr self =>
      valid_request /\
      self = make z0 (surface_seq surface) name periodic_axes load_components
               (component_seq stress_components) keep_kernels cuda_convolutions
  | inl e => exc_class e = "ValueError" /\ ~ valid_request
  end.
Proof. apply init_request_check. Qed.

End accepted_requests.

(** * The von Mises stress that [solve] writes *)

Section written_von_mises.
Import SubSurfaceStress.

Variable model_surface : Z -> option Surface.
Variable plan_multi_convolve : ndarray -> ndarray -> bool * bool -> conv_func.

Lemma von_mises_step_spec (self : SubsurfaceStress) (sh : list nat)
    (ir : odict ndarray) :
  "vm" ∈ stress_components self ->
  let ir' := von_mises_step self sh ir in
  dd_val sh "vm" ir'
  = lift6 von_mises (dd_val sh "xx" ir') (dd_val sh "yy" ir')
      (dd_val sh "zz" ir') (dd_val sh "xy" ir') (dd_val sh "yz" ir')
      (dd_val sh "xz" ir').
Proof.
  intros Hvm. unfold von_mises_step, tuple_in.
  rewrite (bool_decide_eq_true_2 _ Hvm).
  destruct (dd_get sh "xx" ir) as [xx ir1] eqn:Exx.
  destruct (dd_get sh "yy" ir1) as [yy ir2] eqn:Eyy.
  destruct (dd_get sh "zz" ir2) as [zz ir3] eqn:Ezz.
  destruct (dd_get sh "xy" ir3) as [xy ir4] eqn:Exy.
  destruct (dd_get sh "yz" ir4) as [yz ir5] eqn:Eyz.
  destruct (dd_get sh "xz" ir5) as [xz ir6] eqn:Exz.
  apply dd_get_spec in Exx as (_ & Hxx & _).
  apply dd_get_spec in Eyy as (_ & Hyy & Hyy').
  apply dd_get_spec in Ezz as (_ & Hzz & Hzz').
  apply dd_get_spec in Exy as (_ & Hxy & Hxy').
  apply dd_get_spec in Eyz as (_ & Hyz & Hyz').
  apply dd_get_spec in Exz as (_ & Hxz & Hxz').
  cbv zeta.
  rewrite (dd_val_present sh "vm" _ _ (od_lookup_set_eq _ _ _)).
  f_equal; apply eq_sym, dd_val_present; rewrite od_lookup_set_ne by done.
  - rewrite Hxz', Hyz', Hxy', Hzz', Hyy' by done. exact Hxx.
  - rewrite Hxz', Hyz', Hxy', Hzz' by done. exact Hyy.
  - rewrite Hxz', Hyz', Hxy' by done. exact Hzz.
  - rewrite Hxz', Hyz' by done. exact Hxy.
  - rewrite Hxz' by done. exact Hyz.
  - exact Hxz.
Qed.

(** The principal-stress step leaves the other entries as they are. *)
Lemma principal_step_keeps (self : SubsurfaceStress) (sh : list nat)
    (ir ir' : odict ndarray) (k : string) :
  principal_step self sh ir = inr ir' ->
  k <> "1" -> k <> "2" -> k <> "3" ->
  dd_val sh k ir' = dd_val sh k ir.
Proof.
  unfold principal_step. case_match; [|by intros [= <-]].
  destruct (dd_get sh "xx" ir) as [xx ir1] eqn:Exx.
  destruct (dd_get sh "yy" ir1) as [yy ir2] eqn:Eyy.
  destruct (dd_get sh "zz" ir2) as [zz ir3] eqn:Ezz.
  destruct (dd_get sh "xy" ir3) as [xy ir4] eqn:Exy.
  destruct (dd_get sh "xz" ir4) as [xz ir5] eqn:Exz.
  destruct (dd_get sh "yz" ir5) as [yz ir6] eqn:Eyz.
  destruct (prune_loop _ _ _ ir6) as [e|kept] eqn:Hprune; [discriminate|].
  apply prune_loop_keeps in Hprune. subst kept.
  intros [= <-] H1 H2 H3.
  match goal with |- context [store_principals sh ?p ?q ?b ir6] =>
    destruct (store_principals_spec sh p q b ir6) as (_ & _ & _ & Sother)
  end.
  rewrite (dd_val_lookup sh k (store_principals _ _ _ _ _)), Sother by done.
  rewrite <- dd_val_lookup.
  change ir6 with (yz, ir6).2. rewrite <- Eyz, dd_val_touch.
  change ir5 with (xz, ir5).2. rewrite <- Exz, dd_val_touch.
  change ir4 with (xy, ir4).2. rewrite <- Exy, dd_val_touch.
  change ir3 with (zz, ir3).2. rewrite <- Ezz, dd_val_touch.
  change ir2 with (yy, ir2).2. rewrite <- Eyy, dd_val_touch.
  change ir1 with (xx, ir1).2. rewrite <- Exx, dd_val_touch.
  reflexivity.
Qed.

Lemma solve_surface_von_mises (self : SubsurfaceStress) (zs : list R)
    (ex : ndarray) (span sh : list nat) (st : gmap string ndarray) (n : Z) :
  let o := solve_surface model_surface plan_multi_convolve self zs ex span sh st n in
  "vm" ∈ stress_components self ->
  (forall k, k ∈ cauchy_components -> k ∈ stress_components self) ->
  out_raised o = None ->
  von_mises_written (out_state o) n.
Proof.
  intros o Hvm Hsix Hret.
  destruct (solve_surface_returns model_surface plan_multi_convolve self zs ex
              span sh st n Hret)
    as (surface & ir & ir' & _ & Hloop & Hstep & Hstate).
  fold o in Hloop, Hstep, Hstate.
  apply load_loop_same in Hloop as (_ & Hsc & _).
  rewrite Hsc in Hstate.
  assert (Hvm' : "vm" ∈ stress_components (out_self o)) by by rewrite Hsc.
  pose proof (von_mises_step_spec (out_self o) sh ir Hvm') as Hspec.
  cbv zeta in Hspec.
  rewrite <- !(principal_step_keeps _ _ _ _ _ Hstep) in Hspec by done.
  eexists _, _, _, _, _, _, _. rewrite Hstate.
  rewrite !write_results_lookup by (done || (apply Hsix; decide_by_running)).
  do 7 (split; [reflexivity|]).
  intros i. by rewrite Hspec.
Qed.

Lemma von_mises_written_frame (st st' : gmap string ndarray) (n : Z) :
  (forall k, st' !! state_key n k = st !! state_key n k) ->
  von_mises_written st n -> von_mises_written st' n.
Proof.
  intros Hsame (vm & xx & yy & zz & xy & yz & xz & H).
  exists vm, xx, yy, zz, xy, yz, xz. by rewrite !Hsame.
Qed.

Lemma solve_surfaces_von_mises (self : SubsurfaceStress) (zs : list R)
    (ex : ndarray) (span sh : list nat) (st : gmap string ndarray)
    (ns : list Z) (n : Z) :
  let o := solve_surfaces model_surface plan_multi_convolve self zs ex span sh st ns in
  "vm" ∈ stress_components self ->
  (forall k, k ∈ cauchy_components -> k ∈ stress_components self) ->
  out_raised o = None ->
  n ∈ ns \/ von_mises_written st n ->
  von_mises_written (out_state o) n.
Proof.
  revert self st. induction ns as [|n0 ns IH]; intros self st; cbn.
  - intros _ _ _ [Hn|Hn]; [by apply elem_of_nil in Hn | done].
  - intros Hvm Hsix.
    pose proof (solve_surface_von_mises self zs ex span sh st n0 Hvm Hsix)
      as Hround.
    pose proof (solve_surface_frame model_surface plan_multi_convolve self zs
                  ex span sh st n0 n) as Hframe.
    destruct (solve_surface_cases model_surface plan_multi_convolve self zs ex
                span sh st n0) as ((_ & Hsc & _) & _).
    destruct (out_raised (solve_surface _ _ self zs ex span sh st n0))
      as [e|] eqn:Hr.
    { intros Hret. by rewrite Hr in Hret. }
    intros Hret Hn. apply IH; [by rewrite Hsc | by rewrite Hsc | exact Hret |].
    destruct (decide (n ∈ ns)) as [|Hout]; [by left | right].
    destruct (decide (n = n0)) as [->|Hne]; [by apply Hround|].
    destruct Hn as [Hn|Hn].
    + apply elem_of_cons in Hn as [?|?]; done.
    + eapply von_mises_written_frame; [|exact Hn].
      intros k. apply Hframe. congruence.
Qed.

(** X6.  Whenever [solve], asked for 'vm' and the six tensor components,
    returns, the array written for a surface under 'vm' is, at every index,
    the von Mises stress of the six arrays written for that surface; in
    particular it is nowhere negative. *)
Theorem written_von_mises_matches_the_written_tensor
    (self : SubsurfaceStress) (current_state : gmap string ndarray) (n : Z) :
  let o := solve model_surface plan_multi_convolve self current_state in
  "vm" ∈ stress_components self ->
  (forall k, k ∈ cauchy_components -> k ∈ stress_components self) ->
  n ∈ surfaces self ->
  out_raised o = None ->
  exists vm xx yy zz xy yz xz : ndarray,
    out_state o !! state_key n "vm" = Some vm /\
    out_state o !! state_key n "xx" = Some xx /\
    out_state o !! state_key n "yy" = Some yy /\
    out_state o !! state_key n "zz" = Some zz /\
    out_state o !! state_key n "xy" = Some xy /\
    out_state o !! state_key n "yz" = Some yz /\
    out_state o !! state_key n "xz" = Some xz /\
    forall i,
      data vm i = von_mises (data xx i) (data yy i) (data zz i)
                    (data xy i) (data yz i) (data xz i) /\
      (0 <= data vm i)%R.
Proof.
  intros o Hvm Hsix Hn. subst o. unfold solve.
  destruct (chars (load_components self)) as [|l0 ls]; [done|].
  destruct (current_state !! ("loads_" ++ l0)) as [ex|]; [|done].
  destruct (z self) as [zs|]; [|done].
  intros Hret.
  destruct (solve_surfaces_von_mises self zs ex (shape ex)
              (length zs :: shape ex) current_state (surfaces self) n Hvm Hsix
              Hret) as (vm & xx & yy & zz & xy & yz & xz & H); [by left|].
  exists vm, xx, yy, zz, xy, yz, xz.
  destruct H as (?&?&?&?&?&?&?&Hdata). do 7 (split; [done|]).
  intros i. split; [apply Hdata|]. rewrite Hdata. apply sqrt_pos.
Qed.

End written_von_mises.

(** * The trace of the principal stresses *)

Section trace_conservation.
Import SubSurfaceStress.

Variable model_surface : Z -> option Surface.
Variable plan_multi_convolve : ndarray -> ndarray -> bool * bool -> conv_func.





End trace_conservation.

(** * How [solve] fails *)

Section solve_failures.
Import SubSurfaceStress.

Variable model_surface : Z -> option Surface.
Variable plan_multi_convolve : ndarray -> ndarray -> bool * bool -> conv_func.

(** X16.  A sub-model for a single surface writes either all of its results
    or nothing: when [solve] raises, the state is as it was. *)
Theorem single_surface_solve_writes_all_or_nothing (self : SubsurfaceStress)
    (current_state : gmap string ndarray) (n : Z) :
  let o := solve model_surface plan_multi_convolve self current_state in
  surfaces self = [n] ->
  is_Some (out_raised o) ->
  out_state o = current_state.
Proof.
  intros o Hsurf. subst o. unfold solve.
  destruct (chars (load_components self)) as [|l0 ls]; [done|].
  destruct (current_state !! ("loads_" ++ l0)) as [ex|]; [|done].
  destruct (z self) as [zs|]; [|done].
  rewrite Hsurf. cbn.
  destruct (solve_surface_cases model_surface plan_multi_convolve self zs ex
              (shape ex) (length zs :: shape ex) current_state n)
    as (_ & _ & Hcases).
  set (o1 := solve_surface model_surface plan_multi_convolve self zs ex
               (shape ex) (length zs :: shape ex) current_state n) in *.
  destruct (out_raised o1) as [e1|] eqn:Hr.
  - intros _. destruct Hcases as [[_ Hstate]|[Hret _]]; [done | congruence].
  - cbn. by intros [e He].
Qed.

Lemma init_builds (z0 : option (list R)) (surface : int_or_seq)
    (name : string) (periodic_axes : bool * bool) (load_components : string)
    (stress_components : str_or_seq) (keep_kernels cuda_convolutions : bool)
    (self : SubsurfaceStress) :
  __init__ z0 surface name periodic_axes load_components stress_components
       keep_kernels cuda_convolutions = inr self ->
  self = make z0 (surface_seq surface) name periodic_axes load_components
           (component_seq stress_components) keep_kernels cuda_convolutions.
Proof.
  unfold __init__. repeat case_match; try discriminate. by intros [= <-].
Qed.

(** X15.  A sub-model constructed with [keep_kernels=True] for two or more
    surfaces, the first two of them different, never gets through its first
    [solve]: whatever the state and the model, the call raises. *)
Theorem fresh_sub_model_for_two_surfaces_never_solves
    (z0 : option (list R)) (s1 s2 : Z) (rest : list Z) (name : string)
    (periodic_axes : bool * bool) (load_components : string)
    (stress_components : str_or_seq) (cuda_convolutions : bool)
    (self : SubsurfaceStress) (current_state : gmap string ndarray) :
  __init__ z0 (IntSeq (s1 :: s2 :: rest)) name periodic_axes load_components
       stress_components true cuda_convolutions = inr self ->
  s1 <> s2 ->
  is_Some (out_raised (solve model_surface plan_multi_convolve self
                         current_state)).
Proof.
  intros Hinit Hne.
  apply (kept_kernels_fail_for_a_second_surface model_surface
           plan_multi_convolve self current_state s1 s2 rest).
  - apply init_builds in Hinit. by subst self.
  - apply init_builds in Hinit. by subst self.
  - exact Hne.
  - by eapply init_unbuilt.
Qed.

(** X10.  [solve], asked for a principal stress and for at least one surface,
    raises unless all six tensor components are requested as well. *)
Theorem principal_request_needs_all_six_components (self : SubsurfaceStress)
    (current_state : gmap string ndarray) (k sc : string) :
  k ∈ ["1"; "2"; "3"] -> k ∈ stress_components self ->
  surfaces self <> [] ->
  sc ∈ cauchy_components -> sc ∉ stress_components self ->
  is_Some (out_raised (solve model_surface plan_multi_convolve self
                         current_state)).
Proof.
  intros Hk Hreq Hsurf Hsc Hout.
  destruct (out_raised (solve model_surface plan_multi_convolve self
                          current_state)) as [e|] eqn:Hr; [by eexists|].
  exfalso. apply Hout.
  apply (solve_returns_only_with_all_six model_surface plan_multi_convolve
           self current_state); [|done|done|done].
  unfold tuple_in.
  repeat (apply elem_of_cons in Hk as [->|Hk]);
    [..|by apply elem_of_nil in Hk];
    rewrite (bool_decide_eq_true_2 _ Hreq); by rewrite ?orb_true_r.
Qed.

Lemma get_conv_funcs_raises (self self' : SubsurfaceStress) (zs : list R)
    (ex : ndarray) (span : list nat) (n : Z) (surface : Surface) (l : string)
    (e : PyExc) :
  l = "x" \/ l = "z" ->
  get_conv_funcs plan_multi_convolve self zs ex span n surface l
    = (self', inl e) ->
  exc_class e = "KeyError".
Proof.
  intros Hl. unfold get_conv_funcs, store_conv_funcs, influence_matrices.
  destruct Hl as [-> | ->]; repeat case_match; try done;
    by intros [= <- <-].
Qed.

Lemma accumulate_raises (sh : list nat) (st : gmap string ndarray)
    (l : string) (cf : odict conv_func) (ir : odict ndarray) (e : PyExc) :
  accumulate sh st l cf ir = inl e -> exc_class e = "KeyError".
Proof.
  revert ir. induction cf as [|[key f] cf IH]; intros ir; cbn; [done|].
  destruct (st !! ("loads_" ++ l)); [|by intros [= <-]].
  destruct (dd_get sh key ir). apply IH.
Qed.

Lemma load_loop_raises (self self' : SubsurfaceStress) (zs : list R)
    (ex : ndarray) (span sh : list nat) (st : gmap string ndarray) (n : Z)
    (surface : Surface) (l_comps : list string) (ir : odict ndarray)
    (e : PyExc) :
  (forall l, l ∈ l_comps -> l = "x" \/ l = "z") ->
  load_loop plan_multi_convolve self zs ex span sh st n surface l_comps ir
    = (self', inl e) ->
  exc_class e = "KeyError".
Proof.
  revert self ir. induction l_comps as [|l l_comps IH]; intros self ir Hl; cbn.
  - discriminate.
  - destruct (get_conv_funcs _ self zs ex span n surface l)
      as [self1 [e1|cf]] eqn:Hget.
    + intros [= <- <-]. eapply get_conv_funcs_raises; [|exact Hget].
      apply Hl. by left.
    + destruct (accumulate sh st l cf ir) as [e1|ir1] eqn:Hacc.
      * intros [= <- <-]. by eapply accumulate_raises.
      * apply IH. intros l' Hl'. apply Hl. by right.
Qed.

Lemma prune_loop_raises (scs : list string) (size0 : nat) (keys : list string)
    (d : odict ndarray) (e : PyExc) :
  prune_loop scs size0 keys d = inl e -> exc_class e = "RuntimeError".
Proof.
  revert d. induction keys as [|key keys IH]; intros d; cbn;
    destruct (negb _); try discriminate; try by intros [= <-].
  apply IH.
Qed.

Lemma principal_step_raises (self : SubsurfaceStress) (sh : list nat)
    (ir : odict ndarray) (e : PyExc) :
  principal_step self sh ir = inl e -> exc_class e = "RuntimeError".
Proof.
  unfold principal_step. case_match; [|discriminate].
  repeat (match goal with
          | |- context [dd_get ?s ?k ?d] => destruct (dd_get s k d)
          end).
  destruct (prune_loop _ _ _ _) as [e1|kept] eqn:Hprune; [|discriminate].
  intros [= <-]. by eapply prune_loop_raises.
Qed.

Lemma solve_surface_raises (self : SubsurfaceStress) (zs : list R)
    (ex : ndarray) (span sh : list nat) (st : gmap string ndarray) (n : Z)
    (e : PyExc) :
  directions_checked self ->
  out_raised (solve_surface model_surface plan_multi_convolve self zs ex span
                sh st n) = Some e ->
  exc_class e ∈ solve_exception_classes.
Proof.
  intros Hdir. unfold solve_surface.
  destruct (model_surface n) as [surface|];
    [|intros [= <-]; decide_by_running].
  destruct (negb _); [intros [= <-]; decide_by_running|].
  destruct (load_loop _ _ _ _ _ _ _ _ _ _ _) as [self1 [e1|ir]] eqn:Hloop.
  - intros [= <-]. apply load_loop_raises in Hloop; [|exact Hdir].
    rewrite Hloop. decide_by_running.
  - destruct (principal_step _ _ _) as [e1|ir'] eqn:Hstep; [|discriminate].
    intros [= <-]. apply principal_step_raises in Hstep.
    rewrite Hstep. decide_by_running.
Qed.

Lemma solve_surfaces_raises (self : SubsurfaceStress) (zs : list R)
    (ex : ndarray) (span sh : list nat) (st : gmap string ndarray)
    (ns : list Z) (e : PyExc) :
  directions_checked self ->
  out_raised (solve_surfaces model_surface plan_multi_convolve self zs ex span
                sh st ns) = Some e ->
  exc_class e ∈ solve_exception_classes.
Proof.
  revert self st. induction ns as [|n ns IH]; intros self st Hdir; cbn.
  - discriminate.
  - pose proof (solve_surface_raises self zs ex span sh st n) as Hround.
    destruct (solve_surface_cases model_surface plan_multi_convolve self zs ex
                span sh st n) as ((Hlc & _) & _).
    destruct (out_raised (solve_surface _ _ self zs ex span sh st n))
      as [e1|] eqn:Hr.
    + rewrite Hr. intros [= <-]. by apply Hround.
    + apply IH. unfold directions_checked. by rewrite Hlc.
Qed.

(** X17.  On a sub-model whose load directions passed the check of the
    constructor, the statements of [solve] raise no [ValueError]: the
    branch of line 122 is never taken, and an exception is one of
    IndexError, KeyError, TypeError, AttributeError, AssertionError and
    RuntimeError. *)
Theorem solve_raises_no_value_error (self : SubsurfaceStress)
    (current_state : gmap string ndarray) (e : PyExc) :
  directions_checked self ->
  out_raised (solve model_surface plan_multi_convolve self current_state)
    = Some e ->
  exc_class e ∈ solve_exception_classes /\ exc_class e <> "ValueError".
Proof.
  intros Hdir Hraised.
  assert (Hclass : exc_class e ∈ solve_exception_classes).
  { revert Hraised. unfold solve.
    destruct (chars (load_components self)) as [|l0 ls];
      [intros [= <-]; decide_by_running|].
    destruct (current_state !! ("loads_" ++ l0)) as [ex|];
      [|intros [= <-]; decide_by_running].
    destruct (z self) as [zs|]; [|intros [= <-]; decide_by_running].
    by apply solve_surfaces_raises. }
  split; [exact Hclass|]. intros Heq. rewrite Heq in Hclass.
  revert Hclass. decide_by_running.
Qed.

End solve_failures.

(** * The influence matrices that [solve] asks for *)

Section tangential_y.
Import SubSurfaceStress.

Variables model model' : Z -> option Surface.
Variable plan_multi_convolve : ndarray -> ndarray -> bool * bool -> conv_func.

Lemma influence_matrices_agree (self : SubsurfaceStress) (zs : list R)
    (span : list nat) (s s' : Surface) (l : string) :
  same_but_tangential_y s s' -> l = "x" \/ l = "z" ->
  influence_matrices self zs span s l = influence_matrices self zs span s' l.
Proof.
  intros (Hg & _ & Hn & Hx) Hl. unfold influence_matrices.
  by destruct Hl as [-> | ->]; cbn; rewrite Hg, ?Hn, ?Hx.
Qed.

Lemma load_loop_agree (self : SubsurfaceStress) (zs : list R)
    (ex : ndarray) (span sh : list nat) (st : gmap string ndarray) (n : Z)
    (s s' : Surface) (l_comps : list string) (ir : odict ndarray) :
  same_but_tangential_y s s' ->
  (forall l, l ∈ l_comps -> l = "x" \/ l = "z") ->
  load_loop plan_multi_convolve self zs ex span sh st n s l_comps ir
  = load_loop plan_multi_convolve self zs ex span sh st n s' l_comps ir.
Proof.
  intros Hs. revert self ir.
  induction l_comps as [|l l_comps IH]; intros self ir Hl; cbn; [done|].
  assert (Hget : get_conv_funcs plan_multi_convolve self zs ex span n s l
                 = get_conv_funcs plan_multi_convolve self zs ex span n s' l).
  { unfold get_conv_funcs.
    rewrite (influence_matrices_agree self zs span s s' l Hs)
      by (apply Hl; by left).
    reflexivity. }
  rewrite Hget.
  destruct (get_conv_funcs _ self zs ex span n s' l) as [self1 [e|cf]]; [done|].
  destruct (accumulate sh st l cf ir) as [e|ir1]; [done|].
  apply IH. intros l' Hl'. apply Hl. by right.
Qed.

Lemma solve_surface_agree (self : SubsurfaceStress) (zs : list R)
    (ex : ndarray) (span sh : list nat) (st : gmap string ndarray) (n : Z) :
  models_same_but_tangential_y model model' -> directions_checked self ->
  solve_surface model plan_multi_convolve self zs ex span sh st n
  = solve_surface model' plan_multi_convolve self zs ex span sh st n.
Proof.
  intros Hm Hdir. unfold solve_surface. specialize (Hm n).
  destruct (model n) as [s|], (model' n) as [s'|]; try done.
  pose proof Hm as (_ & Him & _). rewrite Him.
  destruct (negb _); [done|].
  by rewrite (load_loop_agree self zs ex span sh st n s s' _ [] Hm Hdir).
Qed.

Lemma solve_surfaces_agree (self : SubsurfaceStress) (zs : list R)
    (ex : ndarray) (span sh : list nat) (st : gmap string ndarray)
    (ns : list Z) :
  models_same_but_tangential_y model model' -> directions_checked self ->
  solve_surfaces model plan_multi_convolve self zs ex span sh st ns
  = solve_surfaces model' plan_multi_convolve self zs ex span sh st ns.
Proof.
  intros Hm. revert self st.
  induction ns as [|n ns IH]; intros self st Hdir; cbn; [done|].
  rewrite (solve_surface_agree self zs ex span sh st n Hm Hdir).
  destruct (solve_surface_cases model' plan_multi_convolve self zs ex span sh
              st n) as ((Hlc & _) & _).
  destruct (out_raised _); [done|].
  apply IH. unfold directions_checked. by rewrite Hlc.
Qed.

(** X18.  On a sub-model whose load directions passed the check of the
    constructor, [solve] does not depend on the influence matrices for
    tangential loads along y: the branch of lines 119-120 is never taken. *)
Theorem solve_never_asks_for_tangential_y (self : SubsurfaceStress)
    (current_state : gmap string ndarray) :
  models_same_but_tangential_y model model' -> directions_checked self ->
  solve model plan_multi_convolve self current_state
  = solve model' plan_multi_convolve self current_state.
Proof.
  intros Hm Hdir. unfold solve.
  destruct (chars (load_components self)) as [|l0 ls]; [done|].
  destruct (current_state !! ("loads_" ++ l0)) as [ex|]; [|done].
  destruct (z self) as [zs|]; [|done].
  by apply solve_surfaces_agree.
Qed.

End tangential_y.

(** * The state keys that [solve] reads *)

Section required_keys.
Import SubSurfaceStress.

Variable model_surface : Z -> option Surface.
Variable plan_multi_convolve : ndarray -> ndarray -> bool * bool -> conv_func.

Lemma get_conv_funcs_covers (self self' : SubsurfaceStress) (zs : list R)
    (ex : ndarray) (span : list nat) (n n' : Z) (surface : Surface)
    (l : string) (r : Res (odict conv_func)) :
  get_conv_funcs plan_multi_convolve self zs ex span n surface l = (self', r) ->
  is_Some (_kernel_cache self !! n') -> is_Some (_kernel_cache self' !! n').
Proof.
  unfold get_conv_funcs, store_conv_funcs.
  repeat case_match; intros [= <- <-]; try done.
  cbn. intros Hn'. destruct (decide (n = n')) as [<-|Hne].
  - rewrite lookup_insert_eq. by eexists.
  - by rewrite lookup_insert_ne.
Qed.

Lemma get_conv_funcs_key_error (self self' : SubsurfaceStress) (zs : list R)
    (ex : ndarray) (span : list nat) (n : Z) (surface : Surface) (l : string)
    (e : PyExc) :
  is_Some (_kernel_cache self !! n) ->
  get_conv_funcs plan_multi_convolve self zs ex span n surface l
    = (self', inl e) ->
  e = KeyError l \/ exc_class e = "ValueError".
Proof.
  intros [by_load Hn]. unfold get_conv_funcs, store_conv_funcs.
  cbn. rewrite Hn.
  destruct (influence_matrices self zs span surface l) as [e1|im] eqn:Him.
  - assert (exc_class e1 = "ValueError").
    { unfold influence_matrices in Him. repeat case_decide; try discriminate.
      by injection Him as <-. }
    repeat case_match; intros [= <- <-]; auto.
  - repeat case_match; intros [= <- <-]; auto.
Qed.

Lemma accumulate_reads (sh : list nat) (st : gmap string ndarray)
    (l : string) (cf : odict conv_func) (ir : odict ndarray) :
  is_Some (st !! ("loads_" ++ l)) ->
  exists ir', accumulate sh st l cf ir = inr ir'.
Proof.
  intros [v Hv]. revert ir.
  induction cf as [|[key f] cf IH]; intros ir; cbn; [by eexists|].
  rewrite Hv. destruct (dd_get sh key ir). apply IH.
Qed.

Lemma load_loop_key_error (self self' : SubsurfaceStress) (zs : list R)
    (ex : ndarray) (span sh : list nat) (st : gmap string ndarray) (n : Z)
    (surface : Surface) (l_comps : list string) (ir : odict ndarray)
    (r : Res (odict ndarray)) :
  (forall l, l ∈ l_comps -> is_Some (st !! ("loads_" ++ l))) ->
  is_Some (_kernel_cache self !! n) ->
  load_loop plan_multi_convolve self zs ex span sh st n surface l_comps ir
    = (self', r) ->
  (forall n', is_Some (_kernel_cache self !! n') ->
              is_Some (_kernel_cache self' !! n')) /\
  (forall e, r = inl e ->
             (exists l, l ∈ l_comps /\ e = KeyError l) \/
             exc_class e = "ValueError").
Proof.
  revert self ir. induction l_comps as [|l l_comps IH];
    intros self ir Hloads Hn; cbn.
  - intros [= <- <-]. split; [done | discriminate].
  - destruct (get_conv_funcs _ self zs ex span n surface l)
      as [self1 [e1|cf]] eqn:Hget.
    + intros [= <- <-]. split.
      * intros n'. by eapply get_conv_funcs_covers.
      * intros e [= <-].
        destruct (get_conv_funcs_key_error _ _ _ _ _ _ _ _ _ Hn Hget)
          as [->|Hv]; [left | by right].
        exists l. split; [by left | done].
    + destruct (accumulate_reads sh st l cf ir) as [ir1 Hacc];
        [apply Hloads; by left|].
      rewrite Hacc. intros Hloop.
      apply IH in Hloop as (Hcover & Herr).
      * split.
        -- intros n' Hn'. apply Hcover. by eapply get_conv_funcs_covers.
        -- intros e He. destruct (Herr e He) as [(l' & Hl' & ->)|Hv];
             [left | by right].
           exists l'. split; [by right | done].
      * intros l' Hl'. apply Hloads. by right.
      * by eapply get_conv_funcs_covers.
Qed.

(** The classes of the exceptions that are no [KeyError]. *)
Lemma solve_surface_key_error (self : SubsurfaceStress) (zs : list R)
    (ex : ndarray) (span sh : list nat) (st : gmap string ndarray) (n : Z) :
  let o := solve_surface model_surface plan_multi_convolve self zs ex span sh st n in
  (forall l, l ∈ chars (load_components self) ->
             is_Some (st !! ("loads_" ++ l))) ->
  is_Some (_kernel_cache self !! n) ->
  (forall n', is_Some (_kernel_cache self !! n') ->
              is_Some (_kernel_cache (out_self o) !! n')) /\
  (forall k, out_raised o = Some (KeyError k) ->
             k ∈ chars (load_components self)).
Proof.
  intros o Hloads Hn. subst o. unfold solve_surface.
  destruct (model_surface n) as [surface|]; [|split; [done | discriminate]].
  destruct (negb _); [split; [done | discriminate]|].
  destruct (load_loop _ _ _ _ _ _ _ _ _ _ _) as [self1 r] eqn:Hloop.
  apply load_loop_key_error in Hloop as (Hcover & Herr); [|done|done].
  destruct r as [e|ir].
  - split; [exact Hcover|]. cbn. intros k [= ->].
    destruct (Herr _ (reflexivity _)) as [(l & Hl & [= ->])|Hv]; done.
  - destruct (principal_step _ _ _) as [e|ir'] eqn:Hstep.
    + split; [exact Hcover|]. cbn. intros k [= ->].
      by apply principal_step_raises in Hstep.
    + split; [exact Hcover | discriminate].
Qed.

Lemma solve_surfaces_key_error (self : SubsurfaceStress) (zs : list R)
    (ex : ndarray) (span sh : list nat) (st : gmap string ndarray)
    (ns : list Z) (k : string) :
  (forall l, l ∈ chars (load_components self) ->
             is_Some (st !! ("loads_" ++ l))) ->
  (forall n, n ∈ ns -> is_Some (_kernel_cache self !! n)) ->
  out_raised (solve_surfaces model_surface plan_multi_convolve self zs ex span
                sh st ns) = Some (KeyError k) ->
  k ∈ chars (load_components self).
Proof.
  revert self st. induction ns as [|n ns IH]; intros self st Hloads Hcache; cbn.
  - discriminate.
  - destruct (solve_surface_key_error self zs ex span sh st n Hloads)
      as (Hcover & Herr); [apply Hcache; by left|].
    destruct (solve_surface_cases model_surface plan_multi_convolve self zs ex
                span sh st n) as ((Hlc & _) & _ & Hcases).
    set (o1 := solve_surface model_surface plan_multi_convolve self zs ex span
                 sh st n) in *.
    destruct (out_raised o1) as [e1|] eqn:Hr.
    + rewrite Hr. intros [= ->]. by apply Herr.
    + intros Hraised. rewrite <- Hlc. eapply IH; [| |exact Hraised].
      * rewrite Hlc. intros l Hl.
        destruct Hcases as [[_ ->]|[_ [ir' ->]]]; [by apply Hloads|].
        apply write_results_keeps. by apply Hloads.
      * intros n' Hn'. apply Hcover, Hcache. by right.
Qed.

(** With every required key held, a [KeyError] is never for a required
    key. *)
Lemma required_keys_raise_no_key_error (self : SubsurfaceStress)
    (current_state : gmap string ndarray) (k : string) :
  declares_its_inputs self -> cache_covers_surfaces self ->
  (forall key, key ∈ requires self -> is_Some (current_state !! key)) ->
  out_raised (solve model_surface plan_multi_convolve self current_state)
    = Some (KeyError k) ->
  k ∉ requires self.
Proof.
  intros Hdecl Hcover Hheld.
  assert (Hloads : forall l, l ∈ chars (load_components self) ->
                             is_Some (current_state !! ("loads_" ++ l))).
  { intros l Hl. apply Hheld. rewrite Hdecl.
    apply elem_of_list_to_set, list_elem_of_fmap. by exists l. }
  assert (Hk : out_raised (solve model_surface plan_multi_convolve self
                             current_state) = Some (KeyError k) ->
               k ∈ chars (load_components self)).
  { unfold solve.
    destruct (chars (load_components self)) as [|l0 ls] eqn:Hchars;
      [discriminate|].
    destruct (Hloads l0) as [ex Hex]; [by left|]. rewrite Hex.
    destruct (z self) as [zs|]; [|discriminate].
    intros Hraised. rewrite <- Hchars.
    eapply solve_surfaces_key_error; [| |exact Hraised].
    - by rewrite Hchars.
    - exact Hcover. }
  intros Hraised Hin. apply Hk in Hraised.
  apply chars_single in Hraised as (a & ->).
  rewrite Hdecl in Hin.
  apply elem_of_list_to_set, list_elem_of_fmap in Hin as (c & Hc & _).
  cbv [String.append] in Hc. discriminate.
Qed.

Lemma accumulate_reads_loads (sh : list nat) (st st' : gmap string ndarray)
    (l : string) (cf : odict conv_func) (ir : odict ndarray) :
  st !! ("loads_" ++ l) = st' !! ("loads_" ++ l) ->
  accumulate sh st l cf ir = accumulate sh st' l cf ir.
Proof.
  intros Hl. revert ir. induction cf as [|[key f] cf IH]; intros ir; cbn;
    [done|].
  rewrite <- Hl. destruct (st !! ("loads_" ++ l)); [|done].
  destruct (dd_get sh key ir). apply IH.
Qed.

Lemma load_loop_reads_loads (self : SubsurfaceStress) (zs : list R)
    (ex : ndarray) (span sh : list nat) (st st' : gmap string ndarray)
    (n : Z) (surface : Surface) (l_comps : list string) (ir : odict ndarray) :
  (forall l, l ∈ l_comps -> st !! ("loads_" ++ l) = st' !! ("loads_" ++ l)) ->
  load_loop plan_multi_convolve self zs ex span sh st n surface l_comps ir
  = load_loop plan_multi_convolve self zs ex span sh st' n surface l_comps ir.
Proof.
  revert self ir. induction l_comps as [|l l_comps IH]; intros self ir Hl;
    cbn; [done|].
  destruct (get_conv_funcs _ self zs ex span n surface l) as [self1 [e|cf]];
    [done|].
  rewrite (accumulate_reads_loads sh st st' l cf ir) by (apply Hl; by left).
  destruct (accumulate sh st' l cf ir) as [e|ir1]; [done|].
  apply IH. intros l' Hl'. apply Hl. by right.
Qed.

(** Two states that have received the same writes: at each key they hold
    the same value, or what they held at the start. *)
Lemma write_results_same_writes (sh : list nat) (n : Z) (keys : list string)
    (ir : odict ndarray) (st0 st0' st st' : gmap string ndarray) :
  same_writes st0 st0' st st' ->
  same_writes st0 st0' (write_results sh n keys ir st)
    (write_results sh n keys ir st').
Proof.
  intros Hsame k.
  destruct (decide (k ∈ map (state_key n) keys)) as [Hin|Hout].
  - apply list_elem_of_fmap in Hin as (key & -> & Hkey).
    left. by rewrite !write_results_lookup.
  - assert (Hother : forall key, key ∈ keys -> state_key n key <> k).
    { intros key Hkey <-. apply Hout, list_elem_of_fmap. by exists key. }
    rewrite !write_results_other by done. apply Hsame.
Qed.

Lemma solve_surface_reads_loads (self : SubsurfaceStress) (zs : list R)
    (ex : ndarray) (span sh : list nat) (st0 st0' st st' : gmap string ndarray)
    (n : Z) :
  let o := solve_surface model_surface plan_multi_convolve self zs ex span sh
             st n in
  let o' := solve_surface model_surface plan_multi_convolve self zs ex span sh
              st' n in
  (forall l, l ∈ chars (load_components self) ->
             st !! ("loads_" ++ l) = st' !! ("loads_" ++ l)) ->
  same_writes st0 st0' st st' ->
  out_self o = out_self o' /\ out_raised o = out_raised o' /\
  same_writes st0 st0' (out_state o) (out_state o') /\
  (forall l, out_state o !! ("loads_" ++ l) = out_state o' !! ("loads_" ++ l)
             <-> st !! ("loads_" ++ l) = st' !! ("loads_" ++ l)).
Proof.
  intros o o' Hloads Hsame. subst o o'. unfold solve_surface.
  assert (Hraising : forall (self1 : SubsurfaceStress) (e : PyExc),
             let o := Build_Outcome self1 st (Some e) in
             let o' := Build_Outcome self1 st' (Some e) in
             out_self o = out_self o' /\ out_raised o = out_raised o' /\
             same_writes st0 st0' (out_state o) (out_state o') /\
             (forall l, out_state o !! ("loads_" ++ l)
                        = out_state o' !! ("loads_" ++ l)
                        <-> st !! ("loads_" ++ l) = st' !! ("loads_" ++ l))).
  { intros self1 e. cbn. split; [done|]. split; [done|]. split; [done|].
    by intros l. }
  destruct (model_surface n) as [surface|]; [|apply Hraising].
  destruct (negb _); [apply Hraising|].
  rewrite (load_loop_reads_loads self zs ex span sh st st' n surface _ []
             Hloads).
  destruct (load_loop _ self zs ex span sh st' n surface _ [])
    as [self1 [e|ir]]; [apply Hraising|].
  destruct (principal_step self1 sh _) as [e|ir']; [apply Hraising|].
  cbn. split; [done|]. split; [done|].
  split; [by apply write_results_same_writes|].
  intros l. rewrite !write_results_other; [done|..];
    intros key _; apply state_key_is_no_load_key.
Qed.

Lemma solve_surfaces_reads_loads (self : SubsurfaceStress) (zs : list R)
    (ex : ndarray) (span sh : list nat) (st0 st0' st st' : gmap string ndarray)
    (ns : list Z) :
  let o := solve_surfaces model_surface plan_multi_convolve self zs ex span sh
             st ns in
  let o' := solve_surfaces model_surface plan_multi_convolve self zs ex span
              sh st' ns in
  (forall l, l ∈ chars (load_components self) ->
             st !! ("loads_" ++ l) = st' !! ("loads_" ++ l)) ->
  same_writes st0 st0' st st' ->
  out_self o = out_self o' /\ out_raised o = out_raised o' /\
  same_writes st0 st0' (out_state o) (out_state o').
Proof.
  revert self st st'. induction ns as [|n ns IH]; intros self st st'; cbn.
  - by intros _ Hsame.
  - intros Hloads Hsame.
    destruct (solve_surface_reads_loads self zs ex span sh st0 st0' st st' n
                Hloads Hsame) as (Hself & Hraised & Hsame1 & Hloads1).
    destruct (solve_surface_cases model_surface plan_multi_convolve self zs ex
                span sh st n) as ((Hlc & _) & _).
    rewrite <- Hraised, <- Hself.
    destruct (out_raised (solve_surface _ _ self zs ex span sh st n))
      as [e|] eqn:Hr.
    { split; [exact Hself|]. split; [congruence | exact Hsame1]. }
    apply IH; [|exact Hsame1].
    intros l Hl. apply Hloads1, Hloads. by rewrite <- Hlc.
Qed.

(** X19.  [solve] reads the state at the keys of the declared [requires]
    set only: on two states that agree at these keys it leaves the same
    object, raises the same exception or returns in both, and has written
    the same values under the same keys.  When the state holds every
    required key, a [KeyError] is never for a required key. *)
Theorem declared_requirements_cover_the_reads (self : SubsurfaceStress)
    (current_state other_state : gmap string ndarray) :
  declares_its_inputs self ->
  (forall key, key ∈ requires self ->
               current_state !! key = other_state !! key) ->
  let o := solve model_surface plan_multi_convolve self current_state in
  let o' := solve model_surface plan_multi_convolve self other_state in
  out_self o = out_self o' /\ out_raised o = out_raised o' /\
  (forall k, out_state o !! k = out_state o' !! k \/
             (out_state o !! k = current_state !! k /\
              out_state o' !! k = other_state !! k)) /\
  (cache_covers_surfaces self ->
   (forall key, key ∈ requires self -> is_Some (current_state !! key)) ->
   forall k, out_raised o = Some (KeyError k) -> k ∉ requires self).
Proof.
  intros Hdecl Hagree o o'.
  assert (Hloads : forall l, l ∈ chars (load_components self) ->
                             current_state !! ("loads_" ++ l)
                             = other_state !! ("loads_" ++ l)).
  { intros l Hl. apply Hagree. rewrite Hdecl.
    apply elem_of_list_to_set, list_elem_of_fmap. by exists l. }
  assert (Hstart : same_writes current_state other_state current_state
                     other_state) by (intros k; by right).
  assert (Hsame : out_self o = out_self o' /\ out_raised o = out_raised o' /\
                  same_writes current_state other_state (out_state o)
                    (out_state o')).
  { subst o o'. unfold solve.
    destruct (chars (load_components self)) as [|l0 ls] eqn:Hchars; [done|].
    rewrite <- (Hloads l0) by by left.
    destruct (current_state !! ("loads_" ++ l0)) as [ex|]; [|done].
    destruct (z self) as [zs|]; [|done].
    apply solve_surfaces_reads_loads; [|exact Hstart].
    by rewrite Hchars. }
  destruct Hsame as (Hself & Hraised & Hwrites).
  split; [exact Hself|]. split; [exact Hraised|]. split; [exact Hwrites|].
  intros Hcover Hheld k. by apply required_keys_raise_no_key_error.
Qed.

End required_keys.

(** * How [_solve] of [UpdateShiftRollingSurface] fails *)

Section shift_failures.
Import ShiftSurface.

Variable RollingSurface : Type.
Variable shift : RollingSurface -> R -> R -> RollingSurface.

(** X20.  [_solve] returns exactly when the keyword arguments hold both
    speeds and the state holds 'time_step'; otherwise it raises [KeyError]
    for the first of the keys, in the order x speed, 'time_step', y speed,
    that is missing, and the surfaces and the state are as they were. *)
Theorem shift_raises_exactly_on_a_missing_key
    (self : UpdateShiftRollingSurface) (model : ContactModel RollingSurface)
    (current_state kwargs : gmap string R) :
  let o := _solve shift self model current_state kwargs in
  let key_x := name self ++ "_shift_speed_x" in
  let key_y := name self ++ "_shift_speed_y" in
  (out_raised o = None <->
   is_Some (kwargs !! key_x) /\ is_Some (current_state !! "time_step") /\
   is_Some (kwargs !! key_y)) /\
  (kwargs !! key_x = None -> out_raised o = Some (KeyError key_x)) /\
  (is_Some (kwargs !! key_x) -> current_state !! "time_step" = None ->
   out_raised o = Some (KeyError "time_step")) /\
  (is_Some (kwargs !! key_x) -> is_Some (current_state !! "time_step") ->
   kwargs !! key_y = None -> out_raised o = Some (KeyError key_y)) /\
  (is_Some (out_raised o) -> out_model o = model /\ out_state o = current_state).
Proof.
  intros o key_x key_y. subst o. unfold _solve. fold key_x key_y.
  destruct (kwargs !! key_x) as [vx|].
  2: { split; [split; [discriminate | by intros ([? ?] & _)]|].
       split; [done|]. split; [by intros [? ?]|]. split; [by intros [? ?]|].
       done. }
  destruct (current_state !! "time_step") as [ts|].
  2: { split; [split; [discriminate | by intros (_ & [? ?] & _)]|].
       split; [done|]. split; [done|]. split; [by intros _ [? ?]|]. done. }
  destruct (kwargs !! key_y) as [vy|].
  2: { split; [split; [discriminate | by intros (_ & _ & [? ?])]|].
       split; [done|]. split; [done|]. split; [done|]. done. }
  split; [split; [intros _; repeat split; by eexists | by case_decide]|].
  split; [done|]. split; [done|]. split; [done|].
  case_decide; by intros [? ?].
Qed.

End shift_failures.

(** * The sub-model object: what the constructor sets up and what [solve]
      changes *)

Section object_contract.
Import SubSurfaceStress.

Variable model_surface : Z -> option Surface.
Variable plan_multi_convolve : ndarray -> ndarray -> bool * bool -> conv_func.

Lemma cache_update_refl (self : SubsurfaceStress) : cache_update self self.
Proof. split; [by destruct self | done]. Qed.

Lemma cache_update_trans (a b c : SubsurfaceStress) :
  cache_update a b -> cache_update b c -> cache_update a c.
Proof.
  intros (Hb & Hcb) (Hc & Hcc). split; [|auto].
  rewrite Hc at 1. rewrite Hb at 1. reflexivity.
Qed.

Lemma get_conv_funcs_update (self self' : SubsurfaceStress) (zs : list R)
    (ex : ndarray) (span : list nat) (n : Z) (surface : Surface) (l : string)
    (r : Res (odict conv_func)) :
  get_conv_funcs plan_multi_convolve self zs ex span n surface l = (self', r) ->
  cache_update self self'.
Proof.
  intros Hget. split; [|intros n'; by eapply get_conv_funcs_covers].
  revert Hget. unfold get_conv_funcs, store_conv_funcs.
  repeat case_match; intros [= <- <-]; by destruct self.
Qed.

Lemma load_loop_update (self self' : SubsurfaceStress) (zs : list R)
    (ex : ndarray) (span sh : list nat) (st : gmap string ndarray) (n : Z)
    (surface : Surface) (l_comps : list string) (ir : odict ndarray)
    (r : Res (odict ndarray)) :
  load_loop plan_multi_convolve self zs ex span sh st n surface l_comps ir
    = (self', r) ->
  cache_update self self'.
Proof.
  revert self ir. induction l_comps as [|l l_comps IH]; intros self ir; cbn.
  - intros [= <- <-]. apply cache_update_refl.
  - destruct (get_conv_funcs _ self zs ex span n surface l)
      as [self1 [e|cf]] eqn:Hget; apply get_conv_funcs_update in Hget.
    + by intros [= <- <-].
    + destruct (accumulate sh st l cf ir) as [e|ir1]; [by intros [= <- <-]|].
      intros Hloop%IH. by eapply cache_update_trans.
Qed.

Lemma solve_surface_update (self : SubsurfaceStress) (zs : list R)
    (ex : ndarray) (span sh : list nat) (st : gmap string ndarray) (n : Z) :
  cache_update self
    (out_self (solve_surface model_surface plan_multi_convolve self zs ex span
                 sh st n)).
Proof.
  unfold solve_surface.
  destruct (model_surface n) as [surface|]; [|apply cache_update_refl].
  destruct (negb _); [apply cache_update_refl|].
  destruct (load_loop _ _ _ _ _ _ _ _ _ _ _) as [self1 r] eqn:Hloop.
  apply load_loop_update in Hloop.
  destruct r as [e|ir]; [done|]. by destruct (principal_step _ _ _).
Qed.

Lemma solve_surfaces_update (self : SubsurfaceStress) (zs : list R)
    (ex : ndarray) (span sh : list nat) (st : gmap string ndarray)
    (ns : list Z) :
  cache_update self
    (out_self (solve_surfaces model_surface plan_multi_convolve self zs ex span
                 sh st ns)).
Proof.
  revert self st. induction ns as [|n ns IH]; intros self st; cbn.
  - apply cache_update_refl.
  - pose proof (solve_surface_update self zs ex span sh st n) as Hround.
    destruct (out_raised _); [done|].
    eapply cache_update_trans; [exact Hround | apply IH].
Qed.

(** X11.  Of the sub-model object, [solve] changes at most the recorded span
    and the kernel cache, and the cache loses no surface: the name, the
    declared sets, the surfaces, the components, the depths and the flags
    stay as they are. *)
Theorem solve_changes_only_span_and_cache (self : SubsurfaceStress)
    (current_state : gmap string ndarray) :
  let o := solve model_surface plan_multi_convolve self current_state in
  out_self o
  = set_kernel_cache (set_cache_span self (_cache_span (out_self o)))
      (_kernel_cache (out_self o)) /\
  (forall n, is_Some (_kernel_cache self !! n) ->
             is_Some (_kernel_cache (out_self o) !! n)).
Proof.
  intros o.
  assert (Hupdate : cache_update self (out_self o)).
  { subst o. unfold solve.
    destruct (chars (load_components self)) as [|l0 ls];
      [apply cache_update_refl|].
    destruct (current_state !! ("loads_" ++ l0)) as [ex|];
      [|apply cache_update_refl].
    destruct (z self) as [zs|]; [|apply cache_update_refl].
    apply solve_surfaces_update. }
  exact Hupdate.
Qed.

(** X2.  The object that [__init__] builds declares as [requires] the load
    keys of its directions and as [provides] the keys of its surfaces and
    components, has only checked load directions, holds a cache entry for
    each of its surfaces with no kernel built, and records the span (0, 0). *)
Theorem constructed_object_meets_the_contract
    (z0 : option (list R)) (surface : int_or_seq) (name : string)
    (periodic_axes : bool * bool) (load_components : string)
    (stress_components : str_or_seq) (keep_kernels cuda_convolutions : bool)
    (self : SubsurfaceStress) :
  __init__ z0 surface name periodic_axes load_components stress_components
       keep_kernels cuda_convolutions = inr self ->
  declares_its_inputs self /\ declares_its_outputs self /\
  directions_checked self /\ cache_covers_surfaces self /\
  (forall n, unbuilt self n) /\ _cache_span self = [0; 0]%nat.
Proof.
  intros Hinit.
  pose proof (init_request_check z0 surface name
                periodic_axes load_components stress_components keep_kernels
                cuda_convolutions) as Hspec.
  rewrite Hinit in Hspec. destruct Hspec as ((Hdir & _) & ->).
  split; [done|]. split; [done|]. split; [exact Hdir|].
  split; [|split; [|done]].
  - intros n Hn. cbn in *. unfold initial_cache. eexists.
    apply (elem_of_list_to_map_1' (M:=gmap Z)).
    + intros y Hy. apply list_elem_of_fmap in Hy as (n' & [= _ ->] & _).
      reflexivity.
    + apply list_elem_of_fmap. by exists n.
  - intros n. by eapply init_unbuilt.
Qed.

End object_contract.

(** * The middle value of the principal stresses *)

Section middle_value.
Import SubSurfaceStress.
Local Open Scope R_scope.



End middle_value.


(** * The tensor components that [solve] writes *)

Section superposition.
Import SubSurfaceStress.
Local Open Scope R_scope.

Variable model_surface : Z -> option Surface.
Variable plan_multi_convolve : ndarray -> ndarray -> bool * bool -> conv_func.

Lemma dd_val_set (sh : list nat) (k k' : string) (v : ndarray)
    (d : odict ndarray) :
  dd_val sh k' (od_set k v d)
  = if decide (k = k') then v else dd_val sh k' d.
Proof.
  rewrite !dd_val_lookup. case_decide as Hk.
  - subst k'. by rewrite od_lookup_set_eq.
  - by rewrite od_lookup_set_ne.
Qed.

Lemma accumulate_sum (sh : list nat) (st : gmap string ndarray) (l : string)
    (cf : odict conv_func) (ir ir' : odict ndarray) (loads : ndarray)
    (sc : string) (i : list nat) :
  accumulate sh st l cf ir = inr ir' ->
  st !! ("loads_" ++ l) = Some loads ->
  data (dd_val sh sc ir') i
  = data (dd_val sh sc ir) i
    + foldr (fun kf acc => if decide (kf.1 = sc)
                           then data (kf.2 loads) i + acc else acc) 0 cf.
Proof.
  intros Hacc Hloads. revert ir Hacc.
  induction cf as [|[key f] cf IH]; intros ir; cbn.
  - intros [= <-]. lra.
  - rewrite Hloads. destruct (dd_get sh key ir) as [acc ir1] eqn:Eget.
    intros Hacc%IH. rewrite Hacc, dd_val_set.
    pose proof Eget as (Hv & _ & _)%dd_get_spec.
    case_decide as Hkey.
    + subst key acc. cbn. lra.
    + change ir1 with (acc, ir1).2. by rewrite <- Eget, dd_val_touch.
Qed.

Lemma accumulate_nothing (sh : list nat) (st : gmap string ndarray)
    (l : string) (cf : odict conv_func) (ir ir' : odict ndarray) :
  accumulate sh st l cf ir = inr ir' ->
  st !! ("loads_" ++ l) = None -> cf = [] /\ ir' = ir.
Proof.
  destruct cf as [|[key f] cf]; cbn; [by intros [= <-]|].
  intros Hacc Hnone. by rewrite Hnone in Hacc.
Qed.

Lemma foldr_planned (ex loads : ndarray) (pa : bool * bool) (sc : string)
    (i : list nat) (im : odict ndarray) :
  foldr (fun kf acc => if decide (kf.1 = sc)
                       then data (kf.2 loads) i + acc else acc) 0
    (map (fun kv => (kv.1, plan_multi_convolve ex kv.2 pa)) im)
  = foldr (fun kv acc => if decide (kv.1 = sc)
                         then data (plan_multi_convolve ex kv.2 pa loads) i + acc
                         else acc) 0 im.
Proof. induction im as [|[k v] im IH]; cbn; [done|]. by rewrite IH. Qed.

Lemma load_loop_sum (self self' : SubsurfaceStress) (zs : list R)
    (ex : ndarray) (sh : list nat) (st : gmap string ndarray) (n : Z)
    (surface : Surface) (l_comps : list string) (ir ir' : odict ndarray)
    (sc : string) (i : list nat) :
  keep_kernels self = false ->
  load_loop plan_multi_convolve self zs ex (shape ex) sh st n surface l_comps ir
    = (self', inr ir') ->
  data (dd_val sh sc ir') i
  = data (dd_val sh sc ir) i
    + foldr (fun l acc =>
               response plan_multi_convolve self zs ex surface st sc i l + acc)
        0 l_comps.
Proof.
  intros Hkeep. revert ir.
  induction l_comps as [|l l_comps IH]; intros ir; cbn [load_loop foldr].
  - intros [= <- <-]. lra.
  - set (rest := foldr _ 0 l_comps) in *.
    unfold get_conv_funcs, response. rewrite Hkeep. cbn [andb].
    destruct (influence_matrices self zs (shape ex) surface l) as [e|im];
      [discriminate|].
    destruct (accumulate sh st l _ ir) as [e|ir1] eqn:Hacc; [discriminate|].
    intros Hloop%IH. rewrite Hloop.
    destruct (st !! ("loads_" ++ l)) as [loads|] eqn:Hloads.
    + rewrite (accumulate_sum _ _ _ _ _ _ loads sc i Hacc Hloads).
      rewrite foldr_planned. lra.
    + apply accumulate_nothing in Hacc as (_ & ->); [lra | done].
Qed.

Lemma von_mises_step_keeps (self : SubsurfaceStress) (sh : list nat)
    (ir : odict ndarray) (k : string) :
  k <> "vm" ->
  dd_val sh k (von_mises_step self sh ir) = dd_val sh k ir.
Proof.
  intros Hk. unfold von_mises_step. case_match; [|done].
  destruct (dd_get sh "xx" ir) as [xx ir1] eqn:Exx.
  destruct (dd_get sh "yy" ir1) as [yy ir2] eqn:Eyy.
  destruct (dd_get sh "zz" ir2) as [zz ir3] eqn:Ezz.
  destruct (dd_get sh "xy" ir3) as [xy ir4] eqn:Exy.
  destruct (dd_get sh "yz" ir4) as [yz ir5] eqn:Eyz.
  destruct (dd_get sh "xz" ir5) as [xz ir6] eqn:Exz.
  rewrite dd_val_set. case_decide; [congruence|].
  change ir6 with (xz, ir6).2. rewrite <- Exz, dd_val_touch.
  change ir5 with (yz, ir5).2. rewrite <- Eyz, dd_val_touch.
  change ir4 with (xy, ir4).2. rewrite <- Exy, dd_val_touch.
  change ir3 with (zz, ir3).2. rewrite <- Ezz, dd_val_touch.
  change ir2 with (yy, ir2).2. rewrite <- Eyy, dd_val_touch.
  change ir1 with (xx, ir1).2. rewrite <- Exx, dd_val_touch.
  reflexivity.
Qed.

Lemma response_ext (self : SubsurfaceStress) (zs : list R) (ex : ndarray)
    (surface : Surface) (st st' : gmap string ndarray) (sc : string)
    (i : list nat) (l : string) :
  st' !! ("loads_" ++ l) = st !! ("loads_" ++ l) ->
  response plan_multi_convolve self zs ex surface st' sc i l
  = response plan_multi_convolve self zs ex surface st sc i l.
Proof. unfold response. by intros ->. Qed.

Lemma superposed_ext (self : SubsurfaceStress) (zs : list R) (ex : ndarray)
    (surface : Surface) (st st' : gmap string ndarray) (sc : string)
    (i : list nat) :
  (forall l, st' !! ("loads_" ++ l) = st !! ("loads_" ++ l)) ->
  superposed plan_multi_convolve self zs ex surface st' sc i
  = superposed plan_multi_convolve self zs ex surface st sc i.
Proof.
  intros Hst. unfold superposed.
  induction (chars (load_components self)) as [|l ls IH]; cbn; [done|].
  by rewrite IH, (response_ext _ _ _ _ st st').
Qed.

(** A round that returns writes the superposed responses. *)
Lemma solve_surface_sum (self : SubsurfaceStress) (zs : list R)
    (ex : ndarray) (sh : list nat) (st : gmap string ndarray) (n : Z)
    (surface : Surface) (sc : string) :
  let o := solve_surface model_surface plan_multi_convolve self zs ex
             (shape ex) sh st n in
  keep_kernels self = false ->
  model_surface n = Some surface ->
  sc ∈ stress_components self -> sc ∈ cauchy_components ->
  out_raised o = None ->
  exists v, out_state o !! state_key n sc = Some v /\
            forall i, data v i
                      = superposed plan_multi_convolve self zs ex surface st sc i.
Proof.
  intros o Hkeep Hsurf Hsc Hraw Hret.
  destruct (solve_surface_returns model_surface plan_multi_convolve self zs ex
              (shape ex) sh st n Hret)
    as (surface' & ir & ir' & Hsurf' & Hloop & Hstep & Hstate).
  fold o in Hloop, Hstep, Hstate.
  assert (surface' = surface) by congruence. subst surface'.
  assert (Hself : out_self o = self)
    by (eapply load_loop_without_cache; [exact Hkeep | exact Hloop]).
  rewrite Hself in *.
  assert (Hne : sc <> "vm" /\ sc <> "1" /\ sc <> "2" /\ sc <> "3").
  { unfold cauchy_components in Hraw.
    repeat (apply elem_of_cons in Hraw as [->|Hraw]; [done|]).
    by apply elem_of_nil in Hraw. }
  destruct Hne as (Hvm & H1 & H2 & H3).
  eexists. rewrite Hstate. split; [by apply write_results_lookup|].
  intros i.
  rewrite (principal_step_keeps _ _ _ _ _ Hstep) by done.
  rewrite von_mises_step_keeps by done.
  rewrite (load_loop_sum _ _ _ _ _ _ _ _ _ _ _ sc i Hkeep Hloop).
  unfold superposed. cbn. lra.
Qed.

Lemma solve_surfaces_sum (self : SubsurfaceStress) (zs : list R)
    (ex : ndarray) (sh : list nat) (st0 st : gmap string ndarray)
    (ns : list Z) (n : Z) (surface : Surface) (sc : string) :
  let o := solve_surfaces model_surface plan_multi_convolve self zs ex
             (shape ex) sh st ns in
  keep_kernels self = false ->
  model_surface n = Some surface ->
  sc ∈ stress_components self -> sc ∈ cauchy_components ->
  NoDup ns -> n ∈ ns ->
  (forall l, st !! ("loads_" ++ l) = st0 !! ("loads_" ++ l)) ->
  out_raised o = None ->
  exists v, out_state o !! state_key n sc = Some v /\
            forall i, data v i
                      = superposed plan_multi_convolve self zs ex surface st0 sc i.
Proof.
  intros o Hkeep Hsurf Hsc Hraw. subst o. revert st.
  induction ns as [|n0 ns IH]; intros st Hdup Hn Hloads; cbn.
  - by apply elem_of_nil in Hn.
  - apply NoDup_cons in Hdup as (Hfresh & Hdup).
    pose proof (solve_surface_sum self zs ex sh st n0 surface sc Hkeep) as Hround.
    destruct (solve_surface_cases model_surface plan_multi_convolve self zs ex
                (shape ex) sh st n0) as (_ & _ & Hcases).
    assert (Hself : out_self (solve_surface model_surface plan_multi_convolve
                                self zs ex (shape ex) sh st n0) = self).
    { unfold solve_surface.
      destruct (model_surface n0) as [s0|]; [|done].
      destruct (negb _); [done|].
      destruct (load_loop _ _ _ _ _ _ _ _ _ _ _) as [self1 r] eqn:Hloop.
      apply load_loop_without_cache in Hloop; [|done]. subst self1.
      destruct r as [e|ir]; [done|]. by destruct (principal_step _ _ _). }
    set (o1 := solve_surface model_surface plan_multi_convolve self zs ex
                 (shape ex) sh st n0) in *.
    destruct (out_raised o1) as [e|] eqn:Hr.
    { intros Hret. by rewrite Hr in Hret. }
    rewrite Hself. intros Hret.
    assert (Hloads1 : forall l, out_state o1 !! ("loads_" ++ l)
                                = st0 !! ("loads_" ++ l)).
    { intros l. rewrite <- Hloads.
      destruct Hcases as [[_ ->]|[_ [ir' ->]]]; [done|].
      apply write_results_other. intros key _.
      apply state_key_is_no_load_key. }
    destruct (decide (n = n0)) as [->|Hne].
    + destruct (Hround Hsurf Hsc Hraw (reflexivity _)) as (v & Hv & Hdata).
      exists v. split.
      * destruct (solve_surfaces_untouched model_surface plan_multi_convolve
                    self zs ex (shape ex) sh (out_state o1) ns
                    (state_key n0 sc)) as (_ & _ & _ & Hframe).
        rewrite Hframe; [exact Hv|].
        intros n' sc' Hn' _ Heq. apply state_key_inj in Heq as [-> _].
        done.
      * intros i. rewrite Hdata. by apply superposed_ext.
    + apply IH; [done | | exact Hloads1 | exact Hret].
      apply elem_of_cons in Hn as [?|?]; done.
Qed.


(** X5.  A sub-model that keeps no kernels and whose surfaces are pairwise
    different writes, when [solve] returns, under each requested tensor
    component of a surface the sum, over the load directions, of the loads
    convolved with the kernels of that component. *)
Theorem written_component_superposes_the_loads (self : SubsurfaceStress)
    (current_state : gmap string ndarray) (zs : list R) (l0 : string)
    (example_loads : ndarray) (n : Z) (surface : Surface) (sc : string) :
  let o := solve model_surface plan_multi_convolve self current_state in
  keep_kernels self = false ->
  NoDup (surfaces self) -> n ∈ surfaces self ->
  model_surface n = Some surface ->
  z self = Some zs ->
  head (chars (load_components self)) = Some l0 ->
  current_state !! ("loads_" ++ l0) = Some example_loads ->
  sc ∈ stress_components self -> sc ∈ cauchy_components ->
  out_raised o = None ->
  exists v, out_state o !! state_key n sc = Some v /\
            forall i, data v i
                      = superposed plan_multi_convolve self zs example_loads
                          surface current_state sc i.
Proof.
  intros o Hkeep Hdup Hn Hsurf Hz Hl0 Hex Hsc Hraw. subst o. unfold solve.
  destruct (chars (load_components self)) as [|l ls] eqn:Hchars; [done|].
  injection Hl0 as ->. rewrite Hex, Hz.
  intros Hret.
  by apply (solve_surfaces_sum self zs example_loads
              (length zs :: shape example_loads) current_state current_state
              (surfaces self) n surface sc).
Qed.

End superposition.

(** * Kernels that are kept *)

Section reuse.
Import SubSurfaceStress.

Variables model model' : Z -> option Surface.
Variable plan_multi_convolve : ndarray -> ndarray -> bool * bool -> conv_func.

(** With kernels kept, a lookup that returns leaves the span recorded and
    the convolution functions stored. *)
Lemma get_conv_funcs_built (self self' : SubsurfaceStress) (zs : list R)
    (ex : ndarray) (span : list nat) (n : Z) (surface : Surface) (l : string)
    (cf : odict conv_func) :
  keep_kernels self = true ->
  get_conv_funcs plan_multi_convolve self zs ex span n surface l
    = (self', inr cf) ->
  keep_kernels self' = true /\ _cache_span self' = span /\
  exists by_load, _kernel_cache self' !! n = Some by_load /\
                  by_load !! l = Some cf.
Proof.
  intros Hkeep. unfold get_conv_funcs, store_conv_funcs. rewrite Hkeep.
  cbn [andb]. case_bool_decide as Hspan.
  - destruct (_kernel_cache self !! n) as [by_load|] eqn:Hn;
      [|intros [= <- ?]; discriminate].
    destruct (by_load !! l) as [cf'|] eqn:Hl; [|intros [= <- ?]; discriminate].
    intros [= <- <-]. split; [done|]. split; [done|]. by exists by_load.
  - destruct (influence_matrices self zs span surface l) as [e|im];
      [intros [= <- ?]; discriminate|].
    cbn. destruct (_kernel_cache self !! n) as [by_load|] eqn:Hn;
      [|intros [= <- ?]; discriminate].
    intros [= <- <-]. cbn. split; [done|]. split; [done|].
    eexists. split; [apply lookup_insert_eq|]. apply lookup_insert_eq.
Qed.

(** A lookup for the recorded span reads the stored convolution functions
    and leaves the material alone. *)
Lemma get_conv_funcs_hit (self : SubsurfaceStress) (zs : list R)
    (ex : ndarray) (n : Z) (surface : Surface) (l : string)
    (by_load : gmap string (odict conv_func)) (cf : odict conv_func) :
  keep_kernels self = true ->
  _kernel_cache self !! n = Some by_load -> by_load !! l = Some cf ->
  get_conv_funcs plan_multi_convolve self zs ex (_cache_span self) n surface l
  = (self, inr cf).
Proof.
  intros Hkeep Hn Hl. unfold get_conv_funcs.
  by rewrite Hkeep, bool_decide_eq_true_2, Hn, Hl.
Qed.

Lemma single_pair_returns (self : SubsurfaceStress)
    (st : gmap string ndarray) (l : string) (n : Z) :
  chars (load_components self) = [l] -> surfaces self = [n] ->
  out_raised (solve model plan_multi_convolve self st) = None ->
  exists zs ex surface cf,
    z self = Some zs /\ st !! ("loads_" ++ l) = Some ex /\
    model n = Some surface /\
    get_conv_funcs plan_multi_convolve self zs ex (shape ex) n surface l
    = (out_self (solve model plan_multi_convolve self st), inr cf).
Proof.
  intros Hchars Hn. unfold solve. rewrite Hchars, Hn.
  destruct (st !! ("loads_" ++ l)) as [ex|]; [|done].
  destruct (z self) as [zs|]; [|done].
  cbn. unfold solve_surface.
  destruct (model n) as [surface|]; [|done].
  destruct (negb _); [done|].
  rewrite Hchars. cbn.
  destruct (get_conv_funcs _ self zs ex (shape ex) n surface l)
    as [self1 [e|cf]] eqn:Hget; [done|].
  destruct (accumulate _ st l cf []) as [e|ir]; [done|].
  destruct (principal_step self1 _ _) as [e|ir']; [done|].
  cbn. intros _. by exists zs, ex, surface, cf.
Qed.

Lemma single_pair_on_a_hit (m : Z -> option Surface) (self : SubsurfaceStress)
    (st : gmap string ndarray) (l : string) (n : Z)
    (by_load : gmap string (odict conv_func)) (cf : odict conv_func) :
  chars (load_components self) = [l] -> surfaces self = [n] ->
  keep_kernels self = true ->
  _kernel_cache self !! n = Some by_load -> by_load !! l = Some cf ->
  (forall ex, st !! ("loads_" ++ l) = Some ex -> shape ex = _cache_span self) ->
  solve m plan_multi_convolve self st
  = match st !! ("loads_" ++ l), z self with
    | None, _ => Build_Outcome self st (Some (KeyError ("loads_" ++ l)))
    | Some _, None =>
        Build_Outcome self st
          (Some (TypeError "object of type 'NoneType' has no len()"))
    | Some ex, Some zs =>
        let sh := length zs :: shape ex in
        match m n with
        | None =>
            Build_Outcome self st (Some (AttributeError ("surface_" ++ pretty n)))
        | Some surface =>
            if negb (is_IMMaterial (material surface)) then
              Build_Outcome self st
                (Some (AssertionError
                   "Sub surface stress only valid for influence matrix based materials"))
            else
              match accumulate sh st l cf [] with
              | inl e => Build_Outcome self st (Some e)
              | inr ir =>
                  match principal_step self sh (von_mises_step self sh ir) with
                  | inl e => Build_Outcome self st (Some e)
                  | inr ir' =>
                      Build_Outcome self
                        (write_results sh n (stress_components self) ir' st) None
                  end
              end
        end
    end.
Proof.
  intros Hchars Hn Hkeep Hcache Hl Hspan. unfold solve. rewrite Hchars, Hn.
  destruct (st !! ("loads_" ++ l)) as [ex|] eqn:Hex; [|done].
  destruct (z self) as [zs|]; [|done].
  cbn. unfold solve_surface.
  destruct (m n) as [surface|]; [|done].
  destruct (negb _); [done|].
  rewrite Hchars. cbn [load_loop].
  rewrite (Hspan ex eq_refl).
  rewrite (get_conv_funcs_hit self zs ex n surface l by_load cf) by done.
  destruct (accumulate _ st l cf []) as [e|ir]; [done|].
  by destruct (principal_step self _ _) as [e|ir'].
Qed.

(** X14.  A sub-model for one surface and one load direction that keeps its
    kernels and has got through [solve] once reuses them: on any state
    whose loads have the shape of the first ones, the next [solve] does not
    ask the material for influence matrices, so its outcome is the same
    for every model with the same kinds of material. *)
Theorem kept_kernels_are_reused (self : SubsurfaceStress)
    (first_state next_state : gmap string ndarray) (l : string) (n : Z) :
  let first := solve model plan_multi_convolve self first_state in
  keep_kernels self = true ->
  chars (load_components self) = [l] -> surfaces self = [n] ->
  out_raised first = None ->
  (forall ex ex', first_state !! ("loads_" ++ l) = Some ex ->
                  next_state !! ("loads_" ++ l) = Some ex' ->
                  shape ex' = shape ex) ->
  same_kinds_of_material model model' ->
  solve model plan_multi_convolve (out_self first) next_state
  = solve model' plan_multi_convolve (out_self first) next_state.
Proof.
  intros first Hkeep Hchars Hn Hret Hshape Hkinds.
  destruct (single_pair_returns self first_state l n Hchars Hn Hret)
    as (zs & ex & surface & cf & Hz & Hex & Hsurf & Hget).
  fold first in Hget.
  destruct (get_conv_funcs_built _ _ _ _ _ _ _ _ _ Hkeep Hget)
    as (Hkeep1 & Hspan1 & by_load & Hcache & Hl).
  pose proof (get_conv_funcs_same _ _ _ _ _ _ _ _ _ _ Hget)
    as (Hlc & _ & _ & Hsurfaces & _).
  assert (Hchars1 : chars (load_components (out_self first)) = [l])
    by by rewrite Hlc.
  assert (Hn1 : surfaces (out_self first) = [n]) by by rewrite Hsurfaces.
  assert (Hspan : forall ex', next_state !! ("loads_" ++ l) = Some ex' ->
                              shape ex' = _cache_span (out_self first)).
  { intros ex' Hex'. rewrite Hspan1. by eapply Hshape. }
  rewrite (single_pair_on_a_hit model _ next_state l n by_load cf) by done.
  rewrite (single_pair_on_a_hit model' _ next_state l n by_load cf) by done.
  destruct (next_state !! ("loads_" ++ l)) as [ex'|]; [|done].
  destruct (z (out_self first)) as [zs'|]; [|done].
  cbn zeta. specialize (Hkinds n).
  destruct (model n) as [s|], (model' n) as [s'|]; try done.
  by rewrite Hkinds.
Qed.

End reuse.

(** * The further properties on concrete runs *)

Section further_examples.
Import SubSurfaceStress.






(** X3 on a concrete run. *)
Lemma solve_leaves_other_keys_alone_witness :
  out_state (solve zero_model kernel_as_response (xx_of_two_surfaces false)
               unit_loads) !! "loads_z"
  = unit_loads !! "loads_z".
Proof.
  destruct (solve_leaves_other_keys_alone zero_model kernel_as_response
              (xx_of_two_surfaces false) unit_loads)
    as (Hother & _).
  - reflexivity.
  - apply Hother. decide_by_running.
Defined.

(** X4 on a concrete run. *)
Lemma returned_state_holds_every_output_witness :
  exists v,
    out_state (solve zero_model kernel_as_response (xx_of_two_surfaces false)
                 unit_loads) !! "surface_2_xx"
    = Some v /\ shape v = [1; 2; 2]%nat.
Proof.
  apply (returned_state_holds_every_output zero_model kernel_as_response
           (xx_of_two_surfaces false) unit_loads [0%R] "z"
           (mk_ndarray [2; 2]%nat (fun _ => 1%R)) "surface_2_xx").
  - reflexivity.
  - reflexivity.
  - reflexivity.
  - reflexivity.
  - vm_compute. reflexivity.
  - decide_by_running.
Defined.

(** X12 on a concrete run. *)
Lemma solve_without_cache_keeps_the_object_witness :
  out_self (solve zero_model kernel_as_response (xx_of_two_surfaces false)
              unit_loads)
  = xx_of_two_surfaces false.
Proof.
  apply (solve_without_cache_keeps_the_object zero_model kernel_as_response
           (xx_of_two_surfaces false) unit_loads).
  reflexivity.
Defined.

(** X13 on a concrete run. *)
Lemma cache_is_transparent_for_a_single_pair_witness :
  let kept := xx_of_one_surface true in
  let rebuilt := xx_of_one_surface false in
  let o1 := solve zero_model kernel_as_response kept unit_loads in
  let r1 := solve zero_model kernel_as_response rebuilt unit_loads in
  let o2 := solve zero_model kernel_as_response (out_self o1) (out_state o1) in
  let r2 := solve zero_model kernel_as_response (out_self r1) (out_state r1) in
  out_state o1 = out_state r1 /\ out_raised o1 = out_raised r1 /\
  out_state o2 = out_state r2 /\ out_raised o2 = out_raised r2.
Proof.
  intros kept rebuilt.
  apply (cache_is_transparent_for_a_single_pair zero_model kernel_as_response
           kept rebuilt unit_loads "z" 1).
  - by repeat split.
  - by repeat split.
  - reflexivity.
  - reflexivity.
  - reflexivity.
  - reflexivity.
  - vm_compute. by eexists.
  - intros ex Hex. vm_compute in Hex. injection Hex as <-. discriminate.
Defined.

(** X6 on a concrete run. *)
Lemma written_von_mises_matches_the_written_tensor_witness :
  let o := solve uniform_model kernel_as_response tensor_and_von_mises
             unit_loads in
  exists vm xx yy zz xy yz xz : ndarray,
    out_state o !! "surface_2_vm" = Some vm /\
    out_state o !! "surface_2_xx" = Some xx /\
    out_state o !! "surface_2_yy" = Some yy /\
    out_state o !! "surface_2_zz" = Some zz /\
    out_state o !! "surface_2_xy" = Some xy /\
    out_state o !! "surface_2_yz" = Some yz /\
    out_state o !! "surface_2_xz" = Some xz /\
    forall i,
      data vm i = von_mises (data xx i) (data yy i) (data zz i)
                    (data xy i) (data yz i) (data xz i) /\
      (0 <= data vm i)%R.
Proof.
  intros o.
  apply (written_von_mises_matches_the_written_tensor uniform_model
           kernel_as_response tensor_and_von_mises unit_loads 2).
  - decide_by_running.
  - intros k Hk. apply elem_of_app. by left.
  - decide_by_running.
  - vm_compute. reflexivity.
Defined.

(** X16 on a concrete run. *)
Lemma single_surface_solve_writes_all_or_nothing_witness :
  out_state (solve zero_model kernel_as_response principal_only unit_loads)
  = unit_loads.
Proof.
  apply (single_surface_solve_writes_all_or_nothing zero_model
           kernel_as_response principal_only unit_loads 1).
  - reflexivity.
  - vm_compute. by eexists.
Defined.

(** X15 on a concrete run. *)
Lemma fresh_sub_model_for_two_surfaces_never_solves_witness :
  is_Some (out_raised (solve zero_model kernel_as_response
                         (xx_of_two_surfaces true) unit_loads)).
Proof.
  apply (fresh_sub_model_for_two_surfaces_never_solves zero_model
           kernel_as_response (Some [0%R]) 1 2 [] "sub_surface_stress" (false, false) "z"
           (StrSeq ["xx"]) false (xx_of_two_surfaces true) unit_loads).
  - vm_compute. reflexivity.
  - discriminate.
Defined.

(** X10 on a concrete run. *)
Lemma principal_request_needs_all_six_components_witness :
  is_Some (out_raised (solve zero_model kernel_as_response principal_only
                         unit_loads)).
Proof.
  apply (principal_request_needs_all_six_components zero_model
           kernel_as_response principal_only unit_loads "1" "xx").
  - decide_by_running.
  - decide_by_running.
  - discriminate.
  - decide_by_running.
  - decide_by_running.
Defined.

(** X17 on a concrete run. *)
Lemma solve_raises_no_value_error_witness :
  exc_class (RuntimeError "dictionary changed size during iteration")
    ∈ solve_exception_classes /\
  exc_class (RuntimeError "dictionary changed size during iteration")
    <> "ValueError".
Proof.
  apply (solve_raises_no_value_error zero_model kernel_as_response
           principal_only unit_loads).
  - intros l Hl. apply list_elem_of_singleton in Hl. by right.
  - vm_compute. reflexivity.
Defined.

(** X18 on a concrete run. *)
Lemma solve_never_asks_for_tangential_y_witness :
  let surface :=
    {| grid_spacing := 1%R;
       material := im_material (keyed_sss zero_kernel) (keyed_sss zero_kernel)
                     (keyed_sss (uniform_kernel 1 1 1 1 1 1)) |} in
  solve zero_model kernel_as_response (xx_of_two_surfaces false) unit_loads
  = solve (two_surfaces surface surface) kernel_as_response
      (xx_of_two_surfaces false) unit_loads.
Proof.
  intros surface.
  apply (solve_never_asks_for_tangential_y zero_model
           (two_surfaces surface surface) kernel_as_response
           (xx_of_two_surfaces false) unit_loads).
  - intros n. unfold zero_model, example_model, two_surfaces.
    repeat case_decide; by repeat split.
  - intros l Hl. apply list_elem_of_singleton in Hl. by right.
Defined.

(** X19 on two states that differ at a key that is not required. *)
Lemma declared_requirements_cover_the_reads_witness :
  let other_state := <["time_step" := zeros []]> unit_loads in
  let o := solve zero_model kernel_as_response (xx_of_two_surfaces true)
             unit_loads in
  let o' := solve zero_model kernel_as_response (xx_of_two_surfaces true)
              other_state in
  out_self o = out_self o' /\ out_raised o = out_raised o' /\
  out_state o !! "surface_1_xx" = out_state o' !! "surface_1_xx" /\
  out_raised o = Some (KeyError "z") /\
  ("z" ∉ requires (xx_of_two_surfaces true)).
Proof.
  intros other_state o o'.
  destruct (declared_requirements_cover_the_reads zero_model kernel_as_response
              (xx_of_two_surfaces true) unit_loads other_state)
    as (Hself & Hraised & Hwrites & Hkeys).
  - reflexivity.
  - intros key Hkey.
    apply elem_of_list_to_set, list_elem_of_singleton in Hkey as ->.
    symmetry. by apply lookup_insert_ne.
  - fold o o' in Hself, Hraised, Hwrites, Hkeys.
    assert (Hz : out_raised o = Some (KeyError "z"))
      by (vm_compute; reflexivity).
    split; [exact Hself|]. split; [exact Hraised|].
    split.
    + destruct (Hwrites "surface_1_xx") as [Heq|(Hleft & Hright)];
        [exact Heq|].
      rewrite Hleft, Hright. symmetry. by apply lookup_insert_ne.
    + split; [exact Hz|]. apply Hkeys; [| |exact Hz].
      * intros n Hn. apply elem_of_cons in Hn as [->|Hn];
          [vm_compute; by eexists|].
        apply list_elem_of_singleton in Hn as ->. vm_compute. by eexists.
      * intros key Hkey.
        apply elem_of_list_to_set, list_elem_of_singleton in Hkey as ->.
        vm_compute. by eexists.
Defined.

(** X2 on a concrete run. *)
Lemma constructed_object_meets_the_contract_witness :
  declares_its_inputs (xx_of_two_surfaces true) /\
  declares_its_outputs (xx_of_two_surfaces true) /\
  directions_checked (xx_of_two_surfaces true) /\
  cache_covers_surfaces (xx_of_two_surfaces true) /\
  (forall n, unbuilt (xx_of_two_surfaces true) n) /\
  _cache_span (xx_of_two_surfaces true) = [0; 0]%nat.
Proof.
  apply (constructed_object_meets_the_contract (Some [0%R]) (IntSeq [1; 2]%Z)
           "sub_surface_stress" (false, false) "z" (StrSeq ["xx"]) true false).
  vm_compute. reflexivity.
Defined.

(** X5 on a concrete run. *)
Lemma written_component_superposes_the_loads_witness :
  exists v,
    out_state (solve uniform_model kernel_as_response
                 (xx_of_two_surfaces false) unit_loads) !! "surface_2_xx"
    = Some v /\
    forall i, data v i = 3%R.
Proof.
  destruct (written_component_superposes_the_loads uniform_model
              kernel_as_response (xx_of_two_surfaces false) unit_loads [0%R]
              "z" (mk_ndarray [2; 2]%nat (fun _ => 1%R)) 2
              {| grid_spacing := 1%R;
                 material := im_material
                               (keyed_sss (uniform_kernel 3 2 1 0 0 0))
                               (keyed_sss (uniform_kernel 3 2 1 0 0 0))
                               (keyed_sss (uniform_kernel 3 2 1 0 0 0)) |}
              "xx") as (v & Hv & Hdata).
  - reflexivity.
  - decide_by_running.
  - decide_by_running.
  - reflexivity.
  - reflexivity.
  - reflexivity.
  - reflexivity.
  - decide_by_running.
  - decide_by_running.
  - vm_compute. reflexivity.
  - exists v. split; [exact Hv|]. intros i. rewrite Hdata.
    unfold superposed, response.
    change (chars (load_components (xx_of_two_surfaces false))) with ["z"].
    cbn [foldr].
    replace (influence_matrices _ _ _ _ "z")
      with (@inr PyExc _
              [("xx", uniform_kernel 3 2 1 0 0 0 [2; 2]%nat [1%R; 1%R] "xx"
                        [0%R] false)]) by reflexivity.
    replace (unit_loads !! ("loads_" ++ "z"))
      with (Some (mk_ndarray [2; 2]%nat (fun _ => 1%R))) by reflexivity.
    cbn [foldr fst snd]. case_decide; [|done].
    unfold kernel_as_response, uniform_kernel, full. cbn [data].
    case_decide; [lra | done].
Defined.

(** X14 on a concrete run. *)
Lemma kept_kernels_are_reused_witness :
  let first := solve zero_model kernel_as_response (xx_of_one_surface true)
                 unit_loads in
  solve zero_model kernel_as_response (out_self first) unit_loads
  = solve uniform_model kernel_as_response (out_self first) unit_loads.
Proof.
  intros first.
  apply (kept_kernels_are_reused zero_model uniform_model kernel_as_response
           (xx_of_one_surface true) unit_loads unit_loads "z" 1).
  - reflexivity.
  - reflexivity.
  - reflexivity.
  - vm_compute. reflexivity.
  - intros ex ex' Hex Hex'. congruence.
  - intros n. unfold zero_model, uniform_model, example_model, two_surfaces.
    by repeat case_decide.
Defined.

(** X1 on a request for the load directions 'z' and 'y'. *)
Lemma init_accepts_exactly_the_valid_requests_witness :
  exists e,
    __init__ (Some [0%R]) (AnInt 1) "sub_surface_stress" (false, false) "zy"
         (StrSeq ["xx"]) true false = inl e /\
    exc_class e = "ValueError" /\
    ~ ((forall l, l ∈ chars "zy" -> l = "x" \/ l = "z") /\
       (forall sc, sc ∈ component_seq (StrSeq ["xx"]) -> sc ∈ valid_stresses)).
Proof.
  pose proof (init_accepts_exactly_the_valid_requests (Some [0%R]) (AnInt 1)
                "sub_surface_stress" (false, false) "zy" (StrSeq ["xx"])
                true false) as Hinit.
  cbv zeta in Hinit.
  destruct (__init__ (Some [0%R]) (AnInt 1) "sub_surface_stress"
              (false, false) "zy" (StrSeq ["xx"]) true false)
    as [e|self] eqn:Hrun.
  - exists e. split; [reflexivity | exact Hinit].
  - vm_compute in Hrun. discriminate.
Defined.

(** X11 on a concrete run. *)
Lemma solve_changes_only_span_and_cache_witness :
  is_Some (_kernel_cache
             (out_self (solve zero_model kernel_as_response
                          (xx_of_two_surfaces true) unit_loads)) !! 2%Z).
Proof.
  destruct (solve_changes_only_span_and_cache zero_model kernel_as_response
              (xx_of_two_surfaces true) unit_loads) as (_ & Hcache).
  apply Hcache. vm_compute. by eexists.
Defined.

End further_examples.

Section further_shift_examples.
Import ShiftSurface.

(** X20 on a call without keyword arguments. *)
Lemma shift_raises_exactly_on_a_missing_key_witness :
  let self := {| name := "roll";
                 requires := py_set (chars "time_step");
                 provides := py_set [];
                 transient_values := (3, 1)%R;
                 transient_names := ("roll_shift_speed_x", "roll_shift_speed_y");
                 interpolation_mode := "linear";
                 _surface_to_roll := 1 |} in
  let model := {| surface_1 := (0, 0)%R; surface_2 := (0, 0)%R |} in
  let o := _solve shift_offset self model {[ "time_step" := 2%R ]} ∅ in
  out_raised o = Some (KeyError "roll_shift_speed_x") /\ out_model o = model.
Proof.
  intros self model o.
  destruct (shift_raises_exactly_on_a_missing_key offset_surface shift_offset
              self model {[ "time_step" := 2%R ]} ∅)
    as (_ & Hx & _ & _ & Hatomic).
  split; [by apply Hx|]. apply Hatomic. fold o.
  replace (out_raised o) with (Some (KeyError "roll_shift_speed_x"))
    by (symmetry; by apply Hx).
  by eexists.
Defined.

End further_shift_examples.
